(** * LPD detector data path: trailer codec, frame assembly, pixel reordering

    A shallow embedding of the LPD receiver definitions
    ([data/common/include/LpdDefinitions.h]), of the frame decoder interface
    ([data/frameReceiver/include/LpdFrameDecoder.h]), of the frame
    processor plugin ([data/frameProcessor/src/LpdProcessPlugin.cpp]) and of
    the Python extension over the FEM API
    ([fem_api_extension/fem_api_wrapper.c]), together with the properties the
    design document states about them and further properties of the code. *)

From Stdlib Require Import ZArith List Lia Bool String.
From stdpp Require Import gmap strings.
Import ListNotations.

Local Open Scope Z_scope.

(** ** Machine integers

    Unsigned 32-bit variables ([unsigned int], [uint32_t]) are integers of
    [Z] reduced modulo [2^32] wherever the C++ code stores into them, and
    [uint8_t] ones are reduced modulo [2^8]. *)

Definition wrap32 (z : Z) : Z := z mod 2 ^ 32.

Definition wrap8 (z : Z) : Z := z mod 2 ^ 8.

Definition u32 (z : Z) : Prop := 0 <= z < 2 ^ 32.

(** What an [int] variable holds after an assignment: the two's complement
    value of the low 32 bits, which is what the compiled code keeps when a
    sum or a product leaves the range of the type. *)
Definition int32 (z : Z) : Z := (z + 2 ^ 31) mod 2 ^ 32 - 2 ^ 31.

(** The values of an [int]. *)
Definition int_range (z : Z) : Prop := - 2 ^ 31 <= z < 2 ^ 31.

(** [upto n] are the values a loop [for (i = 0; i < n; i++)] takes, and
    [downto n] those of [for (i = n - 1; i >= 0; i--)]. *)

Definition upto (n : Z) : list Z := map Z.of_nat (seq 0 (Z.to_nat n)).

Definition downto (n : Z) : list Z := rev (upto n).

(** ** LpdDefinitions.h *)

Module Lpd.

Definition num_bit_depths : Z := 4.

Inductive AsicCounterBitDepth :=
| bitDepthUnknown
| bitDepth1
| bitDepth6
| bitDepth12
| bitDepth24.

Definition bit_depth_value (b : AsicCounterBitDepth) : Z :=
  match b with
  | bitDepthUnknown => -1
  | bitDepth1 => 0
  | bitDepth6 => 1
  | bitDepth12 => 2
  | bitDepth24 => 3
  end.

Definition primary_packet_size : Z := 8184.

Definition num_primary_packets : list Z := [320; 320; 320; 320].
Definition max_primary_packets : Z := 320.
Definition tail_packet_size : list Z := [3464; 3464; 3464; 3464].
Definition num_tail_packets : Z := 1.

Definition max_num_fems : Z := 6.

Definition start_of_frame_mask : Z := wrap32 (Z.shiftl 1 31).
Definition end_of_frame_mask : Z := wrap32 (Z.shiftl 1 30).
Definition packet_number_mask : Z := 0x3FFFFFFF.

Definition default_frame_number : Z := -1.

(** [PacketTrailer]: two [uint32_t] words.  (The first field is called
    [frame_number] in the header; it is prefixed here because [FrameHeader]
    has a field of the same name.) *)
Record PacketTrailer := {
  trailer_frame_number : Z;
  packet_number_flags : Z
}.

(** [FemReceiveState].  Its last member,
    [uint8_t packet_state[0][max_primary_packets + num_tail_packets]], is an
    array of no rows: it names the bytes that follow the two marker counts
    and takes no room in the structure, so the record has the three counters
    only.  The bytes an expression [packet_state[0][k]] reads are given by
    the frame buffer (see [Frame] below). *)
Record FemReceiveState := {
  packets_received : Z;
  sof_marker_count : Z;
  eof_marker_count : Z
}.

(** [FrameHeader].  [frame_start_time] is the [struct timespec] as a pair of
    seconds and nanoseconds; the two arrays are read through total
    accessors, the code indexing them without a bounds check. *)
Record FrameHeader := {
  frame_number : Z;
  frame_state : Z;
  frame_start_time : Z * Z;
  total_packets_received : Z;
  total_sof_marker_count : Z;
  total_eof_marker_count : Z;
  num_active_fems : Z;
  active_fem_idx : Z -> Z;
  fem_rx_state : Z -> FemReceiveState
}.

(** A table indexed by the bit depth; an index outside the table (the
    value of [bitDepthUnknown]) has no entry. *)
Definition table_at (t : list Z) (b : AsicCounterBitDepth) : option Z :=
  if bit_depth_value b <? 0 then None
  else nth_error t (Z.to_nat (bit_depth_value b)).

Definition num_fem_frame_packets (bit_depth : AsicCounterBitDepth) : option Z :=
  match table_at num_primary_packets bit_depth with
  | Some n => Some (n + num_tail_packets)
  | None => None
  end.

(** The constants [LpdProcessPlugin.cpp] takes from namespace [Lpd] that the
    header above does not define.  They are parameters of the plugin model. *)
Record PluginConstants := {
  num_packets : Z;
  num_asic_rows : Z;
  num_asic_cols : Z;
  num_pixel_rows_per_asic : Z;
  num_pixel_cols_per_asic : Z;
  image_data_header : Z;
  max_frame_size : Z
}.

End Lpd.

(** ** Trailer codec *)

Module TrailerCodec.
Import Lpd.

(** Modelled from the spec: the bodies of [LpdFrameDecoder::get_frame_number],
    [get_packet_number], [get_start_of_frame_marker] and
    [get_end_of_frame_marker], which the decoder header only declares.
    Design section 4.1: the frame number is the raw 32-bit word, the packet
    number is [packet_number_flags & packet_number_mask], and each marker is
    [packet_number_flags & mask != 0]. *)
Definition get_frame_number (t : PacketTrailer) : Z := trailer_frame_number t.

Definition get_packet_number (t : PacketTrailer) : Z :=
  Z.land (packet_number_flags t) packet_number_mask.

Definition get_start_of_frame_marker (t : PacketTrailer) : bool :=
  negb (Z.land (packet_number_flags t) start_of_frame_mask =? 0).

Definition get_end_of_frame_marker (t : PacketTrailer) : bool :=
  negb (Z.land (packet_number_flags t) end_of_frame_mask =? 0).

(** The four fields a trailer carries. *)
Record TrailerFields := {
  tf_frame_number : Z;
  tf_packet_number : Z;
  tf_start_of_frame : bool;
  tf_end_of_frame : bool
}.

Definition decode (t : PacketTrailer) : TrailerFields :=
  {| tf_frame_number := get_frame_number t;
     tf_packet_number := get_packet_number t;
     tf_start_of_frame := get_start_of_frame_marker t;
     tf_end_of_frame := get_end_of_frame_marker t |}.

(** Modelled from the spec: the sender's side of the trailer, which no file
    of the repository implements.  Design section 3: the top two bits of
    [packet_number_flags] are the start-of-frame and end-of-frame flags and
    the low 30 bits are the packet sequence number. *)
Definition encode (x : TrailerFields) : PacketTrailer :=
  {| trailer_frame_number := tf_frame_number x;
     packet_number_flags :=
       Z.lor (Z.lor (if tf_start_of_frame x then start_of_frame_mask else 0)
                    (if tf_end_of_frame x then end_of_frame_mask else 0))
             (tf_packet_number x) |}.

(** A 32-bit frame number and a 30-bit packet number. *)
Definition valid_fields (x : TrailerFields) : Prop :=
  0 <= tf_frame_number x < 2 ^ 32 /\ 0 <= tf_packet_number x < 2 ^ 30.

End TrailerCodec.

(** ** Frame assembly *)

Module FrameAssembler.
Import Lpd TrailerCodec.

(** Modelled from the spec: the frame-assembly state machine of
    [LpdFrameDecoder::process_packet] and [monitor_buffers], which the decoder
    header only declares.  Design section 4.3: the states of a frame buffer
    are [Empty -> Receiving -> {Complete | Dropped}]. *)
Inductive FrameReceiveState :=
| Empty
| Receiving
| Complete
| Dropped.

Definition state_code (s : FrameReceiveState) : Z :=
  match s with
  | Empty => 0
  | Receiving => 1
  | Complete => 2
  | Dropped => 3
  end.

Definition empty_fem_rx_state : FemReceiveState :=
  {| packets_received := 0;
     sof_marker_count := 0;
     eof_marker_count := 0 |}.

Definition empty_header : FrameHeader :=
  {| frame_number := wrap32 default_frame_number;
     frame_state := state_code Empty;
     frame_start_time := (0, 0);
     total_packets_received := 0;
     total_sof_marker_count := 0;
     total_eof_marker_count := 0;
     num_active_fems := 0;
     active_fem_idx := fun _ => 0;
     fem_rx_state := fun _ => empty_fem_rx_state |}.

(** A frame buffer of the pool: its header and, once the frame was dropped,
    the lost-packet contribution recorded for it. *)
Record FrameBuffer := {
  header : FrameHeader;
  lost : Z
}.

Definition idle : FrameBuffer := {| header := empty_header; lost := 0 |}.

Definition set_frame_state (s : FrameReceiveState) (h : FrameHeader) : FrameHeader :=
  {| frame_number := frame_number h;
     frame_state := state_code s;
     frame_start_time := frame_start_time h;
     total_packets_received := total_packets_received h;
     total_sof_marker_count := total_sof_marker_count h;
     total_eof_marker_count := total_eof_marker_count h;
     num_active_fems := num_active_fems h;
     active_fem_idx := active_fem_idx h;
     fem_rx_state := fem_rx_state h |}.

(** Modelled from the spec: step 2 of the per-packet transition, "Locate or
    allocate the frame buffer for [frame_number]": the buffer is claimed on
    the first packet of a frame, the header reset and the start time
    recorded. *)
Definition claim (now : Z * Z) (t : PacketTrailer) : FrameHeader :=
  {| frame_number := get_frame_number t;
     frame_state := state_code Receiving;
     frame_start_time := now;
     total_packets_received := 0;
     total_sof_marker_count := 0;
     total_eof_marker_count := 0;
     num_active_fems := 0;
     active_fem_idx := fun _ => 0;
     fem_rx_state := fun _ => empty_fem_rx_state |}.

(** The position of a logical FEM index in [active_fem_idx], if the FEM
    already takes part in the frame. *)
Definition fem_position (h : FrameHeader) (fem : Z) : option Z :=
  find (fun pos => active_fem_idx h pos =? fem) (upto (num_active_fems h)).

(** "creating the [active_fem_idx] entry for this FEM on first sight". *)
Definition add_active_fem (fem : Z) (h : FrameHeader) : FrameHeader :=
  {| frame_number := frame_number h;
     frame_state := frame_state h;
     frame_start_time := frame_start_time h;
     total_packets_received := total_packets_received h;
     total_sof_marker_count := total_sof_marker_count h;
     total_eof_marker_count := total_eof_marker_count h;
     num_active_fems := num_active_fems h + 1;
     active_fem_idx := fun pos => if pos =? num_active_fems h then fem else active_fem_idx h pos;
     fem_rx_state := fun pos => if pos =? num_active_fems h then empty_fem_rx_state
                                else fem_rx_state h pos |}.

(** Modelled from the spec: steps 3 and 4, the update of the counters of one
    FEM by one packet.  (Where the payload goes, and the slot noted for it,
    is not part of the receive state: see [FemReceiveState].) *)
Definition record_packet (t : PacketTrailer) (rx : FemReceiveState) : FemReceiveState :=
  {| packets_received := wrap32 (packets_received rx + 1);
     sof_marker_count := if get_start_of_frame_marker t
                         then wrap8 (sof_marker_count rx + 1) else sof_marker_count rx;
     eof_marker_count := if get_end_of_frame_marker t
                         then wrap8 (eof_marker_count rx + 1) else eof_marker_count rx |}.

Definition count_packet (pos : Z) (t : PacketTrailer) (h : FrameHeader) : FrameHeader :=
  {| frame_number := frame_number h;
     frame_state := frame_state h;
     frame_start_time := frame_start_time h;
     total_packets_received := wrap32 (total_packets_received h + 1);
     total_sof_marker_count := if get_start_of_frame_marker t
                               then wrap8 (total_sof_marker_count h + 1)
                               else total_sof_marker_count h;
     total_eof_marker_count := if get_end_of_frame_marker t
                               then wrap8 (total_eof_marker_count h + 1)
                               else total_eof_marker_count h;
     num_active_fems := num_active_fems h;
     active_fem_idx := active_fem_idx h;
     fem_rx_state := fun p => if p =? pos then record_packet t (fem_rx_state h pos)
                              else fem_rx_state h p |}.

(** Modelled from the spec: the completion test of section 3, "for every
    active FEM, [sof_marker_count == eof_marker_count == 1] and the per-FEM
    packet count equals the expected count for the configured bit depth". *)
Definition fem_complete (expected : Z) (rx : FemReceiveState) : bool :=
  (sof_marker_count rx =? 1) && (eof_marker_count rx =? 1)
  && (packets_received rx =? expected).

Definition frame_complete (bit_depth : AsicCounterBitDepth) (h : FrameHeader) : bool :=
  match num_fem_frame_packets bit_depth with
  | Some expected =>
      forallb (fun pos => fem_complete expected (fem_rx_state h pos))
              (upto (num_active_fems h))
  | None => false
  end.

Definition expected_packets (bit_depth : AsicCounterBitDepth) (h : FrameHeader) : Z :=
  match num_fem_frame_packets bit_depth with
  | Some expected => expected * num_active_fems h
  | None => 0
  end.

(** Steps 2 to 5 for a packet of a frame that is being received. *)
Definition accept (bit_depth : AsicCounterBitDepth) (fem : Z) (t : PacketTrailer)
    (h : FrameHeader) : FrameHeader :=
  let (h, pos) := match fem_position h fem with
                  | Some pos => (h, pos)
                  | None => (add_active_fem fem h, num_active_fems h)
                  end in
  let h := count_packet pos t h in
  if frame_complete bit_depth h then set_frame_state Complete h else h.

(** Modelled from the spec: what can happen to a frame buffer: a packet of
    its frame arrives from a mapped FEM, the completion timeout expires, or
    the pool reclaims the buffer under pressure. *)
Inductive Event :=
| Packet (fem : Z) (now : Z * Z) (t : PacketTrailer)
| Timeout
| Evict.

(** Modelled from the spec: step 6 and the eviction policy: a frame that is
    still being received is dropped, and "its received packet count versus
    expected count becomes the lost-packet contribution for that frame". *)
Definition drop (bit_depth : AsicCounterBitDepth) (b : FrameBuffer) : FrameBuffer :=
  if frame_state (header b) =? state_code Receiving then
    {| header := set_frame_state Dropped (header b);
       lost := expected_packets bit_depth (header b) - total_packets_received (header b) |}
  else b.

(** A buffer that was handed on ([Complete]) or dropped is not mutated. *)
Definition step (bit_depth : AsicCounterBitDepth) (b : FrameBuffer) (e : Event) : FrameBuffer :=
  match e with
  | Packet fem now t =>
      if frame_state (header b) =? state_code Empty then
        {| header := accept bit_depth fem t (claim now t); lost := lost b |}
      else if frame_state (header b) =? state_code Receiving then
        {| header := accept bit_depth fem t (header b); lost := lost b |}
      else b
  | Timeout => drop bit_depth b
  | Evict => drop bit_depth b
  end.

Definition run (bit_depth : AsicCounterBitDepth) (events : list Event) : FrameBuffer :=
  fold_left (step bit_depth) events idle.

(** The invariant of a frame buffer: the state it is in, and what the state
    says about the completion test. *)
Definition buffer_invariant (bit_depth : AsicCounterBitDepth) (b : FrameBuffer) : Prop :=
  let h := header b in
  (frame_state h = state_code Empty /\ num_active_fems h = 0) \/
  (frame_state h = state_code Receiving /\ frame_complete bit_depth h = false) \/
  (frame_state h = state_code Complete /\ frame_complete bit_depth h = true) \/
  (frame_state h = state_code Dropped /\ frame_complete bit_depth h = false /\
   lost b = expected_packets bit_depth h - total_packets_received h).

End FrameAssembler.

(** ** LpdProcessPlugin.cpp *)

Module FrameProcessor.
Import Lpd.

Definition CONFIG_DROPPED_PACKETS : string := "packets_lost".
Definition CONFIG_IMAGE_WIDTH : string := "width".
Definition CONFIG_IMAGE_HEIGHT : string := "height".
Definition CONFIG_NUM_IMAGES : string := "num_images".

(** The data members of the plugin.  The configurable ones and the pixel
    count are C++ [int]s (they are assigned from [get_param<int>] and from a
    product of two of them): what the code assigns to them by arithmetic is
    reduced by [int32].  The image counter is only ever incremented and
    handed to [set_frame_number]; it is counted in [Z]. *)
Record LpdProcessPlugin := {
  image_width_ : Z;
  image_height_ : Z;
  image_pixels_ : Z;
  num_images_ : Z;
  packets_lost_ : Z;
  image_counter_ : Z
}.

(** The constructor's initialiser list. *)
Definition new_LpdProcessPlugin : LpdProcessPlugin :=
  {| image_width_ := 256;
     image_height_ := 256;
     image_pixels_ := 256 * 256;
     num_images_ := 20;
     packets_lost_ := 0;
     image_counter_ := 0 |}.

Definition set_image_width (v : Z) (p : LpdProcessPlugin) : LpdProcessPlugin :=
  {| image_width_ := v;
     image_height_ := image_height_ p;
     image_pixels_ := image_pixels_ p;
     num_images_ := num_images_ p;
     packets_lost_ := packets_lost_ p;
     image_counter_ := image_counter_ p |}.

Definition set_image_height (v : Z) (p : LpdProcessPlugin) : LpdProcessPlugin :=
  {| image_width_ := image_width_ p;
     image_height_ := v;
     image_pixels_ := image_pixels_ p;
     num_images_ := num_images_ p;
     packets_lost_ := packets_lost_ p;
     image_counter_ := image_counter_ p |}.

Definition set_image_pixels (v : Z) (p : LpdProcessPlugin) : LpdProcessPlugin :=
  {| image_width_ := image_width_ p;
     image_height_ := image_height_ p;
     image_pixels_ := v;
     num_images_ := num_images_ p;
     packets_lost_ := packets_lost_ p;
     image_counter_ := image_counter_ p |}.

Definition set_num_images (v : Z) (p : LpdProcessPlugin) : LpdProcessPlugin :=
  {| image_width_ := image_width_ p;
     image_height_ := image_height_ p;
     image_pixels_ := image_pixels_ p;
     num_images_ := v;
     packets_lost_ := packets_lost_ p;
     image_counter_ := image_counter_ p |}.

Definition set_packets_lost (v : Z) (p : LpdProcessPlugin) : LpdProcessPlugin :=
  {| image_width_ := image_width_ p;
     image_height_ := image_height_ p;
     image_pixels_ := image_pixels_ p;
     num_images_ := num_images_ p;
     packets_lost_ := v;
     image_counter_ := image_counter_ p |}.

Definition set_image_counter (v : Z) (p : LpdProcessPlugin) : LpdProcessPlugin :=
  {| image_width_ := image_width_ p;
     image_height_ := image_height_ p;
     image_pixels_ := image_pixels_ p;
     num_images_ := num_images_ p;
     packets_lost_ := packets_lost_ p;
     image_counter_ := v |}.

(** An [IpcMessage] as far as the plugin uses it: a map from parameter names
    to [int] values; [has_param] is membership and [get_param<int>] the
    lookup. *)
Abbreviation IpcMessage := (gmap string Z).

Definition configure_param (key : string) (set : Z -> LpdProcessPlugin -> LpdProcessPlugin)
    (config : IpcMessage) (p : LpdProcessPlugin) : LpdProcessPlugin :=
  match config !! key with
  | Some v => set v p
  | None => p
  end.

(** [LpdProcessPlugin::configure].  The reply message is handed back as it
    was received. *)
Definition configure (config reply : IpcMessage) (p : LpdProcessPlugin)
    : LpdProcessPlugin * IpcMessage :=
  let p := configure_param CONFIG_DROPPED_PACKETS set_packets_lost config p in
  let p := configure_param CONFIG_IMAGE_WIDTH set_image_width config p in
  let p := configure_param CONFIG_IMAGE_HEIGHT set_image_height config p in
  let p := configure_param CONFIG_NUM_IMAGES set_num_images config p in
  (set_image_pixels (int32 (image_width_ p * image_height_ p)) p, reply).

(** [LpdProcessPlugin::status]; [name] is what [get_name()] returns. *)
Definition status (name : string) (msg : IpcMessage) (p : LpdProcessPlugin) : IpcMessage :=
  <[String.append name "/packets_lost" := packets_lost_ p]> msg.

(** The input [Frame]: the header at the start of the buffer, the size the
    frame reports, the image data after the header, read as the [uint16_t]
    found at a byte offset from [data_ptr], and the bytes
    [hdr_ptr->fem_rx_state->packet_state[0][k]] reads.  The latter start
    right after the marker counts of the first entry of [fem_rx_state],
    whichever FEM the loop is at, and run on over the entries that follow and
    into the image data; which bytes of the buffer they are is a matter of
    memory layout, so the frame gives them as it gives the image data.  The
    code reads each as a [uint8_t]. *)
Record Frame := {
  hdr : FrameHeader;
  data_size : Z;
  load16 : Z -> Z;
  packet_state : Z -> Z
}.

(** What [copy_data] puts into an output frame: 16-bit samples of the image
    plane, or one 4-byte word. *)
Inductive Payload :=
| Samples (px : list Z)
| Word32 (w : Z).

(** An output [Frame] as handed to [push]: its dataset name, the number given
    to [set_frame_number], the dimensions and the copied data. *)
Record OutFrame := {
  out_name : string;
  out_frame_number : Z;
  out_dimensions : list Z;
  out_data : Payload
}.

Inductive Level := TRACE | DEBUG | ERROR.

(** The log statements of the plugin, one constructor per statement, with the
    values the statement prints. *)
Inductive Message :=
| ReorderingFrame
| FrameSize (size : Z)
| ProcessingLostPackets (frame : Z)
| PacketsReceivedOutOf (received maximum : Z)
| FrameHasDropped (frame lost : Z)
| TotalPacketsLost (total : Z)
| RawFrameNumber (frame : Z)
| FrameState (state : Z)
| PacketsAndMarkers (received sof eof : Z)
| ActiveFems (count : Z) (ids : list Z)
| OutputImageSize (size : Z)
| ActiveFemStripe (fem_idx : Z) (stripe_is_even : bool)
| ReadingImage (image : Z)
| PktMissing (pkt_num : Z)
| PushingData
| PushingImgNum (image : Z)
| PushingFrameNum (frame : Z)
| DecodeFailed (what : string).

(** The packet cursor of the reordering loop: the four local variables
    [pkt_num], [pkt_slot], [pkt_offset] and [pixel_offset]. *)
Record Cursor := {
  pkt_num : Z;
  pkt_slot : Z;
  pkt_offset : Z;
  pixel_offset : Z
}.

(** One execution of the assignment [*output_data_ptr = ...]: where in the
    loop nest it happened, the cursor at that moment, the offset into the
    reordered image and the value stored. *)
Record Store := {
  st_fem : Z;
  st_image : Z;
  st_pkt_num : Z;
  st_pkt_slot : Z;
  st_pixel_offset : Z;
  st_offset : Z;
  st_value : Z
}.

(** A store that leaves defined behaviour ends the run. *)
Inductive Fault :=
| NullWrite (offset : Z)
| WriteOutOfBounds (offset : Z).

(** The state threaded through [process_frame]: the plugin members, what was
    pushed downstream and logged so far (oldest first), the stores executed so
    far, the local [reordered_image] pointer ([None] is [NULL]) with the
    contents of the buffer it points to, the packet cursor, and the fault that
    ended the run, if any. *)
Record Run := {
  plugin : LpdProcessPlugin;
  pushed : list OutFrame;
  log : list (Level * Message);
  stores : list Store;
  reordered_image : option (list Z);
  cursor : Cursor;
  fault : option Fault
}.

Definition null_cursor : Cursor :=
  {| pkt_num := 0; pkt_slot := 0; pkt_offset := 0; pixel_offset := 0 |}.

Definition start (p : LpdProcessPlugin) : Run :=
  {| plugin := p; pushed := []; log := []; stores := [];
     reordered_image := None; cursor := null_cursor; fault := None |}.

Definition set_plugin (p : LpdProcessPlugin) (r : Run) : Run :=
  {| plugin := p; pushed := pushed r; log := log r; stores := stores r;
     reordered_image := reordered_image r; cursor := cursor r; fault := fault r |}.

Definition push (o : OutFrame) (r : Run) : Run :=
  {| plugin := plugin r; pushed := pushed r ++ [o]; log := log r; stores := stores r;
     reordered_image := reordered_image r; cursor := cursor r; fault := fault r |}.

Definition add_log (l : Level) (m : Message) (r : Run) : Run :=
  {| plugin := plugin r; pushed := pushed r; log := log r ++ [(l, m)]; stores := stores r;
     reordered_image := reordered_image r; cursor := cursor r; fault := fault r |}.

Definition add_store (s : Store) (r : Run) : Run :=
  {| plugin := plugin r; pushed := pushed r; log := log r; stores := stores r ++ [s];
     reordered_image := reordered_image r; cursor := cursor r; fault := fault r |}.

Definition set_reordered_image (b : option (list Z)) (r : Run) : Run :=
  {| plugin := plugin r; pushed := pushed r; log := log r; stores := stores r;
     reordered_image := b; cursor := cursor r; fault := fault r |}.

Definition set_cursor (c : Cursor) (r : Run) : Run :=
  {| plugin := plugin r; pushed := pushed r; log := log r; stores := stores r;
     reordered_image := reordered_image r; cursor := c; fault := fault r |}.

Definition set_fault (f : Fault) (r : Run) : Run :=
  {| plugin := plugin r; pushed := pushed r; log := log r; stores := stores r;
     reordered_image := reordered_image r; cursor := cursor r; fault := Some f |}.

(** Statements after a fault are not executed. *)
Definition when_running (k : Run -> Run) (r : Run) : Run :=
  match fault r with
  | None => k r
  | Some _ => r
  end.

(** The allocator: whether this [malloc] call fails, and what the fresh
    buffer holds (it is not initialised).  A negative [int] size converts to a
    [size_t] no allocator can serve. *)
Record Heap := {
  malloc_fails : bool;
  garbage : Z -> Z
}.

Definition malloc (heap : Heap) (bytes : Z) : option (list Z) :=
  if malloc_fails heap || (bytes <? 0) then None
  else Some (map (garbage heap) (upto (bytes / 2))).

Section Plugin.

Variable K : PluginConstants.

(** [LpdProcessPlugin::process_lost_packets]; [packets_lost] and the member
    [packets_lost_] are [int]s. *)
Definition process_lost_packets (frame : Frame) (r : Run) : Run :=
  let h := hdr frame in
  let r := add_log DEBUG (ProcessingLostPackets (frame_number h)) r in
  let r := add_log DEBUG (PacketsReceivedOutOf (total_packets_received h)
                            (num_packets K * num_active_fems h)) r in
  if total_packets_received h <? num_packets K * num_active_fems h then
    let packets_lost := int32 (num_packets K * num_active_fems h - total_packets_received h) in
    let r := add_log ERROR (FrameHasDropped (frame_number h) packets_lost) r in
    let r := set_plugin (set_packets_lost (int32 (packets_lost_ (plugin r) + packets_lost))
                                          (plugin r)) r in
    add_log ERROR (TotalPacketsLost (packets_lost_ (plugin r))) r
  else r.

(** The assignment through [output_data_ptr]. *)
Definition store (idx image output_offset v : Z) (r : Run) : Run :=
  let c := cursor r in
  let r := add_store {| st_fem := idx; st_image := image;
                        st_pkt_num := pkt_num c; st_pkt_slot := pkt_slot c;
                        st_pixel_offset := pixel_offset c;
                        st_offset := output_offset; st_value := v |} r in
  match reordered_image r with
  | None => set_fault (NullWrite output_offset) r
  | Some buf =>
      if output_offset <? Z.of_nat (length buf)
      then set_reordered_image (Some (<[Z.to_nat output_offset := v]> buf)) r
      else set_fault (WriteOutOfBounds output_offset) r
  end.

(** The cursor at the start of a FEM: [pkt_num = 0], the slot of that packet
    as [hdr_ptr->fem_rx_state->packet_state[0][pkt_num]] gives it (a
    [uint8_t] widened to [unsigned int]), the offset of the slot, and
    [pixel_offset = 0]. *)
Definition first_packet (frame : Frame) : Cursor :=
  let pkt_num := 0 in
  let pkt_slot := wrap8 (packet_state frame pkt_num) in
  let pkt_offset := wrap32 (pkt_slot * (primary_packet_size / 2)) in
  {| pkt_num := pkt_num; pkt_slot := pkt_slot;
     pkt_offset := pkt_offset; pixel_offset := 0 |}.

(** "Find next packet if pixel offset reaches the end of the current one". *)
Definition next_packet (frame : Frame) (r : Run) : Run :=
  let c := cursor r in
  let pkt_num := wrap32 (pkt_num c + 1) in
  let pkt_slot := wrap8 (packet_state frame pkt_num) in
  let pkt_offset := wrap32 (pkt_slot * (primary_packet_size / 2)) in
  set_cursor {| pkt_num := pkt_num; pkt_slot := pkt_slot;
                pkt_offset := pkt_offset; pixel_offset := 0 |} r.

(** The body of the innermost loop (over [asic_col]). *)
Definition reorder_pixel (frame : Frame) (idx image num_pixels_per_row image_row pixel_col : Z)
    (r : Run) (asic_col : Z) : Run :=
  when_running (fun r =>
    let r := if pixel_offset (cursor r) >=? primary_packet_size / 2
             then next_packet frame r else r in
    let c := cursor r in
    let input_offset := wrap32 (image_data_header K / 2 + pkt_offset c + pixel_offset c) in
    let image_col := wrap32 (asic_col * num_pixel_cols_per_asic K + pixel_col) in
    let output_offset := wrap32 (image_row * num_pixels_per_row + image_col) in
    let r :=
      if pkt_slot c <? 65535 then
        store idx image output_offset
          (load16 frame (max_frame_size K * idx + 2 * input_offset)) r
      else
        let r := if pixel_offset c =? 0
                 then add_log TRACE (PktMissing (pkt_num c)) r else r in
        store idx image output_offset 0 r in
    when_running (fun r =>
      let c := cursor r in
      set_cursor {| pkt_num := pkt_num c; pkt_slot := pkt_slot c;
                    pkt_offset := pkt_offset c;
                    pixel_offset := wrap32 (pixel_offset c + 1) |} r) r) r.

(** The four pixel loops of one image. *)
Definition reorder_pixels (frame : Frame) (idx image num_pixels_per_row : Z) (r : Run) : Run :=
  fold_left (fun r pixel_row =>
    fold_left (fun r pixel_col =>
      fold_left (fun r asic_row =>
        let image_row := wrap32 (asic_row * num_pixel_rows_per_asic K + pixel_row) in
        fold_left (reorder_pixel frame idx image num_pixels_per_row image_row pixel_col)
                  (upto (num_asic_cols K)) r)
        (downto (num_asic_rows K)) r)
      (upto (num_pixel_cols_per_asic K)) r)
    (downto (num_pixel_rows_per_asic K)) r.

(** The three frames made for one image; [counter] is the value of
    [image_counter_] when they are made and [buf] the reordered image. *)
Definition data_frame (p : LpdProcessPlugin) (image_size : Z) (buf : list Z) : OutFrame :=
  {| out_name := "data";
     out_frame_number := image_counter_ p;
     out_dimensions := [image_height_ p; image_width_ p];
     out_data := Samples (firstn (Z.to_nat (image_size / 2)) buf) |}.

Definition img_num_frame (p : LpdProcessPlugin) (image : Z) : OutFrame :=
  {| out_name := "img_num";
     out_frame_number := image_counter_ p;
     out_dimensions := [1];
     out_data := Word32 image |}.

Definition frame_num_frame (p : LpdProcessPlugin) (frame : Frame) : OutFrame :=
  {| out_name := "frame_num";
     out_frame_number := image_counter_ p;
     out_dimensions := [1];
     out_data := Word32 (frame_number (hdr frame)) |}.

(** "Set the frame image to the reordered image buffer if appropriate": the
    three pushes of one image. *)
Definition push_image (frame : Frame) (image_size image : Z) (buf : list Z) (r : Run) : Run :=
  let p := plugin r in
  let r := add_log TRACE PushingData r in
  let r := push (data_frame p image_size buf) r in
  let r := add_log TRACE (PushingImgNum image) r in
  let r := push (img_num_frame p image) r in
  let r := add_log TRACE (PushingFrameNum (frame_number (hdr frame))) r in
  push (frame_num_frame p frame) r.

(** The body of the loop over [image]. *)
Definition reorder_image (frame : Frame) (image_size idx num_pixels_per_row : Z)
    (r : Run) (image : Z) : Run :=
  when_running (fun r =>
    let r := add_log TRACE (ReadingImage image) r in
    let r := reorder_pixels frame idx image num_pixels_per_row r in
    when_running (fun r =>
      let r := match reordered_image r with
               | Some buf => push_image frame image_size image buf r
               | None => r
               end in
      set_plugin (set_image_counter (image_counter_ (plugin r) + 1) (plugin r)) r) r) r.

(** "Loop over the active FEM list to determine the maximum active FEM
    index". *)
Definition max_active_fem_idx (h : FrameHeader) : Z :=
  fold_left (fun m idx => if active_fem_idx h idx >? m then active_fem_idx h idx else m)
            (upto (num_active_fems h)) 0.

(** The body of the loop over the active FEMs.  The outer [output_offset] and
    [stripe_is_even] are computed as in the source; the pixel loop declares an
    [output_offset] of its own, so the outer one is never read. *)
Definition reorder_fem (frame : Frame) (image_size : Z) (r : Run) (idx : Z) : Run :=
  when_running (fun r =>
    let h := hdr frame in
    let p := plugin r in
    let fem_idx := active_fem_idx h idx in
    let output_offset := fem_idx * (image_height_ p * image_width_ p * num_images_ p) in
    let stripe_is_even := Z.land fem_idx 1 =? 0 in
    let r := add_log TRACE (ActiveFemStripe fem_idx stripe_is_even) r in
    let r := set_cursor (first_packet frame) r in
    let num_pixels_per_row := wrap32 (num_asic_cols K * num_pixel_cols_per_asic K) in
    let r := fold_left (reorder_image frame image_size idx num_pixels_per_row)
                       (upto (wrap32 (num_images_ p))) r in
    when_running (fun r =>
      match reordered_image r with
      | Some _ => set_reordered_image None r
      | None => r
      end) r) r.

(** The [try] block of [process_frame] either runs to its end or throws. *)
Inductive Outcome :=
| Returned (r : Run)
| Thrown (what : string) (r : Run).

Definition try_block (heap : Heap) (frame : Frame) (image_size : Z) (r : Run) : Outcome :=
  match malloc heap (image_pixels_ (plugin r) * 2) with
  | None => Thrown "Failed to allocate temporary buffer for reordered image" r
  | Some buf =>
      let r := set_reordered_image (Some buf) r in
      Returned (fold_left (reorder_fem frame image_size)
                          (upto (num_active_fems (hdr frame))) r)
  end.

(** [LpdProcessPlugin::process_frame], with its handler
    [catch (const std::exception& e)]. *)
Definition process_frame (heap : Heap) (frame : Frame) (r : Run) : Run :=
  when_running (fun r =>
    let r := add_log TRACE ReorderingFrame r in
    let r := add_log TRACE (FrameSize (data_size frame)) r in
    let r := process_lost_packets frame r in
    let h := hdr frame in
    let r := add_log TRACE (RawFrameNumber (frame_number h)) r in
    let r := add_log TRACE (FrameState (frame_state h)) r in
    let r := add_log TRACE (PacketsAndMarkers (total_packets_received h)
                              (total_sof_marker_count h) (total_eof_marker_count h)) r in
    let max_active_fem_idx := max_active_fem_idx h in
    let r := add_log TRACE (ActiveFems (num_active_fems h)
                              (map (active_fem_idx h) (upto (num_active_fems h)))) r in
    let image_size := wrap32 (image_width_ (plugin r) * image_height_ (plugin r) * 2) in
    let r := add_log TRACE (OutputImageSize image_size) r in
    let r := set_reordered_image None r in
    match try_block heap frame image_size r with
    | Returned r => r
    | Thrown what r =>
        let r := match reordered_image r with
                 | Some _ => set_reordered_image None r
                 | None => r
                 end in
        add_log ERROR (DecodeFailed (String.append "LPD frame decode failed: " what)) r
    end) r.

(** The plugin over its lifetime: frames are processed one after the other,
    each with the allocator as it is at that moment. *)
Definition process_frames (frames : list (Heap * Frame)) (r : Run) : Run :=
  fold_left (fun r hf => process_frame (fst hf) (snd hf) r) frames r.

End Plugin.

(** ** Vocabulary of the properties *)

(** Every member but the image counter. *)
Definition same_settings (p q : LpdProcessPlugin) : Prop :=
  image_width_ p = image_width_ q /\
  image_height_ p = image_height_ q /\
  image_pixels_ p = image_pixels_ q /\
  num_images_ p = num_images_ q /\
  packets_lost_ p = packets_lost_ q.

(** The log entry [process_lost_packets] starts with, and how often a log
    holds it. *)
Definition is_lost_packets_entry (e : Level * Message) : bool :=
  match snd e with
  | ProcessingLostPackets _ => true
  | _ => false
  end.

Definition lost_packets_runs (l : list (Level * Message)) : nat :=
  length (List.filter is_lost_packets_entry l).

(** What the loss accounting adds for a frame: [max(0, expected - received)],
    the expected count being [num_packets] for each active FEM. *)
Definition lost_in (K : PluginConstants) (frame : Frame) : Z :=
  Z.max 0 (num_packets K * num_active_fems (hdr frame)
           - total_packets_received (hdr frame)).

(** The offset, in 16-bit samples from the start of the image data of a FEM,
    that the pixel loop resolves for pixel [pixel_offset] of a packet stored
    in [slot]. *)
Definition resolved_offset (K : PluginConstants) (slot pixel_offset : Z) : Z :=
  wrap32 (image_data_header K / 2 + wrap32 (slot * (primary_packet_size / 2)) + pixel_offset).

(** The cursor agrees with the packet-state bytes the loop reads. *)
Definition cursor_ok (frame : Frame) (c : Cursor) : Prop :=
  pkt_slot c = wrap8 (packet_state frame (pkt_num c)) /\
  pkt_offset c = wrap32 (pkt_slot c * (primary_packet_size / 2)).

(** A store that copied: its slot is the byte read for its packet, and its
    value the input sample at the resolved offset of the FEM at loop position
    [st_fem]. *)
Definition store_ok (K : PluginConstants) (frame : Frame) (s : Store) : Prop :=
  let slot := wrap8 (packet_state frame (st_pkt_num s)) in
  st_pkt_slot s = slot /\
  st_value s = load16 frame (max_frame_size K * st_fem s
                             + 2 * resolved_offset K slot (st_pixel_offset s)).

(** The log entry of the zero-filling branch. *)
Definition is_pkt_missing_entry (e : Level * Message) : bool :=
  match snd e with
  | PktMissing _ => true
  | _ => false
  end.

(** The image the pixel loops cover: its rows, the pixels of a row, and the
    pixels of the image. *)
Definition image_rows (K : PluginConstants) : Z :=
  num_asic_rows K * num_pixel_rows_per_asic K.

Definition row_pixels (K : PluginConstants) : Z :=
  num_asic_cols K * num_pixel_cols_per_asic K.

Definition geometry_pixels (K : PluginConstants) : Z := image_rows K * row_pixels K.

(** The four loop bounds are positive: every image has pixels. *)
Definition positive_geometry (K : PluginConstants) : Prop :=
  0 < num_asic_rows K /\ 0 < num_asic_cols K /\
  0 < num_pixel_rows_per_asic K /\ 0 < num_pixel_cols_per_asic K.

(** The run has not faulted and [reordered_image] points to a buffer of [n]
    samples. *)
Definition live (n : nat) (r : Run) : Prop :=
  fault r = None /\ exists buf, reordered_image r = Some buf /\ length buf = n.

(** The three frames of image [i] of a frame, stamped [counter], with
    [plane] as the samples of the image. *)
Definition triplet (p : LpdProcessPlugin) (frame : Frame) (counter i : Z) (plane : list Z)
    : list OutFrame :=
  [ {| out_name := "data"; out_frame_number := counter;
       out_dimensions := [image_height_ p; image_width_ p];
       out_data := Samples plane |};
    {| out_name := "img_num"; out_frame_number := counter;
       out_dimensions := [1]; out_data := Word32 i |};
    {| out_name := "frame_num"; out_frame_number := counter;
       out_dimensions := [1]; out_data := Word32 (frame_number (hdr frame)) |} ].

(** The triplets of images [0 .. n-1], stamped [c], [c+1], ... *)
Definition triplets (p : LpdProcessPlugin) (frame : Frame) (c n : Z) (plane : Z -> list Z)
    : list OutFrame :=
  flat_map (fun i => triplet p frame (c + i) i (plane i)) (upto n).

(** [r'] continues [r] without touching the settings and without another
    loss-accounting entry in the log. *)
Definition continues (r r' : Run) : Prop :=
  same_settings (plugin r') (plugin r) /\
  exists rest, log r' = log r ++ rest /\ lost_packets_runs rest = 0%nat.

End FrameProcessor.

(** ** Sample inputs

    A small instance of the plugin constants (two by two ASICs of two by two
    pixels, that is a 4 x 4 image, one packet per FEM, and for each FEM a
    part of the frame buffer that has room for the 320 primary packets and
    the tail packet of [LpdDefinitions.h], so that every slot a byte can name
    lies inside it), frames for it, and a plugin configured for it. *)

Module Sample.
Import Lpd FrameProcessor.

Definition small_detector : PluginConstants :=
  {| num_packets := 1;
     num_asic_rows := 2;
     num_asic_cols := 2;
     num_pixel_rows_per_asic := 2;
     num_pixel_cols_per_asic := 2;
     image_data_header := 8;
     max_frame_size := 88 + primary_packet_size * 320 + 3464 |}.

(** The receive state of a FEM of which [received] packets came: with one
    packet to a FEM, the packet carries both markers. *)
Definition rx_state (received : Z) : FemReceiveState :=
  {| packets_received := received;
     sof_marker_count := received;
     eof_marker_count := received |}.

(** A frame of [fems] active FEMs with logical indices 0, 1, ...; [states]
    gives the receive state of each.  The frame is complete (state 2) when
    the packet of every FEM came, and was given up (state 3) otherwise. *)
Definition sample_header (fems received : Z) (states : Z -> FemReceiveState) : FrameHeader :=
  {| frame_number := 7;
     frame_state := if received =? fems then 2 else 3;
     frame_start_time := (0, 0);
     total_packets_received := received;
     total_sof_marker_count := received;
     total_eof_marker_count := received;
     num_active_fems := fems;
     active_fem_idx := fun idx => idx;
     fem_rx_state := states |}.

(** The sample at byte offset [b] of the image data is [1000 + b], as 16
    bits hold it.  The small detector has one packet to a FEM, so the loop
    reads the packet-state byte 0 only; it is one of the two bytes between
    the marker counts of [fem_rx_state[0]] and its end, and [slot] is what it
    holds. *)
Definition sample_frame (fems received : Z) (states : Z -> FemReceiveState) (slot : Z)
    : Frame :=
  {| hdr := sample_header fems received states;
     data_size := fems * (88 + primary_packet_size * 320 + 3464);
     load16 := fun b => (1000 + b) mod 2 ^ 16;
     packet_state := fun k => if k =? 0 then slot else 0 |}.

(** One FEM, its only packet received and stored in slot 0. *)
Definition full_frame : Frame :=
  sample_frame 1 1 (fun pos => if pos =? 0 then rx_state 1 else rx_state 0) 0.

(** One FEM, its only packet missing: the byte for the packet holds 255,
    which is what eight bits keep of the sentinel 65535. *)
Definition empty_frame : Frame :=
  sample_frame 1 0 (fun _ => rx_state 0) 255.

(** Two FEMs: the packet of the first arrived and is in slot 0, the packet of
    the second is missing. *)
Definition two_fem_frame : Frame :=
  sample_frame 2 1 (fun pos => if pos =? 0 then rx_state 1 else rx_state 0) 0.

Definition good_heap : Heap := {| malloc_fails := false; garbage := fun _ => 43690 |}.
Definition full_heap : Heap := {| malloc_fails := true; garbage := fun _ => 0 |}.

(** A plugin configured through [configure]. *)
Definition configured (width height images : Z) : LpdProcessPlugin :=
  fst (configure
         (<["width"%string := width]>
            (<["height"%string := height]>
               (<["num_images"%string := images]> (∅ : gmap string Z))))
         ∅ new_LpdProcessPlugin).

(** The packets of frame 3 from FEM 0 with sequence numbers [0 .. n-1], in
    order; the first carries the start-of-frame marker and packet 320 the
    end-of-frame marker. *)
Definition packets_in_order (n : Z) : list FrameAssembler.Event :=
  map (fun k => FrameAssembler.Packet 0 (0, 0)
                  (TrailerCodec.encode
                     {| TrailerCodec.tf_frame_number := 3;
                        TrailerCodec.tf_packet_number := k;
                        TrailerCodec.tf_start_of_frame := (k =? 0);
                        TrailerCodec.tf_end_of_frame := (k =? 320) |}))
      (upto n).

End Sample.

(** ** Vocabulary of the further properties *)

Module Lifetime.
Import Lpd FrameProcessor.

(** What the host does with the plugin: it configures it or hands it a
    frame. *)
Inductive Operation :=
| Configure (config reply : gmap string Z)
| ProcessFrame (heap : Heap) (frame : Frame).

Definition operate (K : PluginConstants) (r : Run) (op : Operation) : Run :=
  match op with
  | Configure config reply => set_plugin (fst (configure config reply (plugin r))) r
  | ProcessFrame heap frame => process_frame K heap frame r
  end.

(** The plugin after a sequence of operations on a freshly constructed one. *)
Definition lifetime (K : PluginConstants) (ops : list Operation) : Run :=
  fold_left (operate K) ops (start new_LpdProcessPlugin).

(** The packets lost over a sequence of frames. *)
Definition total_lost (K : PluginConstants) (frames : list (Heap * Frame)) : Z :=
  fold_right (fun hf acc => lost_in K (snd hf) + acc) 0 frames.

End Lifetime.

Module Growth.
Import Lpd FrameProcessor.

(** [r'] comes after [r]: the settings are the same, the image counter has
    not gone down, and what was pushed, logged and stored in [r] is the
    beginning of what is pushed, logged and stored in [r'].  (The lost-packet
    counter is an [int] that starts again from the other end of its range
    when it is full; what it holds after a sequence of frames is stated with
    the status message.) *)
Definition extends (r r' : Run) : Prop :=
  image_width_ (plugin r') = image_width_ (plugin r) /\
  image_height_ (plugin r') = image_height_ (plugin r) /\
  image_pixels_ (plugin r') = image_pixels_ (plugin r) /\
  num_images_ (plugin r') = num_images_ (plugin r) /\
  image_counter_ (plugin r) <= image_counter_ (plugin r') /\
  (exists out, pushed r' = pushed r ++ out) /\
  (exists entries, log r' = log r ++ entries) /\
  (exists more, stores r' = stores r ++ more).

End Growth.

Module Reorder.
Import Lpd FrameProcessor.

Section Specification.

Variable K : PluginConstants.

(** The coordinates the four pixel loops visit for one image, in the order
    of the loops: the image row, the pixel column and the ASIC column of each
    iteration of the innermost loop. *)
Definition scan : list (Z * Z * Z) :=
  flat_map (fun pixel_row =>
    flat_map (fun pixel_col =>
      flat_map (fun asic_row =>
        map (fun asic_col =>
               (wrap32 (asic_row * num_pixel_rows_per_asic K + pixel_row),
                pixel_col, asic_col))
            (upto (num_asic_cols K)))
        (downto (num_asic_rows K)))
      (upto (num_pixel_cols_per_asic K)))
    (downto (num_pixel_rows_per_asic K)).

(** The output offset the innermost loop computes at a coordinate. *)
Definition output_offset_at (c : Z * Z * Z) : Z :=
  let '(image_row, pixel_col, asic_col) := c in
  let image_col := wrap32 (asic_col * num_pixel_cols_per_asic K + pixel_col) in
  wrap32 (image_row * wrap32 (num_asic_cols K * num_pixel_cols_per_asic K) + image_col).

(** The output offsets of one image in the order they are written. *)
Definition scan_offsets : list Z := map output_offset_at scan.

(** The sample the reordering produces for pixel [g] of the input stream of
    the FEM at loop position [idx] ([g] counts the pixels of all images of
    the FEM): the packet is [g / (primary_packet_size / 2)], the pixel within
    it the remainder, and the slot of the packet the byte read for it. *)
Definition expected_pixel (frame : Frame) (idx g : Z) : Z :=
  let per_packet := primary_packet_size / 2 in
  let slot := wrap8 (packet_state frame (g / per_packet)) in
  load16 frame (max_frame_size K * idx + 2 * resolved_offset K slot (g mod per_packet)).

(** The stores expected for consecutive pixels [g], [g + 1], ... written to
    the given offsets. *)
Fixpoint expected_stores (frame : Frame) (idx image g : Z) (offsets : list Z) : list Store :=
  match offsets with
  | [] => []
  | offset :: rest =>
      let per_packet := primary_packet_size / 2 in
      {| st_fem := idx; st_image := image;
         st_pkt_num := g / per_packet;
         st_pkt_slot := wrap8 (packet_state frame (g / per_packet));
         st_pixel_offset := g mod per_packet;
         st_offset := offset;
         st_value := expected_pixel frame idx g |}
      :: expected_stores frame idx image (g + 1) rest
  end.

(** The buffer after a list of stores. *)
Definition replay (buf : list Z) (l : list Store) : list Z :=
  fold_left (fun b s => <[Z.to_nat (st_offset s) := st_value s]> b) l buf.

(** The cursor stands before pixel [g] of the FEM. *)
Definition cursor_at (frame : Frame) (c : Cursor) (g : Z) : Prop :=
  cursor_ok frame c /\
  0 <= pkt_num c /\
  0 <= pixel_offset c <= primary_packet_size / 2 /\
  pkt_num c * (primary_packet_size / 2) + pixel_offset c = g.

End Specification.

End Reorder.

Module Planes.
Import Lpd FrameProcessor Reorder.

(** The reordered-image buffer of a FEM after its first [k] images: each
    image is written over the previous one. *)
Fixpoint buffer_after (K : PluginConstants) (frame : Frame) (idx : Z) (buf : list Z) (k : nat)
    : list Z :=
  match k with
  | O => buf
  | S k' =>
      replay (buffer_after K frame idx buf k')
        (expected_stores K frame idx (Z.of_nat k')
           (Z.of_nat k' * geometry_pixels K) (scan_offsets K))
  end.

End Planes.

Module Layout.
Import Lpd FrameProcessor.

(** The position in the input stream of an image of the pixel the loops
    visit at the given loop variables: the loops over [pixel_row] and
    [asic_row] count down, those over [pixel_col] and [asic_col] count up,
    and [asic_col] is innermost. *)
Definition stream_index (K : PluginConstants) (pixel_row pixel_col asic_row asic_col : Z) : Z :=
  (((num_pixel_rows_per_asic K - 1 - pixel_row) * num_pixel_cols_per_asic K + pixel_col)
     * num_asic_rows K + (num_asic_rows K - 1 - asic_row))
    * num_asic_cols K + asic_col.

(** The row and the column of the image the same pixel is written to. *)
Definition image_row (K : PluginConstants) (pixel_row asic_row : Z) : Z :=
  asic_row * num_pixel_rows_per_asic K + pixel_row.

Definition image_col (K : PluginConstants) (pixel_col asic_col : Z) : Z :=
  asic_col * num_pixel_cols_per_asic K + pixel_col.

End Layout.

Module Copying.
Import Lpd FrameProcessor.

(** [r'] comes after [r] without a log entry of the zero-filling branch. *)
Definition quietly (r r' : Run) : Prop :=
  exists rest, log r' = log r ++ rest /\ List.filter is_pkt_missing_entry rest = [].

End Copying.

Module Freed.
Import Lpd FrameProcessor.

(** The buffer has been freed, and the only fault so far, if any, is a store
    through the null pointer. *)
Definition null_only (r : Run) : Prop :=
  reordered_image r = None /\
  (fault r = None \/ exists offset, fault r = Some (NullWrite offset)).

End Freed.

Module Stamps.
Import Lpd FrameProcessor.

(** The name and the frame number of the frames pushed for [n] images, the
    first stamped [c]. *)
Definition stamps (c n : Z) : list (string * Z) :=
  flat_map (fun i => [("data"%string, c + i); ("img_num"%string, c + i);
                      ("frame_num"%string, c + i)]) (upto n).

Definition stamp_of (o : OutFrame) : string * Z := (out_name o, out_frame_number o).

(** Every frame of the sequence has one active FEM and finds memory for a
    buffer of [pixels] samples. *)
Definition single_fem_frames (pixels : Z) (frames : list (Heap * Frame)) : Prop :=
  Forall (fun hf => malloc (fst hf) (pixels * 2) <> None /\
                    num_active_fems (hdr (snd hf)) = 1) frames.

End Stamps.

Module MoreSamples.
Import Lpd FrameProcessor Sample.

(** A plugin for the small detector: the configured image is the 4 x 4
    image of the geometry. *)
Definition small_plugin (images : Z) : LpdProcessPlugin :=
  {| image_width_ := 4; image_height_ := 4; image_pixels_ := 16;
     num_images_ := images; packets_lost_ := 0; image_counter_ := 0 |}.

(** A plugin whose configured image is twice as wide as the geometry. *)
Definition wide_plugin : LpdProcessPlugin :=
  {| image_width_ := 8; image_height_ := 4; image_pixels_ := 32;
     num_images_ := 1; packets_lost_ := 0; image_counter_ := 0 |}.

(** A plugin whose configured image is a quarter of the geometry. *)
Definition narrow_plugin : LpdProcessPlugin :=
  {| image_width_ := 2; image_height_ := 2; image_pixels_ := 4;
     num_images_ := 1; packets_lost_ := 0; image_counter_ := 0 |}.

(** A frame without active FEMs. *)
Definition no_fem_frame : Frame :=
  sample_frame 0 0 (fun _ => rx_state 0) 0.

(** What [malloc] returns from [good_heap] for 16 and for 32 samples. *)
Definition small_buffer : list Z := map (garbage good_heap) (upto 16).
Definition wide_buffer : list Z := map (garbage good_heap) (upto 32).

(** A packet trailer word with both markers set and packet number 5. *)
Definition marked_word : Z := 3221225477.

End MoreSamples.

(** ** fem_api_wrapper.c

    The Python extension module over the FEM API library, as it is built
    for Python 3 ([PyInt_*] are the [PyLong_*] functions) where [short],
    [int] and [long] have 16, 32 and 64 bits.  One FEM object is followed at
    a time: the [Fem] structure [_initialise] allocates, the capsule that
    points to it, and the calls the wrapper makes into the library.  The
    library ([femApi.h]) is a parameter: it answers a call from the calls
    made so far. *)

Module FemApi.

(** The null pointer. *)
Definition NULL : Z := 0.

(** Conversions between the C integer types. *)
Definition signed (bits : Z) (z : Z) : Z :=
  (z + 2 ^ (bits - 1)) mod 2 ^ bits - 2 ^ (bits - 1).

Definition short_of_long (z : Z) : Z := signed 16 z.
Definition int_of_long (z : Z) : Z := signed 32 z.
Definition unsigned_of_int (z : Z) : Z := z mod 2 ^ 32.

Definition fits (bits : Z) (z : Z) : bool :=
  (- 2 ^ (bits - 1) <=? z) && (z <? 2 ^ (bits - 1)).

(** [CtlConfig] as [_initialise] fills it, and the structure behind the
    capsule: "This wraps the real handle, which can then be set to NULL if
    the user explicitly calls close(), and tested in methods accordingly". *)
Record CtlConfig := {
  femNumber : Z;
  femAddress : string;
  femPort : Z;
  dataAddress : string
}.

Record Fem := {
  handle : Z;
  config : CtlConfig
}.

(** The arguments of a [printf]-style format. *)
Inductive FormatArg :=
| ArgStr (s : string)
| ArgInt (z : Z).

(** What is written to Python's [logging] by [log_msg]. *)
Inductive LogEntry :=
| LogDebug (format : string) (args : list FormatArg).

(** A [double], as its 64 bits. *)
Definition double : Type := Z.

(** The Python objects the wrapper receives and builds.  [PyFemCapsule] is
    the capsule named "FemPtr" of the FEM object followed; [PyNull] is an item
    of a list made by [PyList_New] that was never set. *)
#[warnings="-register-all"] Inductive PyObject :=
| PyInt (z : Z)
| PyFloat (d : double)
| PyStr (s : string)
| PyList (items : list PyObject)
| PyTuple (items : list PyObject)
| PyNone
| PyFemCapsule
| PyNull.

(** What a wrapper function hands back: an object, [NULL] with
    [fem_api.error] set to a formatted message, or [NULL] with the exception
    [PyArg_ParseTuple] raised. *)
Inductive PyResult :=
| Returns (v : PyObject)
| Raises (format : string) (args : list FormatArg)
| Fails.

(** The calls into the library. *)
Inductive LibCall :=
| FemInitialise (c : CtlConfig)
| FemGetId (h : Z)
| FemGetInt (h chip_id param_id size : Z)
| FemSetInt (h chip_id param_id size : Z) (values : list Z)
| FemGetShort (h chip_id param_id size : Z)
| FemSetShort (h chip_id param_id size : Z) (values : list Z)
| FemGetFloat (h chip_id param_id size : Z)
| FemSetFloat (h chip_id param_id size : Z) (values : list double)
| FemCmd (h chip_id cmd_id : Z)
| FemClose (h : Z)
| FemErrorMsg (h : Z).

(** What the wrapper is compiled and linked with.  From [femApi.h]:
    [FEM_RTN_OK] and the size of [Fem].  From the C implementation: the
    conversion of an integer to a [double] and the conversion [(short)] of a
    [double].  From the library: what a call returns ([rc_of]: the return
    code, or the id for [femGetId]), the handle [femInitialise] stores if it
    stores one, the values a getter writes to the start of the buffer it is
    given, and the text of [femErrorMsg]; each may depend on the calls made
    before. *)
Record Platform := {
  FEM_RTN_OK : Z;
  sizeof_Fem : Z;
  double_of_long : Z -> double;
  short_of_double : double -> Z;
  rc_of : list LibCall -> LibCall -> Z;
  handle_of : list LibCall -> LibCall -> option Z;
  ints_of : list LibCall -> LibCall -> list Z;
  doubles_of : list LibCall -> LibCall -> list double;
  text_of : list LibCall -> LibCall -> string
}.

(** The allocator at the time of a call: whether a [malloc] of so many
    bytes succeeds, and what fresh memory holds.  A negative [int] count
    becomes a [size_t] no allocator serves. *)
Record Allocator := {
  malloc_succeeds : Z -> bool;
  junk : Z -> Z;
  junk_double : Z -> double
}.

Definition malloc_ok (alloc : Allocator) (count size_of : Z) : bool :=
  (0 <=? count) && malloc_succeeds alloc (count * size_of).

(** The FEM object, the library calls so far (oldest first) and the log. *)
Record Session := {
  self : Fem;
  trace : list LibCall;
  debug_log : list LogEntry
}.

Definition call (c : LibCall) (s : Session) : Session :=
  {| self := self s; trace := trace s ++ [c]; debug_log := debug_log s |}.

Definition set_handle (h : Z) (s : Session) : Session :=
  {| self := {| handle := h; config := config (self s) |};
     trace := trace s; debug_log := debug_log s |}.

Section Wrapper.

Variable lib : Platform.

(** [PyCapsule_GetPointer(obj, "FemPtr")] is not [NULL]. *)
Definition PyCapsule_GetPointer (obj : PyObject) : bool :=
  match obj with
  | PyFemCapsule => true
  | _ => false
  end.

Definition PyInt_Check (obj : PyObject) : bool :=
  match obj with
  | PyInt _ => true
  | _ => false
  end.

Definition PyFloat_Check (obj : PyObject) : bool :=
  match obj with
  | PyFloat _ => true
  | _ => false
  end.

(** [PyLong_AsLong]: the value of an integer that fits a [long]; "Raise
    OverflowError if the value of obj is out of range for a long.  Returns -1
    on error", as for an object that is no integer and has no [__index__].
    The function is the value the wrapper goes on with: the wrapper never
    looks at the error indicator, which the interpreter finds set when the
    method returns.  The indicator is not part of the model, so of a call in
    which a conversion fails only the calls into the library are described,
    not what the interpreter makes of the result. *)
Definition PyInt_AsLong (obj : PyObject) : Z :=
  match obj with
  | PyInt z => if fits 64 z then z else -1
  | _ => -1
  end.

(** [PyFloat_AsDouble]: the value of a float, the conversion of an integer,
    and -1.0 "upon failure". *)
Definition PyFloat_AsDouble (obj : PyObject) : double :=
  match obj with
  | PyFloat d => d
  | PyInt z => double_of_long lib z
  | _ => double_of_long lib (-1)
  end.

(** The format unit "i" of [PyArg_ParseTuple]: an integer that fits an
    [int]. *)
Definition as_int (obj : PyObject) : option Z :=
  match obj with
  | PyInt z => if fits 32 z then Some z else None
  | _ => None
  end.

Definition as_str (obj : PyObject) : option string :=
  match obj with
  | PyStr s => Some s
  | _ => None
  end.

(** [PyArg_ParseTuple] with the formats "O", "Oii", "Oiii", "OiiO" and
    "isis". *)
Definition parse_O (args : list PyObject) : option PyObject :=
  match args with
  | [o] => Some o
  | _ => None
  end.

Definition parse_Oii (args : list PyObject) : option (PyObject * Z * Z) :=
  match args with
  | [o; a; b] =>
      match as_int a, as_int b with
      | Some a, Some b => Some (o, a, b)
      | _, _ => None
      end
  | _ => None
  end.

Definition parse_Oiii (args : list PyObject) : option (PyObject * Z * Z * Z) :=
  match args with
  | [o; a; b; c] =>
      match as_int a, as_int b, as_int c with
      | Some a, Some b, Some c => Some (o, a, b, c)
      | _, _, _ => None
      end
  | _ => None
  end.

Definition parse_OiiO (args : list PyObject) : option (PyObject * Z * Z * PyObject) :=
  match args with
  | [o; a; b; v] =>
      match as_int a, as_int b with
      | Some a, Some b => Some (o, a, b, v)
      | _, _ => None
      end
  | _ => None
  end.

Definition parse_isis (args : list PyObject) : option (Z * string * Z * string) :=
  match args with
  | [a; b; c; d] =>
      match as_int a, as_str b, as_int c, as_str d with
      | Some a, Some b, Some c, Some d => Some (a, b, c, d)
      | _, _, _, _ => None
      end
  | _ => None
  end.

(** The macro [_validate_ptr_and_handle(ptr, func_name)]: the function
    returns [NULL] with the error set unless the pointer and the handle are
    not null; [k] is the rest of the function, given the handle. *)
Definition _validate_ptr_and_handle (func_name : string) (_handle : PyObject) (s : Session)
    (k : Z -> PyResult * Session) : PyResult * Session :=
  if negb (PyCapsule_GetPointer _handle) then
    (Raises "%s: resolved FEM object pointer to null" [ArgStr func_name], s)
  else if handle (self s) =? NULL then
    (Raises "%s: FEM object pointer has null FEM handle" [ArgStr func_name], s)
  else k (handle (self s)).

(** Item [ival] of the buffer a getter allocated, after the library wrote
    to it. *)
Definition buffer_item {A} (written : list A) (fresh : Z -> A) (ival : Z) : A :=
  nth (Z.to_nat ival) written (fresh ival).

(** [_initialise]: the result, and the session when a [Fem] was allocated
    (on a failure of [femInitialise] it is not freed). *)
Definition _initialise (args : list PyObject) (alloc : Allocator) (history : list LibCall)
    (logged : list LogEntry) : PyResult * option Session :=
  match parse_isis args with
  | None => (Raises "Incorrect arguments passed to initialise FEM API" [], None)
  | Some (fem_id, fem_address, fem_port, data_address) =>
      if negb (malloc_ok alloc 1 (sizeof_Fem lib)) then
        (Raises "Unable to malloc() space for FEM object" [], None)
      else
        let cfg := {| femNumber := fem_id; femAddress := fem_address;
                      femPort := fem_port; dataAddress := data_address |} in
        let c := FemInitialise cfg in
        let rc := rc_of lib history c in
        let h := match handle_of lib history c with
                 | Some h => h
                 | None => junk alloc 0
                 end in
        let s := {| self := {| handle := h; config := cfg |};
                    trace := history ++ [c]; debug_log := logged |} in
        if negb (rc =? FEM_RTN_OK lib) then
          let m := FemErrorMsg h in
          (Raises (text_of lib (trace s) m) [], Some (call m s))
        else
          (Returns PyFemCapsule,
           Some {| self := self s; trace := trace s;
                   debug_log :=
                     debug_log s ++
                     [LogDebug "Initialised fem_api module with handle %lu for FEM ID %d"
                        [ArgInt h; ArgInt fem_id]] |})
  end.

Definition _get_id (args : list PyObject) (s : Session) : PyResult * Session :=
  match parse_O args with
  | None => (Fails, s)
  | Some _handle =>
      _validate_ptr_and_handle "get_id" _handle s (fun h =>
        let c := FemGetId h in
        (Returns (PyInt (rc_of lib (trace s) c)), call c s))
  end.

Definition _get_int (args : list PyObject) (alloc : Allocator) (s : Session)
    : PyResult * Session :=
  match parse_Oiii args with
  | None => (Fails, s)
  | Some (_handle, chip_id, param_id, size) =>
      _validate_ptr_and_handle "get_int" _handle s (fun h =>
        if negb (malloc_ok alloc size 4) then
          (Raises "get_int: unable to allocate space for %d integer values" [ArgInt size], s)
        else
          let c := FemGetInt h chip_id param_id size in
          let rc := rc_of lib (trace s) c in
          let value_ptr := buffer_item (ints_of lib (trace s) c) (junk alloc) in
          let values :=
            if rc =? FEM_RTN_OK lib
            then map (fun ival => PyInt (unsigned_of_int (value_ptr ival))) (upto size)
            else map (fun _ => PyNull) (upto size) in
          (Returns (PyTuple [PyInt rc; PyList values]), call c s))
  end.

(** The loop of the setters over the items of a list: the values to send,
    or nothing when an item fails the check. *)
Fixpoint convert_items {A} (check : PyObject -> bool) (convert : PyObject -> A)
    (items : list PyObject) : option (list A) :=
  match items with
  | [] => Some []
  | item :: rest =>
      if check item then
        match convert_items check convert rest with
        | Some values => Some (convert item :: values)
        | None => None
        end
      else None
  end.

(** How the three setters size their values: "if (PyInt_Check(values_obj))
    size = 1; else if (PyList_Check(values_obj)) size = PyList_Size(values_obj)"
    (the size is an [int]); with the size, whether the value is the single
    integer ([single_value], which only [_set_int] keeps), and the items of
    the list. *)
Definition sized_values (values_obj : PyObject) : option (Z * bool * list PyObject) :=
  match values_obj with
  | PyInt _ => Some (1, true, [])
  | PyList items => Some (int_of_long (Z.of_nat (length items)), false, items)
  | _ => None
  end.

Definition _set_int (args : list PyObject) (alloc : Allocator) (s : Session)
    : PyResult * Session :=
  match parse_OiiO args with
  | None => (Fails, s)
  | Some (_handle, chip_id, param_id, values_obj) =>
      _validate_ptr_and_handle "set_int" _handle s (fun h =>
        match sized_values values_obj with
        | None => (Raises "set_int: specified value(s) not int or list" [], s)
        | Some (size, single_value, items) =>
            if negb (malloc_ok alloc size 4) then
              (Raises "set_int: unable to allocate space for %d integer values"
                 [ArgInt size], s)
            else
              let converted :=
                if single_value then Some [int_of_long (PyInt_AsLong values_obj)]
                else convert_items PyInt_Check (fun item => int_of_long (PyInt_AsLong item))
                       (firstn (Z.to_nat size) items) in
              match converted with
              | None => (Raises "set_int: non-integer value specified" [], s)
              | Some value_ptr =>
                  let c := FemSetInt h chip_id param_id size value_ptr in
                  (Returns (PyInt (rc_of lib (trace s) c)), call c s)
              end
        end)
  end.

Definition _get_short (args : list PyObject) (alloc : Allocator) (s : Session)
    : PyResult * Session :=
  match parse_Oiii args with
  | None => (Fails, s)
  | Some (_handle, chip_id, param_id, size) =>
      _validate_ptr_and_handle "get_short" _handle s (fun h =>
        if negb (malloc_ok alloc size 2) then
          (Raises "get_short: unable to allocate space for %d short values" [ArgInt size], s)
        else
          let c := FemGetShort h chip_id param_id size in
          let rc := rc_of lib (trace s) c in
          let value_ptr := buffer_item (ints_of lib (trace s) c) (junk alloc) in
          let values :=
            if rc =? FEM_RTN_OK lib
            then map (fun ival => PyInt (short_of_long (value_ptr ival))) (upto size)
            else map (fun _ => PyNull) (upto size) in
          (Returns (PyTuple [PyInt rc; PyList values]), call c s))
  end.

Definition _set_short (args : list PyObject) (alloc : Allocator) (s : Session)
    : PyResult * Session :=
  match parse_OiiO args with
  | None => (Fails, s)
  | Some (_handle, chip_id, param_id, values_obj) =>
      _validate_ptr_and_handle "set_short" _handle s (fun h =>
        match sized_values values_obj with
        | None => (Raises "set_short: specified value(s) not int or list" [], s)
        | Some (size, _, items) =>
            if negb (malloc_ok alloc size 2) then
              (Raises "set_short: unable to allocate space for %d short values"
                 [ArgInt size], s)
            else
              let converted :=
                if size =? 1 then Some [short_of_long (PyInt_AsLong values_obj)]
                else convert_items PyInt_Check (fun item => short_of_long (PyInt_AsLong item))
                       (firstn (Z.to_nat size) items) in
              match converted with
              | None => (Raises "set_short: non-integer value specified" [], s)
              | Some value_ptr =>
                  let c := FemSetShort h chip_id param_id size value_ptr in
                  (Returns (PyInt (rc_of lib (trace s) c)), call c s)
              end
        end)
  end.

(** [_get_float] validates under the name "get_int". *)
Definition _get_float (args : list PyObject) (alloc : Allocator) (s : Session)
    : PyResult * Session :=
  match parse_Oiii args with
  | None => (Fails, s)
  | Some (_handle, chip_id, param_id, size) =>
      _validate_ptr_and_handle "get_int" _handle s (fun h =>
        if negb (malloc_ok alloc size 8) then
          (Raises "get_float: unable to allocate space for %d float values" [ArgInt size], s)
        else
          let c := FemGetFloat h chip_id param_id size in
          let rc := rc_of lib (trace s) c in
          let value_ptr := buffer_item (doubles_of lib (trace s) c) (junk_double alloc) in
          let values :=
            if rc =? FEM_RTN_OK lib
            then map (fun ival => PyFloat (value_ptr ival)) (upto size)
            else map (fun _ => PyNull) (upto size) in
          (Returns (PyTuple [PyInt rc; PyList values]), call c s))
  end.

(** [_set_float]: a single value is recognised with [PyInt_Check]; the
    items of a list go through [(short)]. *)
Definition _set_float (args : list PyObject) (alloc : Allocator) (s : Session)
    : PyResult * Session :=
  match parse_OiiO args with
  | None => (Fails, s)
  | Some (_handle, chip_id, param_id, values_obj) =>
      _validate_ptr_and_handle "set_float" _handle s (fun h =>
        match sized_values values_obj with
        | None => (Raises "set_float: specified value(s) not float or list" [], s)
        | Some (size, _, items) =>
            if negb (malloc_ok alloc size 8) then
              (Raises "set_float: unable to allocate space for %d float values"
                 [ArgInt size], s)
            else
              let converted :=
                if size =? 1 then Some [PyFloat_AsDouble values_obj]
                else convert_items PyFloat_Check
                       (fun item =>
                          double_of_long lib (short_of_double lib (PyFloat_AsDouble item)))
                       (firstn (Z.to_nat size) items) in
              match converted with
              | None => (Raises "set_float: non-float value specified" [], s)
              | Some value_ptr =>
                  let c := FemSetFloat h chip_id param_id size value_ptr in
                  (Returns (PyInt (rc_of lib (trace s) c)), call c s)
              end
        end)
  end.

Definition _cmd (args : list PyObject) (s : Session) : PyResult * Session :=
  match parse_Oii args with
  | None => (Fails, s)
  | Some (_handle, chipId, cmdId) =>
      _validate_ptr_and_handle "cmd" _handle s (fun h =>
        let c := FemCmd h chipId cmdId in
        (Returns (PyInt (rc_of lib (trace s) c)), call c s))
  end.

Definition _close (args : list PyObject) (s : Session) : PyResult * Session :=
  match parse_O args with
  | None => (Fails, s)
  | Some _handle =>
      _validate_ptr_and_handle "close" _handle s (fun h =>
        (Returns PyNone, set_handle NULL (call (FemClose h) s)))
  end.

(** [_get_error_msg] validates under the name "get_error_str". *)
Definition _get_error_msg (args : list PyObject) (s : Session) : PyResult * Session :=
  match parse_O args with
  | None => (Fails, s)
  | Some _handle =>
      _validate_ptr_and_handle "get_error_str" _handle s (fun h =>
        let c := FemErrorMsg h in
        (Returns (PyStr (text_of lib (trace s) c)), call c s))
  end.

(** [_del], the destructor of the capsule. *)
Definition _del (obj : PyObject) (s : Session) : Session :=
  if negb (PyCapsule_GetPointer obj) then s
  else if negb (handle (self s) =? NULL) then call (FemClose (handle (self s))) s
  else s.

(** The method table [fem_api_methods], without [initialise]. *)
Inductive Method :=
| get_id | get_int | set_int | get_short | set_short | get_float | set_float
| get_error_msg | cmd | close.

Definition invoke (m : Method) (args : list PyObject) (alloc : Allocator) (s : Session)
    : PyResult * Session :=
  match m with
  | get_id => _get_id args s
  | get_int => _get_int args alloc s
  | set_int => _set_int args alloc s
  | get_short => _get_short args alloc s
  | set_short => _set_short args alloc s
  | get_float => _get_float args alloc s
  | set_float => _set_float args alloc s
  | get_error_msg => _get_error_msg args s
  | cmd => _cmd args s
  | close => _close args s
  end.

(** What a Python program does with the FEM object: a sequence of method
    calls, then the capsule is collected. *)
Definition script : Type := list (Method * list PyObject * Allocator).

Definition run_script (calls : script) (s : Session) : Session :=
  fold_left (fun s c => snd (invoke (fst (fst c)) (snd (fst c)) (snd c) s)) calls s.

Definition object_life (calls : script) (s : Session) : Session :=
  _del PyFemCapsule (run_script calls s).

End Wrapper.

Definition is_close (c : LibCall) : bool :=
  match c with
  | FemClose _ => true
  | _ => false
  end.

(** The handle a call into the library is made on. *)
Definition call_handle (c : LibCall) : option Z :=
  match c with
  | FemInitialise _ => None
  | FemGetId h => Some h
  | FemGetInt h _ _ _ => Some h
  | FemSetInt h _ _ _ _ => Some h
  | FemGetShort h _ _ _ => Some h
  | FemSetShort h _ _ _ _ => Some h
  | FemGetFloat h _ _ _ => Some h
  | FemSetFloat h _ _ _ _ => Some h
  | FemCmd h _ _ => Some h
  | FemClose h => Some h
  | FemErrorMsg h => Some h
  end.

(** A call on the handle [h] that is not [femClose]. *)
Definition uses (h : Z) (c : LibCall) : Prop :=
  is_close c = false /\ call_handle c = Some h.

(** The steps a method call can take: none, one call into the library on
    the handle that is not [femClose], or [femClose] on the handle with the
    handle set to [NULL]; the last two only with a handle that is not
    [NULL]. *)
Definition advances (s s' : Session) : Prop :=
  s' = s \/
  (handle (self s) <> NULL /\
   exists c, uses (handle (self s)) c /\ s' = call c s) \/
  (handle (self s) <> NULL /\
   s' = set_handle NULL (call (FemClose (handle (self s))) s)).

End FemApi.

(** Sample inputs for the wrapper: a stand-in for the library that stores
    the handle 4096 and answers every call with [FEM_RTN_OK], an allocator
    that always has room, and a FEM object that was initialised with it. *)

Module FemSamples.
Import FemApi.

Definition stub : Platform :=
  {| FEM_RTN_OK := 0;
     sizeof_Fem := 40;
     double_of_long := fun z => z;
     short_of_double := fun d => d;
     rc_of := fun _ _ => 0;
     handle_of := fun _ _ => Some 4096;
     ints_of := fun _ _ => [-1; 7];
     doubles_of := fun _ _ => [];
     text_of := fun _ _ => "no error"%string |}.

Definition roomy : Allocator :=
  {| malloc_succeeds := fun _ => true;
     junk := fun _ => 43690;
     junk_double := fun _ => 0 |}.

Definition sample_config : CtlConfig :=
  {| femNumber := 1; femAddress := "192.168.2.2"; femPort := 6969;
     dataAddress := "10.0.2.1" |}.

Definition open_session : Session :=
  {| self := {| handle := 4096; config := sample_config |};
     trace := [FemInitialise sample_config];
     debug_log := [LogDebug "Initialised fem_api module with handle %lu for FEM ID %d"
               [ArgInt 4096; ArgInt 1]] |}.

Definition closed_session : Session := set_handle NULL open_session.

(** A program that reads the id, closes the FEM and then issues a
    command. *)
Definition sample_script : script :=
  [ (get_id, [PyFemCapsule], roomy);
    (close, [PyFemCapsule], roomy);
    (cmd, [PyFemCapsule; PyInt 0; PyInt 3], roomy) ].

End FemSamples.

(** * Properties *)

(** ** Integers and loops *)

Lemma wrap32_range z : 0 <= wrap32 z < 2 ^ 32.
Proof. unfold wrap32. apply Z.mod_pos_bound. lia. Qed.

Lemma wrap32_small z : 0 <= z < 2 ^ 32 -> wrap32 z = z.
Proof. intros H. unfold wrap32. now apply Z.mod_small. Qed.

Lemma wrap32_le z : 0 <= z -> wrap32 z <= z.
Proof. intros H. unfold wrap32. apply Z.mod_le; lia. Qed.

Lemma wrap8_range z : 0 <= wrap8 z < 256.
Proof. unfold wrap8. apply Z.mod_pos_bound. lia. Qed.

Lemma int32_range z : int_range (int32 z).
Proof.
  unfold int_range, int32.
  pose proof (Z.mod_pos_bound (z + 2 ^ 31) (2 ^ 32) ltac:(lia)). lia.
Qed.

Lemma int32_small z : int_range z -> int32 z = z.
Proof. unfold int_range, int32. intros H. rewrite Z.mod_small; lia. Qed.

(** A sum whose second summand went through an [int] of its own. *)
Lemma int32_add_int32 a b : int32 (a + int32 b) = int32 (a + b).
Proof.
  unfold int32. f_equal.
  replace (a + ((b + 2 ^ 31) mod 2 ^ 32 - 2 ^ 31) + 2 ^ 31)
    with (a + (b + 2 ^ 31) mod 2 ^ 32) by lia.
  rewrite Z.add_mod_idemp_r by lia. f_equal. lia.
Qed.

Lemma in_upto n i : In i (upto n) <-> 0 <= i < n.
Proof.
  unfold upto. rewrite in_map_iff. split.
  - intros (k & <- & Hk). apply in_seq in Hk. lia.
  - intros Hi. exists (Z.to_nat i). split; [lia|]. apply in_seq. lia.
Qed.

Lemma in_downto n i : In i (downto n) <-> 0 <= i < n.
Proof. unfold downto. rewrite <- in_rev. apply in_upto. Qed.

Lemma upto_length n : length (upto n) = Z.to_nat n.
Proof. unfold upto. now rewrite length_map, length_seq. Qed.

Lemma upto_succ n : 0 <= n -> upto (n + 1) = upto n ++ [n].
Proof.
  intros Hn. unfold upto.
  replace (Z.to_nat (n + 1)) with (S (Z.to_nat n)) by lia.
  rewrite seq_S, map_app. simpl. now rewrite Z2Nat.id.
Qed.

Lemma upto_nonpos n : n <= 0 -> upto n = [].
Proof. intros Hn. unfold upto. now replace (Z.to_nat n) with 0%nat by lia. Qed.

(** A loop invariant carried through [fold_left]. *)
Lemma fold_left_inv {A B} (P : A -> Prop) (f : A -> B -> A) (l : list B) :
  (forall a b, In b l -> P a -> P (f a b)) ->
  forall a, P a -> P (fold_left f l a).
Proof.
  induction l as [|b l IH]; intros Hf a Ha; simpl; [assumption|].
  apply IH.
  - intros a' b' Hin. apply Hf. now right.
  - apply Hf; [now left | assumption].
Qed.

Lemma fold_left_ext_eq {A B} (f g : A -> B -> A) (l : list B) (a : A) :
  (forall a b, f a b = g a b) -> fold_left f l a = fold_left g l a.
Proof.
  intros H. revert a. induction l as [|b l IH]; intros a; simpl; [reflexivity|].
  now rewrite H, IH.
Qed.

(** ** Trailer codec *)

Section TrailerCodecFacts.
Import Lpd TrailerCodec.

Lemma land_pow2_testbit a n :
  0 <= n -> Z.land a (2 ^ n) = if Z.testbit a n then 2 ^ n else 0.
Proof.
  intros Hn. apply Z.bits_inj'. intros m Hm.
  rewrite Z.land_spec, Z.pow2_bits_eqb by lia.
  destruct (Z.testbit a n) eqn:E.
  - rewrite Z.pow2_bits_eqb by lia.
    destruct (Z.eqb_spec n m) as [->|]; [now rewrite E | apply andb_false_r].
  - rewrite Z.bits_0.
    destruct (Z.eqb_spec n m) as [->|]; [now rewrite E | apply andb_false_r].
Qed.

Lemma flag_is_testbit a n :
  0 <= n -> negb (Z.land a (2 ^ n) =? 0) = Z.testbit a n.
Proof.
  intros Hn. rewrite land_pow2_testbit by assumption.
  destruct (Z.testbit a n); [|reflexivity].
  assert (0 < 2 ^ n) by (apply Z.pow_pos_nonneg; lia).
  destruct (Z.eqb_spec (2 ^ n) 0); [lia | reflexivity].
Qed.

Lemma testbit_above p k n :
  0 <= p < 2 ^ k -> 0 <= k <= n -> Z.testbit p n = false.
Proof.
  intros Hp Hk. destruct (Z.eq_dec p 0) as [->|Hne]; [apply Z.bits_0|].
  apply Z.bits_above_log2; [lia|].
  assert (Z.log2 p < k) by (apply Z.log2_lt_pow2; lia). lia.
Qed.

(** The markers and the packet number are the bit fields of the flags word. *)
Lemma start_of_frame_is_bit_31 t :
  get_start_of_frame_marker t = Z.testbit (packet_number_flags t) 31.
Proof.
  unfold get_start_of_frame_marker.
  change start_of_frame_mask with (2 ^ 31). apply flag_is_testbit. lia.
Qed.

Lemma end_of_frame_is_bit_30 t :
  get_end_of_frame_marker t = Z.testbit (packet_number_flags t) 30.
Proof.
  unfold get_end_of_frame_marker.
  change end_of_frame_mask with (2 ^ 30). apply flag_is_testbit. lia.
Qed.

Lemma packet_number_is_low_30_bits t :
  get_packet_number t = packet_number_flags t mod 2 ^ 30.
Proof.
  unfold get_packet_number. change packet_number_mask with (Z.ones 30).
  apply Z.land_ones. lia.
Qed.

Lemma packet_number_range t : 0 <= get_packet_number t < 2 ^ 30.
Proof. rewrite packet_number_is_low_30_bits. apply Z.mod_pos_bound. lia. Qed.

Lemma encode_flags_bit x n :
  0 <= tf_packet_number x < 2 ^ 30 -> 30 <= n ->
  Z.testbit (packet_number_flags (encode x)) n =
  (tf_start_of_frame x && (n =? 31)) || (tf_end_of_frame x && (n =? 30)).
Proof.
  intros Hp Hn. unfold encode; simpl.
  rewrite !Z.lor_spec, (testbit_above (tf_packet_number x) 30 n) by lia.
  rewrite orb_false_r. f_equal.
  - destruct (tf_start_of_frame x); simpl.
    + change start_of_frame_mask with (2 ^ 31).
      rewrite Z.pow2_bits_eqb by lia. apply Z.eqb_sym.
    + apply Z.bits_0.
  - destruct (tf_end_of_frame x); simpl.
    + change end_of_frame_mask with (2 ^ 30).
      rewrite Z.pow2_bits_eqb by lia. apply Z.eqb_sym.
    + apply Z.bits_0.
Qed.

Lemma encode_packet_number x :
  0 <= tf_packet_number x < 2 ^ 30 ->
  get_packet_number (encode x) = tf_packet_number x.
Proof.
  intros Hp. unfold get_packet_number, encode; simpl.
  rewrite !Z.land_lor_distr_l.
  replace (Z.land (if tf_start_of_frame x then start_of_frame_mask else 0)
                  packet_number_mask) with 0
    by (destruct (tf_start_of_frame x); reflexivity).
  replace (Z.land (if tf_end_of_frame x then end_of_frame_mask else 0)
                  packet_number_mask) with 0
    by (destruct (tf_end_of_frame x); reflexivity).
  simpl. change packet_number_mask with (Z.ones 30).
  rewrite Z.land_ones by lia. apply Z.mod_small. assumption.
Qed.

(** C4: for a trailer built from a 32-bit frame number, a 30-bit packet number
    and the two markers, decoding gives the frame number as the raw word, the
    packet number as [packet_number_flags & 0x3FFFFFFF], the start-of-frame
    marker as [packet_number_flags & (1 << 31) != 0], the end-of-frame marker
    as [packet_number_flags & (1 << 30) != 0], and decoding the encoded
    trailer gives back all four fields. *)
Theorem trailer_decode_encode x :
  valid_fields x ->
  let t := encode x in
  get_frame_number t = trailer_frame_number t /\
  get_packet_number t = Z.land (packet_number_flags t) 0x3FFFFFFF /\
  get_start_of_frame_marker t = negb (Z.land (packet_number_flags t) (Z.shiftl 1 31) =? 0) /\
  get_end_of_frame_marker t = negb (Z.land (packet_number_flags t) (Z.shiftl 1 30) =? 0) /\
  decode t = x.
Proof.
  intros [Hf Hp] t. repeat split.
  unfold decode, t.
  rewrite encode_packet_number, start_of_frame_is_bit_31, end_of_frame_is_bit_30 by assumption.
  rewrite !encode_flags_bit by (assumption || lia).
  destruct x as [f p s e]; simpl. f_equal.
  - now rewrite andb_true_r, andb_false_r, orb_false_r.
  - now rewrite andb_true_r, andb_false_r.
Qed.

Lemma trailer_decode_encode_witness :
  decode (encode {| tf_frame_number := 7; tf_packet_number := 320;
                    tf_start_of_frame := false; tf_end_of_frame := true |})
  = {| tf_frame_number := 7; tf_packet_number := 320;
       tf_start_of_frame := false; tf_end_of_frame := true |}.
Proof.
  apply (trailer_decode_encode
           {| tf_frame_number := 7; tf_packet_number := 320;
              tf_start_of_frame := false; tf_end_of_frame := true |}).
  unfold valid_fields; simpl; lia.
Defined.

End TrailerCodecFacts.

(** ** Frame assembly *)

Section FrameAssemblerFacts.
Import Lpd TrailerCodec FrameAssembler.

Variable bit_depth : AsicCounterBitDepth.

Lemma fem_complete_iff expected rx :
  fem_complete expected rx = true <->
  sof_marker_count rx = 1 /\ eof_marker_count rx = 1 /\ packets_received rx = expected.
Proof.
  unfold fem_complete. rewrite !andb_true_iff, !Z.eqb_eq. tauto.
Qed.

Lemma frame_complete_iff primary h :
  table_at num_primary_packets bit_depth = Some primary ->
  frame_complete bit_depth h = true <->
  forall pos, 0 <= pos < num_active_fems h ->
    sof_marker_count (fem_rx_state h pos) = 1 /\
    eof_marker_count (fem_rx_state h pos) = 1 /\
    packets_received (fem_rx_state h pos) = primary + num_tail_packets.
Proof.
  intros Hb. unfold frame_complete, num_fem_frame_packets. rewrite Hb.
  rewrite forallb_forall. split.
  - intros H pos Hpos. apply fem_complete_iff, H, in_upto, Hpos.
  - intros H pos Hpos%in_upto. apply fem_complete_iff, H, Hpos.
Qed.

Lemma accept_state fem t h :
  frame_state h = state_code Receiving ->
  let h' := accept bit_depth fem t h in
  (frame_state h' = state_code Complete /\ frame_complete bit_depth h' = true) \/
  (frame_state h' = state_code Receiving /\ frame_complete bit_depth h' = false).
Proof.
  intros Hs. unfold accept.
  destruct (fem_position h fem) as [pos|];
    match goal with
    | |- context [frame_complete bit_depth ?x] =>
        destruct (frame_complete bit_depth x) eqn:E
    end;
    first [ left; split; [reflexivity | exact E]
          | right; split; [exact Hs | exact E] ].
Qed.

Lemma step_invariant b e :
  buffer_invariant bit_depth b -> buffer_invariant bit_depth (step bit_depth b e).
Proof.
  unfold buffer_invariant.
  intros [[Hs Hn] | [[Hs Hc] | [[Hs Hc] | (Hs & Hc & Hl)]]];
    destruct e as [fem now t| |]; unfold step, drop; rewrite Hs; cbn [Z.eqb state_code];
    cbn [header lost].
  - right. destruct (accept_state fem t (claim now t) eq_refl) as [H|H];
      [right; left; exact H | left; exact H].
  - left. now split.
  - left. now split.
  - right. destruct (accept_state fem t (header b) Hs) as [H|H];
      [right; left; exact H | left; exact H].
  - right. right. right. split; [reflexivity|]. split; [exact Hc | reflexivity].
  - right. right. right. split; [reflexivity|]. split; [exact Hc | reflexivity].
  - right. right. left. now split.
  - right. right. left. now split.
  - right. right. left. now split.
  - right. right. right. now repeat split.
  - right. right. right. now repeat split.
  - right. right. right. now repeat split.
Qed.

Lemma run_invariant events : buffer_invariant bit_depth (run bit_depth events).
Proof.
  unfold run. apply fold_left_inv.
  - intros b e _. apply step_invariant.
  - left. now split.
Qed.

(** C7: a frame buffer is in state Complete exactly when it has left Empty
    and every active FEM has one start-of-frame marker, one end-of-frame
    marker and [num_primary_packets[bit_depth] + num_tail_packets] packets;
    a buffer is in one of the four states, and a buffer in state Dropped
    records [lost = expected - received]. *)
Theorem complete_iff_all_fems_complete primary events :
  table_at num_primary_packets bit_depth = Some primary ->
  let b := run bit_depth events in
  let h := header b in
  (frame_state h = state_code Complete <->
   frame_state h <> state_code Empty /\
   forall pos, 0 <= pos < num_active_fems h ->
     sof_marker_count (fem_rx_state h pos) = 1 /\
     eof_marker_count (fem_rx_state h pos) = 1 /\
     packets_received (fem_rx_state h pos) = primary + num_tail_packets) /\
  (frame_state h = state_code Empty \/ frame_state h = state_code Receiving \/
   frame_state h = state_code Complete \/ frame_state h = state_code Dropped) /\
  (frame_state h = state_code Dropped ->
   lost b = (primary + num_tail_packets) * num_active_fems h - total_packets_received h).
Proof.
  intros Hb b h. pose proof (run_invariant events) as Inv. fold b in Inv.
  unfold buffer_invariant in Inv. fold h in Inv.
  assert (Hexp : expected_packets bit_depth h = (primary + num_tail_packets) * num_active_fems h).
  { unfold expected_packets, num_fem_frame_packets. now rewrite Hb. }
  pose proof (frame_complete_iff primary h Hb) as Hiff.
  destruct Inv as [[Hs Hn] | [[Hs Hc] | [[Hs Hc] | (Hs & Hc & Hl)]]]; rewrite Hs.
  - split; [|split].
    + split; [discriminate | intros [H _]; now elim H].
    + now left.
    + discriminate.
  - split; [|split].
    + split; [discriminate|]. intros [_ H]. apply Hiff in H. congruence.
    + right. now left.
    + discriminate.
  - split; [|split].
    + split; [|reflexivity]. intros _. split; [discriminate | now apply Hiff].
    + right. right. now left.
    + discriminate.
  - split; [|split].
    + split; [discriminate|]. intros [_ H]. apply Hiff in H. congruence.
    + right. right. now right.
    + intros _. now rewrite Hl, Hexp.
Qed.

End FrameAssemblerFacts.

(** ** The plugin: configuration *)

Section ConfigureFacts.
Import Lpd FrameProcessor.

(** C9: [configure] sets the lost-packet counter to the value supplied under
    [packets_lost]; each of width, height, number of images and lost-packet
    counter whose key is absent keeps its value; besides these four and the
    pixel count derived from them nothing changes: the image counter and the
    reply message are as before.  The pixel count is the [int] product of
    width and height, which is their product when that fits an [int]. *)
Theorem configure_effect (config reply : gmap string Z) (p : LpdProcessPlugin) :
  let p' := fst (configure config reply p) in
  packets_lost_ p' = match config !! "packets_lost"%string with
                     | Some v => v
                     | None => packets_lost_ p
                     end /\
  image_width_ p' = match config !! "width"%string with
                    | Some v => v
                    | None => image_width_ p
                    end /\
  image_height_ p' = match config !! "height"%string with
                     | Some v => v
                     | None => image_height_ p
                     end /\
  num_images_ p' = match config !! "num_images"%string with
                   | Some v => v
                   | None => num_images_ p
                   end /\
  image_pixels_ p' = int32 (image_width_ p' * image_height_ p') /\
  (int_range (image_width_ p' * image_height_ p') ->
   image_pixels_ p' = image_width_ p' * image_height_ p') /\
  image_counter_ p' = image_counter_ p /\
  snd (configure config reply p) = reply.
Proof.
  unfold configure, configure_param.
  change CONFIG_DROPPED_PACKETS with "packets_lost"%string.
  change CONFIG_IMAGE_WIDTH with "width"%string.
  change CONFIG_IMAGE_HEIGHT with "height"%string.
  change CONFIG_NUM_IMAGES with "num_images"%string.
  destruct (config !! "packets_lost"%string), (config !! "width"%string),
    (config !! "height"%string), (config !! "num_images"%string);
    cbn [fst snd set_packets_lost set_image_width set_image_height set_num_images
         set_image_pixels packets_lost_ image_width_ image_height_ num_images_
         image_pixels_ image_counter_];
    repeat split; try reflexivity; intros H; now apply int32_small.
Qed.

(** The pixel count is the product of width and height in every state the
    constructor and [configure] can produce. *)
Lemma new_plugin_pixels :
  image_pixels_ new_LpdProcessPlugin
  = image_width_ new_LpdProcessPlugin * image_height_ new_LpdProcessPlugin.
Proof. reflexivity. Qed.

Lemma status_reports_packets_lost name msg p :
  status name msg p !! String.append name "/packets_lost" = Some (packets_lost_ p).
Proof. unfold status. apply lookup_insert_eq. Qed.

End ConfigureFacts.

(** ** The plugin: running a frame *)

Section PluginFacts.
Import Lpd FrameProcessor.

Variable K : PluginConstants.

Lemma when_running_faulted k r x : fault r = Some x -> when_running k r = r.
Proof. intros H. unfold when_running. now rewrite H. Qed.

Lemma when_running_ok k r : fault r = None -> when_running k r = k r.
Proof. intros H. unfold when_running. now rewrite H. Qed.

Lemma fold_left_fixed {A B} (f : A -> B -> A) (l : list B) (a : A) :
  (forall b, f a b = a) -> fold_left f l a = a.
Proof. intros H. induction l as [|b l IH]; simpl; [reflexivity | now rewrite H]. Qed.

(** Once a store has faulted nothing more happens. *)
Lemma reorder_pixel_faulted frame idx image nppr image_row pixel_col r asic_col x :
  fault r = Some x ->
  reorder_pixel K frame idx image nppr image_row pixel_col r asic_col = r.
Proof. apply when_running_faulted. Qed.

Lemma reorder_pixels_faulted frame idx image nppr r x :
  fault r = Some x -> reorder_pixels K frame idx image nppr r = r.
Proof.
  intros H. unfold reorder_pixels.
  repeat (apply fold_left_fixed; intros ?).
  now apply reorder_pixel_faulted with x.
Qed.

Lemma reorder_image_faulted frame image_size idx nppr r image x :
  fault r = Some x -> reorder_image K frame image_size idx nppr r image = r.
Proof. apply when_running_faulted. Qed.

Lemma reorder_fem_faulted frame image_size r idx x :
  fault r = Some x -> reorder_fem K frame image_size r idx = r.
Proof. apply when_running_faulted. Qed.

(** A property that every pixel step keeps is kept by the four pixel loops;
    the step may rely on the loop variables being in range. *)
Lemma reorder_pixels_inv (P : Run -> Prop) frame idx image nppr :
  (forall pixel_row pixel_col asic_row asic_col r,
      0 <= pixel_row < num_pixel_rows_per_asic K ->
      0 <= pixel_col < num_pixel_cols_per_asic K ->
      0 <= asic_row < num_asic_rows K ->
      0 <= asic_col < num_asic_cols K ->
      P r ->
      P (reorder_pixel K frame idx image nppr
           (wrap32 (asic_row * num_pixel_rows_per_asic K + pixel_row))
           pixel_col r asic_col)) ->
  forall r, P r -> P (reorder_pixels K frame idx image nppr r).
Proof.
  intros Hstep r Hr. unfold reorder_pixels.
  apply fold_left_inv; [|assumption]. intros r1 pixel_row Hpr%in_downto H1.
  apply fold_left_inv; [|assumption]. intros r2 pixel_col Hpc%in_upto H2.
  apply fold_left_inv; [|assumption]. intros r3 asic_row Har%in_downto H3.
  apply fold_left_inv; [|assumption]. intros r4 asic_col Hac%in_upto H4.
  now apply Hstep.
Qed.

(** *** Steps that leave the settings and the loss accounting alone *)

Lemma lost_packets_runs_app l1 l2 :
  lost_packets_runs (l1 ++ l2) = (lost_packets_runs l1 + lost_packets_runs l2)%nat.
Proof. unfold lost_packets_runs. now rewrite List.filter_app, length_app. Qed.

Lemma continues_refl r : continues r r.
Proof.
  split; [repeat split|]. exists []. split; [symmetry; apply app_nil_r | reflexivity].
Qed.

Lemma continues_trans r1 r2 r3 : continues r1 r2 -> continues r2 r3 -> continues r1 r3.
Proof.
  intros [(A1 & A2 & A3 & A4 & A5) (l1 & L1 & N1)] [(B1 & B2 & B3 & B4 & B5) (l2 & L2 & N2)].
  split; [repeat split; congruence|].
  exists (l1 ++ l2). split.
  - now rewrite L2, L1, app_assoc.
  - now rewrite lost_packets_runs_app, N1, N2.
Qed.

(** A step whose plugin differs at most in the image counter and whose log
    grew by [rest] continues the run. *)
Lemma continues_by r r' rest :
  same_settings (plugin r') (plugin r) ->
  log r' = log r ++ rest -> lost_packets_runs rest = 0%nat ->
  continues r r'.
Proof. intros H1 H2 H3. split; [assumption | now exists rest]. Qed.

Ltac case_innermost :=
  match goal with
  | |- context [match ?x with _ => _ end] =>
      lazymatch x with
      | context [match _ with _ => _ end] => fail
      | _ => destruct x eqn:?
      end
  end.

Ltac run_cases := repeat (case_innermost; cbn in * ).

Ltac unfold_prims :=
  unfold set_reordered_image, add_store, set_cursor, set_fault, add_log, push,
    set_plugin in *;
  cbn in *.

Ltac solve_continues :=
  try congruence;
  first
    [ apply continues_refl
    | unfold_prims; eapply continues_by;
      [ repeat split
      | cbn; first [ reflexivity | rewrite <- !app_assoc; reflexivity
                   | symmetry; apply app_nil_r ]
      | reflexivity ] ].

Lemma reorder_pixel_continues frame idx image nppr image_row pixel_col r asic_col :
  continues r (reorder_pixel K frame idx image nppr image_row pixel_col r asic_col).
Proof.
  unfold reorder_pixel, when_running, next_packet, store.
  cbn. run_cases; solve_continues.
Qed.

Lemma reorder_pixels_continues frame idx image nppr r :
  continues r (reorder_pixels K frame idx image nppr r).
Proof.
  apply (reorder_pixels_inv (continues r)); [|apply continues_refl].
  intros. eapply continues_trans; [eassumption | apply reorder_pixel_continues].
Qed.

Lemma push_image_continues frame image_size image buf r :
  continues r (push_image frame image_size image buf r).
Proof. unfold push_image. solve_continues. Qed.

Lemma reorder_image_continues frame image_size idx nppr r image :
  continues r (reorder_image K frame image_size idx nppr r image).
Proof.
  unfold reorder_image, when_running.
  destruct (fault r); [apply continues_refl|].
  set (r1 := add_log TRACE (ReadingImage image) r).
  assert (H1 : continues r r1) by (subst r1; solve_continues).
  set (r2 := reorder_pixels K frame idx image nppr r1).
  assert (H2 : continues r r2)
    by (eapply continues_trans; [exact H1 | apply reorder_pixels_continues]).
  clearbody r2. destruct (fault r2); [assumption|].
  eapply continues_trans; [exact H2|].
  destruct (reordered_image r2) as [buf|].
  - apply continues_trans with (push_image frame image_size image buf r2);
      [apply push_image_continues | solve_continues].
  - solve_continues.
Qed.

Lemma fold_continues {B} (f : Run -> B -> Run) (l : list B) r :
  (forall a b, continues a (f a b)) -> continues r (fold_left f l r).
Proof.
  intros Hf. apply (fold_left_inv (continues r)); [|apply continues_refl].
  intros a b _ Ha. eapply continues_trans; [exact Ha | apply Hf].
Qed.

Lemma reorder_fem_continues frame image_size r idx :
  continues r (reorder_fem K frame image_size r idx).
Proof.
  unfold reorder_fem, when_running.
  destruct (fault r); [apply continues_refl|].
  match goal with
  | |- context [fold_left ?f ?l ?a] =>
      assert (H1 : continues r a) by solve_continues;
      assert (H2 : continues r (fold_left f l a))
        by (eapply continues_trans;
            [exact H1 | apply fold_continues; intros; apply reorder_image_continues]);
      generalize dependent (fold_left f l a)
  end.
  intros r2 H2. destruct (fault r2); [assumption|].
  destruct (reordered_image r2); [|assumption].
  eapply continues_trans; [exact H2 | solve_continues].
Qed.

(** *** Loss accounting *)

Lemma process_lost_packets_effect frame r :
  let r' := process_lost_packets K frame r in
  packets_lost_ (plugin r')
  = (if 0 <? lost_in K frame then int32 (packets_lost_ (plugin r) + lost_in K frame)
     else packets_lost_ (plugin r)) /\
  image_width_ (plugin r') = image_width_ (plugin r) /\
  image_height_ (plugin r') = image_height_ (plugin r) /\
  image_pixels_ (plugin r') = image_pixels_ (plugin r) /\
  num_images_ (plugin r') = num_images_ (plugin r) /\
  image_counter_ (plugin r') = image_counter_ (plugin r) /\
  pushed r' = pushed r /\ stores r' = stores r /\ fault r' = fault r /\
  reordered_image r' = reordered_image r /\
  exists rest,
    log r' = log r ++ (DEBUG, ProcessingLostPackets (frame_number (hdr frame))) :: rest /\
    lost_packets_runs rest = 0%nat.
Proof.
  unfold process_lost_packets, lost_in.
  destruct (Z.ltb_spec (total_packets_received (hdr frame))
              (num_packets K * num_active_fems (hdr frame)));
    cbn [plugin set_plugin add_log set_packets_lost packets_lost_ image_width_ image_height_
         image_pixels_ num_images_ image_counter_ pushed stores fault reordered_image log].
  - split.
    + rewrite int32_add_int32.
      destruct (Z.ltb_spec 0 (Z.max 0 (num_packets K * num_active_fems (hdr frame)
                                       - total_packets_received (hdr frame)))); [|lia].
      f_equal. lia.
    + repeat split.
      eexists; (split; [rewrite <- ?app_assoc; reflexivity | reflexivity]).
  - split.
    + destruct (Z.ltb_spec 0 (Z.max 0 (num_packets K * num_active_fems (hdr frame)
                                       - total_packets_received (hdr frame)))); [lia|].
      reflexivity.
    + repeat split.
      eexists; (split; [rewrite <- ?app_assoc; reflexivity | reflexivity]).
Qed.

(** As long as the counter stays an [int], the accounting adds the loss of
    the frame to it. *)
Lemma process_lost_packets_adds frame r :
  int_range (packets_lost_ (plugin r) + lost_in K frame) ->
  packets_lost_ (plugin (process_lost_packets K frame r))
  = packets_lost_ (plugin r) + lost_in K frame.
Proof.
  intros Hfit.
  destruct (process_lost_packets_effect frame r) as (E & _). rewrite E.
  destruct (Z.ltb_spec 0 (lost_in K frame)) as [H|H].
  - now apply int32_small.
  - unfold lost_in in *. lia.
Qed.

Lemma try_block_continues heap frame image_size r :
  match try_block K heap frame image_size r with
  | Returned r' => continues r r'
  | Thrown _ r' => r' = r
  end.
Proof.
  unfold try_block. destruct (malloc heap _); [|reflexivity].
  eapply continues_trans; [|apply fold_continues; intros; apply reorder_fem_continues].
  solve_continues.
Qed.

(** [process_frame] is the loss accounting followed by steps that leave the
    settings and the accounting alone. *)
Lemma process_frame_after_accounting heap frame r :
  fault r = None ->
  continues
    (process_lost_packets K frame
       (add_log TRACE (FrameSize (data_size frame)) (add_log TRACE ReorderingFrame r)))
    (process_frame K heap frame r).
Proof.
  intros Hr. unfold process_frame, when_running. rewrite Hr. cbv zeta.
  set (r2 := process_lost_packets K frame _).
  match goal with
  | |- continues _ (match try_block _ _ _ ?i ?a with _ => _ end) =>
      assert (H1 : continues r2 a) by solve_continues;
      pose proof (try_block_continues heap frame i a) as H2;
      destruct (try_block K heap frame i a) as [r3|what r3]
  end.
  - eapply continues_trans; eassumption.
  - subst r3. eapply continues_trans; [exact H1|].
    match goal with
    | |- context [match ?x with _ => _ end] => destruct x
    end; solve_continues.
Qed.

(** C3, as the code has it: for a frame handed to [process_frame] the loss
    accounting runs once, before anything is reordered (nothing was stored or
    pushed when it finishes, and the rest of the run leaves it alone), and,
    as long as the sum is a value of the [int] counter, adds
    [max(0, expected - total_packets_received)] to the lost-packet counter,
    [expected] being [num_packets] times the number of active FEMs; the
    counter is unchanged when at least [expected] packets were received. *)
Theorem loss_accounting_once heap frame r :
  fault r = None ->
  int_range (packets_lost_ (plugin r) + lost_in K frame) ->
  let r' := process_frame K heap frame r in
  let expected := num_packets K * num_active_fems (hdr frame) in
  let received := total_packets_received (hdr frame) in
  packets_lost_ (plugin r') = packets_lost_ (plugin r) + Z.max 0 (expected - received) /\
  (expected <= received -> packets_lost_ (plugin r') = packets_lost_ (plugin r)) /\
  lost_packets_runs (log r') = S (lost_packets_runs (log r)) /\
  (exists rest,
      log r' = log r ++ [(TRACE, ReorderingFrame); (TRACE, FrameSize (data_size frame));
                         (DEBUG, ProcessingLostPackets (frame_number (hdr frame)))] ++ rest /\
      lost_packets_runs rest = 0%nat) /\
  (exists accounted,
      accounted = process_lost_packets K frame
                    (add_log TRACE (FrameSize (data_size frame))
                       (add_log TRACE ReorderingFrame r)) /\
      stores accounted = stores r /\ pushed accounted = pushed r /\
      continues accounted r').
Proof.
  intros Hr Hfit r' expected received.
  pose proof (process_frame_after_accounting heap frame r Hr) as [(_ & _ & _ & _ & HL) (l2 & L2 & N2)].
  fold r' in HL, L2.
  destruct (process_lost_packets_effect frame
              (add_log TRACE (FrameSize (data_size frame)) (add_log TRACE ReorderingFrame r)))
    as (_ & _ & _ & _ & _ & _ & E2 & E3 & _ & _ & l1 & L1 & N1).
  pose proof (process_lost_packets_adds frame
                (add_log TRACE (FrameSize (data_size frame)) (add_log TRACE ReorderingFrame r))
                Hfit) as E1.
  cbn in E1, E2, E3, L1.
  assert (Hlost : packets_lost_ (plugin r')
                  = packets_lost_ (plugin r) + Z.max 0 (expected - received))
    by (rewrite HL, E1; reflexivity).
  assert (Hlog : log r' = log r ++ [(TRACE, ReorderingFrame); (TRACE, FrameSize (data_size frame));
                                    (DEBUG, ProcessingLostPackets (frame_number (hdr frame)))]
                          ++ (l1 ++ l2)).
  { rewrite L2, L1. rewrite <- !app_assoc. reflexivity. }
  assert (Hrest : lost_packets_runs (l1 ++ l2) = 0%nat)
    by (now rewrite lost_packets_runs_app, N1, N2).
  split; [exact Hlost|]. split; [intros Hle; rewrite Hlost; lia|].
  split; [|split].
  - rewrite Hlog, !lost_packets_runs_app, N1, N2. cbn. lia.
  - now exists (l1 ++ l2).
  - eexists. split; [reflexivity|]. split; [exact E3|]. split; [exact E2|].
    apply process_frame_after_accounting. exact Hr.
Qed.

(** A frame whose buffer cannot be allocated: the run ends in the handler
    with the plugin as the loss accounting left it. *)
Lemma process_frame_alloc_failure heap frame r :
  fault r = None ->
  malloc heap (image_pixels_ (plugin r) * 2) = None ->
  let r' := process_frame K heap frame r in
  fault r' = None /\
  pushed r' = pushed r /\
  stores r' = stores r /\
  reordered_image r' = None /\
  plugin r' = plugin (process_lost_packets K frame r) /\
  exists before,
    log r' = before ++
      [(ERROR, DecodeFailed
         "LPD frame decode failed: Failed to allocate temporary buffer for reordered image")].
Proof.
  intros Hr Hm r'. subst r'. unfold process_frame, when_running. rewrite Hr. cbv zeta.
  set (r0 := add_log TRACE (FrameSize (data_size frame)) (add_log TRACE ReorderingFrame r)).
  assert (Hp : plugin (process_lost_packets K frame r0)
               = plugin (process_lost_packets K frame r)).
  { unfold process_lost_packets. subst r0. cbv zeta.
    destruct (_ <? _); reflexivity. }
  destruct (process_lost_packets_effect frame r0)
    as (_ & _ & _ & E4 & _ & _ & E7 & E8 & E9 & _ & _).
  set (r2 := process_lost_packets K frame r0) in *.
  unfold try_block. cbn. rewrite E4. subst r0. cbn. rewrite Hm. cbn.
  cbn in E7, E8, E9.
  repeat split; try assumption.
  - now rewrite E9.
  - eexists. reflexivity.
Qed.

(** C8: when the buffer for the reordered image cannot be allocated,
    [process_frame] returns normally: nothing is pushed and nothing stored for
    the frame, what was pushed before stays, the error is the last log entry,
    the image counter is untouched and the update of the lost-packet counter
    made for the frame is kept: the counter is what [process_lost_packets]
    made it, that is the old value plus the loss of the frame whenever that
    sum is a value of the [int] counter. *)
Theorem allocation_failure_aborts_frame heap frame r :
  fault r = None ->
  malloc heap (image_pixels_ (plugin r) * 2) = None ->
  let r' := process_frame K heap frame r in
  fault r' = None /\
  pushed r' = pushed r /\
  stores r' = stores r /\
  reordered_image r' = None /\
  image_counter_ (plugin r') = image_counter_ (plugin r) /\
  packets_lost_ (plugin r') = packets_lost_ (plugin (process_lost_packets K frame r)) /\
  (int_range (packets_lost_ (plugin r) + lost_in K frame) ->
   packets_lost_ (plugin r') = packets_lost_ (plugin r) + lost_in K frame) /\
  exists before,
    log r' = before ++
      [(ERROR, DecodeFailed
         "LPD frame decode failed: Failed to allocate temporary buffer for reordered image")].
Proof.
  intros Hr Hm r'.
  destruct (process_frame_alloc_failure heap frame r Hr Hm)
    as (F1 & F2 & F3 & F4 & F5 & F6).
  fold r' in F1, F2, F3, F4, F5, F6.
  destruct (process_lost_packets_effect frame r) as (_ & _ & _ & _ & _ & E6 & _).
  repeat split; try assumption.
  - rewrite F5. exact E6.
  - now rewrite F5.
  - intros Hfit. rewrite F5. now apply process_lost_packets_adds.
Qed.

Lemma process_lost_packets_stores frame r :
  stores (process_lost_packets K frame r) = stores r.
Proof.
  destruct (process_lost_packets_effect frame r) as (_ & _ & _ & _ & _ & _ & _ & H & _).
  exact H.
Qed.

(** *** Invariants of the stores and the cursor

    [P] holds of the stores and the cursor inside the loop over a FEM, [P0]
    of the stores outside of it. *)

Section StoreInvariant.

Variable frame : Frame.
Variable P : list Store -> Cursor -> Prop.
Variable P0 : list Store -> Prop.

Hypothesis P_enter : forall l, P0 l -> P l (first_packet frame).
Hypothesis P_leave : forall l c, P l c -> P0 l.
Hypothesis P_step :
  forall idx image nppr pixel_row pixel_col asic_row asic_col r,
    0 <= pixel_row < num_pixel_rows_per_asic K ->
    0 <= pixel_col < num_pixel_cols_per_asic K ->
    0 <= asic_row < num_asic_rows K ->
    0 <= asic_col < num_asic_cols K ->
    nppr = wrap32 (num_asic_cols K * num_pixel_cols_per_asic K) ->
    P (stores r) (cursor r) ->
    let r' := reorder_pixel K frame idx image nppr
                (wrap32 (asic_row * num_pixel_rows_per_asic K + pixel_row))
                pixel_col r asic_col in
    P (stores r') (cursor r').

Lemma reorder_image_stores image_size idx r image :
  P (stores r) (cursor r) ->
  let r' := reorder_image K frame image_size idx
              (wrap32 (num_asic_cols K * num_pixel_cols_per_asic K)) r image in
  P (stores r') (cursor r').
Proof.
  intros Hr. unfold reorder_image, when_running. cbv zeta.
  destruct (fault r); [assumption|].
  match goal with
  | |- context [reorder_pixels K frame idx image ?n ?a] =>
      assert (H2 : P (stores (reorder_pixels K frame idx image n a))
                     (cursor (reorder_pixels K frame idx image n a)))
        by (apply (reorder_pixels_inv (fun r => P (stores r) (cursor r)));
            [intros; now apply P_step | exact Hr]);
      generalize dependent (reorder_pixels K frame idx image n a)
  end.
  intros r2 H2. destruct (fault r2); [assumption|].
  destruct (reordered_image r2); exact H2.
Qed.

Lemma reorder_fem_stores image_size r idx :
  P0 (stores r) -> P0 (stores (reorder_fem K frame image_size r idx)).
Proof.
  intros Hr. unfold reorder_fem, when_running.
  destruct (fault r); [assumption|]. cbv zeta.
  match goal with
  | |- context [fold_left ?f ?l ?a] =>
      assert (H2 : P (stores (fold_left f l a)) (cursor (fold_left f l a)))
        by (apply (fold_left_inv (fun r => P (stores r) (cursor r)));
            [intros; now apply reorder_image_stores | cbn; now apply P_enter]);
      generalize dependent (fold_left f l a)
  end.
  intros r2 H2. apply P_leave in H2.
  destruct (fault r2); [assumption|].
  destruct (reordered_image r2); exact H2.
Qed.

Lemma process_frame_stores heap r :
  P0 (stores r) -> P0 (stores (process_frame K heap frame r)).
Proof.
  intros Hr. unfold process_frame, when_running.
  destruct (fault r); [assumption|]. cbv zeta.
  match goal with
  | |- context [try_block K heap frame ?i ?a] =>
      assert (Ha : P0 (stores a));
      [ cbn; now rewrite process_lost_packets_stores
      | generalize dependent a ]
  end.
  intros a Ha. unfold try_block.
  destruct (malloc heap _) as [buf|].
  - apply (fold_left_inv (fun r => P0 (stores r))); [|exact Ha].
    intros; now apply reorder_fem_stores.
  - destruct (reordered_image a); exact Ha.
Qed.

End StoreInvariant.

(** *** Every store is a verbatim copy

    The slot of a packet is a [uint8_t], so it is below 65535 and the branch
    that writes zero is never taken. *)

Lemma reorder_pixel_store_ok frame idx image nppr image_row pixel_col r asic_col :
  cursor_ok frame (cursor r) /\ Forall (store_ok K frame) (stores r) ->
  let r' := reorder_pixel K frame idx image nppr image_row pixel_col r asic_col in
  cursor_ok frame (cursor r') /\ Forall (store_ok K frame) (stores r').
Proof.
  intros [[Hc1 Hc2] Hs].
  pose proof (wrap8_range (packet_state frame (pkt_num (cursor r)))) as Hu1.
  pose proof (wrap8_range (packet_state frame (wrap32 (pkt_num (cursor r) + 1)))) as Hu2.
  unfold reorder_pixel, when_running, next_packet, store.
  cbn.
  run_cases; try congruence; unfold_prims.
  all: repeat match goal with
         | H : (_ <? _) = true |- _ => apply Z.ltb_lt in H
         | H : (_ <? _) = false |- _ => apply Z.ltb_ge in H
         end.
  all: try (exfalso; lia).
  all: split; [split; first [reflexivity | assumption]|].
  all: try assumption.
  all: apply Forall_app; split; [assumption|]; constructor; [|constructor].
  all: unfold store_ok, resolved_offset; cbn.
  all: try rewrite <- Hc1; try rewrite <- Hc2.
  all: split; reflexivity.
Qed.

(** Whatever the frame, the stores of [process_frame] are copies. *)
Lemma process_frame_store_ok heap frame r :
  Forall (store_ok K frame) (stores r) ->
  Forall (store_ok K frame) (stores (process_frame K heap frame r)).
Proof.
  intros Hr.
  apply (process_frame_stores frame
           (fun l c => cursor_ok frame c /\ Forall (store_ok K frame) l)
           (Forall (store_ok K frame))).
  - intros l Hl. split; [split; reflexivity | exact Hl].
  - intros l c [_ Hl]. exact Hl.
  - intros. now apply reorder_pixel_store_ok.
  - exact Hr.
Qed.

(** *** Stores stay inside the image the loops cover *)

Lemma output_offset_bound pixel_row pixel_col asic_row asic_col :
  0 <= pixel_row < num_pixel_rows_per_asic K ->
  0 <= pixel_col < num_pixel_cols_per_asic K ->
  0 <= asic_row < num_asic_rows K ->
  0 <= asic_col < num_asic_cols K ->
  0 <= wrap32 (wrap32 (asic_row * num_pixel_rows_per_asic K + pixel_row)
               * wrap32 (num_asic_cols K * num_pixel_cols_per_asic K)
               + wrap32 (asic_col * num_pixel_cols_per_asic K + pixel_col))
    < geometry_pixels K.
Proof.
  intros Hpr Hpc Har Hac. unfold geometry_pixels, image_rows, row_pixels.
  set (row := wrap32 (asic_row * num_pixel_rows_per_asic K + pixel_row)).
  set (width := wrap32 (num_asic_cols K * num_pixel_cols_per_asic K)).
  set (col := wrap32 (asic_col * num_pixel_cols_per_asic K + pixel_col)).
  assert (Hrow : 0 <= row <= num_asic_rows K * num_pixel_rows_per_asic K - 1).
  { split; [apply wrap32_range|].
    etransitivity; [apply wrap32_le; nia | nia]. }
  assert (Hwidth : 0 <= width <= num_asic_cols K * num_pixel_cols_per_asic K).
  { split; [apply wrap32_range | apply wrap32_le; nia]. }
  assert (Hcol : 0 <= col <= num_asic_cols K * num_pixel_cols_per_asic K - 1).
  { split; [apply wrap32_range|].
    etransitivity; [apply wrap32_le; nia | nia]. }
  split; [apply wrap32_range|].
  eapply Z.le_lt_trans; [apply wrap32_le; nia | nia].
Qed.

Lemma reorder_pixel_live n frame idx image pixel_row pixel_col asic_row asic_col r :
  0 <= pixel_row < num_pixel_rows_per_asic K ->
  0 <= pixel_col < num_pixel_cols_per_asic K ->
  0 <= asic_row < num_asic_rows K ->
  0 <= asic_col < num_asic_cols K ->
  geometry_pixels K <= Z.of_nat n ->
  live n r ->
  let r' := reorder_pixel K frame idx image
              (wrap32 (num_asic_cols K * num_pixel_cols_per_asic K))
              (wrap32 (asic_row * num_pixel_rows_per_asic K + pixel_row))
              pixel_col r asic_col in
  live n r' /\ plugin r' = plugin r /\ pushed r' = pushed r.
Proof.
  intros Hpr Hpc Har Hac Hn (Hf & buf & Hb & Hl).
  pose proof (output_offset_bound pixel_row pixel_col asic_row asic_col Hpr Hpc Har Hac)
    as Hoff.
  unfold reorder_pixel, when_running, next_packet, store. cbn.
  rewrite Hf. run_cases; try congruence; unfold_prims; unfold live; cbn.
  all: repeat match goal with
         | H : Some _ = Some _ |- _ => injection H as ->
         | H : (_ <? _) = true |- _ => apply Z.ltb_lt in H
         | H : (_ <? _) = false |- _ => apply Z.ltb_ge in H
         end.
  all: try lia.
  all: split; [split; [assumption | eexists; split; [reflexivity|];
                                    now rewrite length_insert]
              | split; reflexivity].
Qed.

Lemma reorder_pixels_live n frame idx image r :
  geometry_pixels K <= Z.of_nat n ->
  live n r ->
  let r' := reorder_pixels K frame idx image
              (wrap32 (num_asic_cols K * num_pixel_cols_per_asic K)) r in
  live n r' /\ plugin r' = plugin r /\ pushed r' = pushed r.
Proof.
  intros Hn Hr.
  apply (reorder_pixels_inv
           (fun r' => live n r' /\ plugin r' = plugin r /\ pushed r' = pushed r)).
  - intros pixel_row pixel_col asic_row asic_col r1 Hpr Hpc Har Hac (H1 & H2 & H3).
    destruct (reorder_pixel_live n frame idx image pixel_row pixel_col asic_row asic_col r1)
      as (L & E1 & E2); try assumption.
    split; [exact L|]. split; congruence.
  - split; [exact Hr|]. split; reflexivity.
Qed.

(** *** One triplet per image while the buffer is live *)

Lemma reorder_image_live n frame image_size idx r image :
  geometry_pixels K <= Z.of_nat n ->
  live n r ->
  let r' := reorder_image K frame image_size idx
              (wrap32 (num_asic_cols K * num_pixel_cols_per_asic K)) r image in
  live n r' /\
  plugin r' = set_image_counter (image_counter_ (plugin r) + 1) (plugin r) /\
  exists buf,
    length buf = n /\
    pushed r' = pushed r ++ triplet (plugin r) frame (image_counter_ (plugin r)) image
                              (firstn (Z.to_nat (image_size / 2)) buf).
Proof.
  intros Hn Hr. unfold reorder_image, when_running.
  destruct Hr as (Hf & buf0 & Hb0 & Hl0). rewrite Hf. cbv zeta.
  set (r1 := add_log TRACE (ReadingImage image) r).
  assert (H1 : live n r1) by (split; [exact Hf | now exists buf0]).
  destruct (reorder_pixels_live n frame idx image r1 Hn H1) as (L & E1 & E2).
  set (r2 := reorder_pixels K frame idx image _ r1) in *. clearbody r2.
  destruct L as (Hf2 & buf & Hb & Hl). rewrite Hf2, Hb.
  unfold push_image, live. cbn. rewrite E1, E2. cbn.
  split; [split; [exact Hf2 | now exists buf]|].
  split; [reflexivity|].
  exists buf. split; [exact Hl|].
  rewrite <- !app_assoc. reflexivity.
Qed.

Lemma flat_map_ext_in {A B} (f g : A -> list B) (l : list A) :
  (forall a, In a l -> f a = g a) -> flat_map f l = flat_map g l.
Proof.
  induction l as [|a l IH]; intros H; simpl; [reflexivity|].
  rewrite (H a) by now left. f_equal. apply IH. intros b Hb. apply H. now right.
Qed.

Lemma triplets_succ p frame c n plane :
  0 <= n ->
  triplets p frame c (n + 1) plane
  = triplets p frame c n plane ++ triplet p frame (c + n) n (plane n).
Proof.
  intros Hn. unfold triplets. rewrite upto_succ by assumption.
  rewrite flat_map_app. cbn [flat_map]. now rewrite app_nil_r.
Qed.

Lemma triplets_ext p frame c n plane plane' :
  (forall i, 0 <= i < n -> plane i = plane' i) ->
  triplets p frame c n plane = triplets p frame c n plane'.
Proof.
  intros H. unfold triplets. apply flat_map_ext_in.
  intros i Hi%in_upto. now rewrite H.
Qed.

Lemma triplet_settings p q frame c i plane :
  same_settings p q -> triplet p frame c i plane = triplet q frame c i plane.
Proof. intros (Hw & Hh & _). unfold triplet. now rewrite Hw, Hh. Qed.

Lemma same_settings_counter p v : same_settings (set_image_counter v p) p.
Proof. repeat split. Qed.

Lemma same_settings_trans p q s :
  same_settings p q -> same_settings q s -> same_settings p s.
Proof. unfold same_settings. intuition congruence. Qed.

Lemma images_live n frame image_size idx :
  geometry_pixels K <= Z.of_nat n ->
  forall (k : nat) r,
    live n r ->
    let r' := fold_left (reorder_image K frame image_size idx
                           (wrap32 (num_asic_cols K * num_pixel_cols_per_asic K)))
                        (upto (Z.of_nat k)) r in
    live n r' /\
    same_settings (plugin r') (plugin r) /\
    image_counter_ (plugin r') = image_counter_ (plugin r) + Z.of_nat k /\
    exists plane,
      pushed r' = pushed r ++ triplets (plugin r) frame (image_counter_ (plugin r))
                                (Z.of_nat k) plane.
Proof.
  intros Hn. induction k as [|k IH]; intros r Hr.
  - change (upto (Z.of_nat 0)) with (@nil Z). cbv zeta. cbn [fold_left].
    split; [exact Hr|]. split; [repeat split|]. split; [cbn; lia|].
    exists (fun _ => []). cbn. now rewrite app_nil_r.
  - replace (Z.of_nat (S k)) with (Z.of_nat k + 1) by lia.
    rewrite upto_succ by lia. cbv zeta. rewrite fold_left_app. cbn [fold_left].
    destruct (IH r Hr) as (L & S1 & C1 & plane & P1).
    set (rk := fold_left _ (upto (Z.of_nat k)) r) in *. clearbody rk.
    destruct (reorder_image_live n frame image_size idx rk (Z.of_nat k) Hn L)
      as (L' & E & buf & Hl & P2).
    split; [exact L'|]. rewrite E. cbn.
    split; [exact S1|]. split; [lia|].
    exists (fun i => if i =? Z.of_nat k then firstn (Z.to_nat (image_size / 2)) buf
                     else plane i).
    rewrite P2, P1, <- app_assoc. f_equal.
    rewrite triplets_succ by lia. rewrite Z.eqb_refl, C1.
    rewrite (triplet_settings _ _ _ _ _ _ S1). f_equal.
    apply triplets_ext. intros i Hi.
    destruct (Z.eqb_spec i (Z.of_nat k)); [lia | reflexivity].
Qed.

Lemma reorder_fem_live n frame image_size r idx :
  geometry_pixels K <= Z.of_nat n ->
  live n r ->
  let r' := reorder_fem K frame image_size r idx in
  let images := wrap32 (num_images_ (plugin r)) in
  fault r' = None /\
  reordered_image r' = None /\
  same_settings (plugin r') (plugin r) /\
  image_counter_ (plugin r') = image_counter_ (plugin r) + images /\
  exists plane,
    pushed r' = pushed r ++ triplets (plugin r) frame (image_counter_ (plugin r)) images plane.
Proof.
  intros Hn (Hf & buf & Hb & Hl). unfold reorder_fem, when_running. rewrite Hf. cbv zeta.
  pose proof (wrap32_range (num_images_ (plugin r))) as Hi.
  set (images := wrap32 (num_images_ (plugin r))) in *.
  set (r1 := set_cursor (first_packet frame) _).
  assert (H1 : live n r1) by (split; [exact Hf | now exists buf]).
  replace images with (Z.of_nat (Z.to_nat images)) by lia.
  destruct (images_live n frame image_size idx Hn (Z.to_nat images) r1 H1)
    as ((Hf2 & buf2 & Hb2 & _) & S2 & C2 & plane & P2).
  set (r2 := fold_left _ (upto (Z.of_nat (Z.to_nat images))) r1) in *. clearbody r2.
  rewrite Hf2, Hb2. cbn. repeat split; try apply S2; try assumption.
  now exists plane.
Qed.

(** *** After the buffer was freed *)

Lemma fold_left_reaches {A B} (P Q : A -> Prop) (f : A -> B -> A) (l : list B) :
  l <> [] ->
  (forall a b, P a -> Q (f a b)) ->
  (forall a b, Q a -> Q (f a b)) ->
  forall a, P a -> Q (fold_left f l a).
Proof.
  intros Hl HP HQ a Ha. destruct l as [|b l]; [congruence|]. simpl.
  apply fold_left_inv; [intros; now apply HQ | now apply HP].
Qed.

Lemma upto_nonempty n : 0 < n -> upto n <> [].
Proof.
  intros Hn E. apply (f_equal (@length Z)) in E. rewrite upto_length in E. simpl in E. lia.
Qed.

Lemma downto_nonempty n : 0 < n -> downto n <> [].
Proof.
  intros Hn E. apply (f_equal (@length Z)) in E.
  unfold downto in E. rewrite length_rev, upto_length in E. simpl in E. lia.
Qed.

(** With [reordered_image] null a pixel step keeps it null, pushes nothing,
    and leaves the run faulted. *)
Lemma reorder_pixel_dead frame idx image nppr image_row pixel_col r asic_col :
  reordered_image r = None ->
  let r' := reorder_pixel K frame idx image nppr image_row pixel_col r asic_col in
  reordered_image r' = None /\ pushed r' = pushed r /\ plugin r' = plugin r /\
  fault r' <> None.
Proof.
  intros Hb. unfold reorder_pixel, when_running, next_packet, store. cbn.
  run_cases; try congruence; unfold_prims; repeat split; congruence.
Qed.

Lemma reorder_pixels_dead frame idx image nppr r :
  reordered_image r = None ->
  let r' := reorder_pixels K frame idx image nppr r in
  reordered_image r' = None /\ pushed r' = pushed r /\ plugin r' = plugin r.
Proof.
  intros Hb.
  apply (reorder_pixels_inv
           (fun r' => reordered_image r' = None /\ pushed r' = pushed r
                      /\ plugin r' = plugin r)).
  - intros pixel_row pixel_col asic_row asic_col r1 _ _ _ _ (H1 & H2 & H3).
    destruct (reorder_pixel_dead frame idx image nppr
                (wrap32 (asic_row * num_pixel_rows_per_asic K + pixel_row))
                pixel_col r1 asic_col H1) as (E1 & E2 & E3 & _).
    split; [exact E1|]. split; congruence.
  - repeat split. exact Hb.
Qed.

Lemma reorder_pixels_dead_faults frame idx image nppr r :
  positive_geometry K ->
  reordered_image r = None ->
  fault (reorder_pixels K frame idx image nppr r) <> None.
Proof.
  intros (Har & Hac & Hpr & Hpc) Hb. unfold reorder_pixels.
  pose (P := fun r : Run => reordered_image r = None).
  pose (Q := fun r : Run => reordered_image r = None /\ fault r <> None).
  assert (Hstep : forall image_row pixel_col a b,
             P a -> Q (reorder_pixel K frame idx image nppr image_row pixel_col a b)).
  { intros image_row pixel_col a b Ha.
    destruct (reorder_pixel_dead frame idx image nppr image_row pixel_col a b Ha)
      as (E1 & _ & _ & E4). now split. }
  assert (Hkeep : forall image_row pixel_col a b,
             Q a -> Q (reorder_pixel K frame idx image nppr image_row pixel_col a b)).
  { intros image_row pixel_col a b [Ha _]. now apply Hstep. }
  apply (fold_left_reaches P Q); [now apply downto_nonempty | | | exact Hb].
  - intros a1 pixel_row H1.
    apply (fold_left_reaches P Q); [now apply upto_nonempty | | | exact H1].
    + intros a2 pixel_col H2.
      apply (fold_left_reaches P Q); [now apply downto_nonempty | | | exact H2].
      * intros a3 asic_row H3.
        apply (fold_left_reaches P Q); [now apply upto_nonempty | | | exact H3];
          intros; [now apply Hstep | now apply Hkeep].
      * intros a3 asic_row H3.
        apply (fold_left_inv Q); [|exact H3]. intros; now apply Hkeep.
    + intros a2 pixel_col H2.
      apply (fold_left_inv Q); [|exact H2]. intros a3 asic_row _ H3.
      apply (fold_left_inv Q); [|exact H3]. intros; now apply Hkeep.
  - intros a1 pixel_row H1.
    apply (fold_left_inv Q); [|exact H1]. intros a2 pixel_col _ H2.
    apply (fold_left_inv Q); [|exact H2]. intros a3 asic_row _ H3.
    apply (fold_left_inv Q); [|exact H3]. intros; now apply Hkeep.
Qed.

Lemma reorder_image_dead frame image_size idx nppr r image :
  reordered_image r = None ->
  let r' := reorder_image K frame image_size idx nppr r image in
  reordered_image r' = None /\ pushed r' = pushed r /\
  (positive_geometry K -> fault r' <> None).
Proof.
  intros Hb. unfold reorder_image, when_running.
  destruct (fault r) eqn:Hf; [repeat split; congruence|]. cbv zeta.
  set (r1 := add_log TRACE (ReadingImage image) r).
  assert (H1 : reordered_image r1 = None) by exact Hb.
  destruct (reorder_pixels_dead frame idx image nppr r1 H1) as (E1 & E2 & E3).
  pose proof (fun G => reorder_pixels_dead_faults frame idx image nppr r1 G H1) as E4.
  set (r2 := reorder_pixels K frame idx image nppr r1) in *. clearbody r2.
  destruct (fault r2) eqn:Hf2.
  - repeat split; try assumption. congruence.
  - rewrite E1. cbn. repeat split; try assumption.
    intros G. exfalso. now apply (E4 G).
Qed.

Lemma reorder_fem_dead frame image_size r idx :
  reordered_image r = None ->
  let r' := reorder_fem K frame image_size r idx in
  reordered_image r' = None /\ pushed r' = pushed r /\
  (positive_geometry K -> fault r' = None ->
   fault r = None /\ image_counter_ (plugin r') = image_counter_ (plugin r)).
Proof.
  intros Hb. unfold reorder_fem, when_running.
  destruct (fault r) eqn:Hf; [repeat split; congruence|]. cbv zeta.
  set (r1 := set_cursor (first_packet frame) _).
  set (step := reorder_image K frame image_size idx _).
  set (l := upto (wrap32 (num_images_ (plugin r)))).
  assert (H1 : reordered_image r1 = None) by exact Hb.
  assert (H2 : reordered_image (fold_left step l r1) = None
               /\ pushed (fold_left step l r1) = pushed r).
  { apply (fold_left_inv (fun a => reordered_image a = None /\ pushed a = pushed r));
      [|now split].
    intros a image _ [Ha Hp].
    destruct (reorder_image_dead frame image_size idx
                (wrap32 (num_asic_cols K * num_pixel_cols_per_asic K)) a image Ha)
      as (E1 & E2 & _).
    split; [exact E1 | unfold step; congruence]. }
  destruct H2 as [H2 H3].
  assert (H4 : positive_geometry K -> fault (fold_left step l r1) = None ->
               fold_left step l r1 = r1).
  { intros G Hrun. destruct l as [|image l'] eqn:El; [reflexivity|]. exfalso.
    assert (Hq : reordered_image (fold_left step (image :: l') r1) = None
                 /\ fault (fold_left step (image :: l') r1) <> None).
    { apply (fold_left_reaches (fun a => reordered_image a = None)
               (fun a => reordered_image a = None /\ fault a <> None));
        [discriminate | | | exact H1].
      - intros a b Ha.
        destruct (reorder_image_dead frame image_size idx
                    (wrap32 (num_asic_cols K * num_pixel_cols_per_asic K)) a b Ha)
          as (E1 & _ & E3).
        split; [exact E1 | now apply E3].
      - intros a b [Ha Hq].
        destruct (reorder_image_dead frame image_size idx
                    (wrap32 (num_asic_cols K * num_pixel_cols_per_asic K)) a b Ha)
          as (E1 & _ & E3).
        split; [exact E1 | now apply E3]. }
    now apply (proj2 Hq). }
  set (r2 := fold_left step l r1) in *. clearbody r2.
  destruct (fault r2) eqn:Hf2.
  - repeat split; try assumption; congruence.
  - rewrite H2. repeat split; try assumption.
    rewrite (H4 H eq_refl). reflexivity.
Qed.

Lemma dead_fems frame image_size (l : list Z) r :
  reordered_image r = None ->
  let r' := fold_left (reorder_fem K frame image_size) l r in
  reordered_image r' = None /\ pushed r' = pushed r /\
  (positive_geometry K -> fault r' = None ->
   fault r = None /\ image_counter_ (plugin r') = image_counter_ (plugin r)).
Proof.
  intros Hb.
  apply (fold_left_inv
           (fun a => reordered_image a = None /\ pushed a = pushed r /\
                     (positive_geometry K -> fault a = None ->
                      fault r = None /\ image_counter_ (plugin a) = image_counter_ (plugin r)))).
  - intros a idx _ (Ha & Hp & Hc).
    destruct (reorder_fem_dead frame image_size a idx Ha) as (E1 & E2 & E3).
    split; [exact E1|]. split; [congruence|].
    intros G Hrun. destruct (E3 G Hrun) as [Hfa Hca].
    destruct (Hc G Hfa) as [Hfr Hcr]. split; [exact Hfr | congruence].
  - split; [exact Hb|]. split; [reflexivity|]. intros _ Hrun. now split.
Qed.

Lemma upto_cons n : 0 < n -> exists l, upto n = 0 :: l.
Proof.
  intros Hn. unfold upto. destruct (Z.to_nat n) as [|k] eqn:E; [lia|].
  cbn. eexists. reflexivity.
Qed.

Lemma malloc_length heap bytes buf :
  malloc heap bytes = Some buf -> length buf = Z.to_nat (bytes / 2).
Proof.
  unfold malloc. destruct (malloc_fails heap || (bytes <? 0)); [discriminate|].
  intros [= <-]. now rewrite length_map, upto_length.
Qed.

(** *** What a frame pushes *)

Lemma process_frame_pushed heap frame r buf :
  fault r = None ->
  malloc heap (image_pixels_ (plugin r) * 2) = Some buf ->
  0 < num_active_fems (hdr frame) ->
  geometry_pixels K <= image_pixels_ (plugin r) ->
  let r' := process_frame K heap frame r in
  let c := image_counter_ (plugin r) in
  let images := wrap32 (num_images_ (plugin r)) in
  (exists plane, pushed r' = pushed r ++ triplets (plugin r) frame c images plane) /\
  (positive_geometry K -> fault r' = None -> image_counter_ (plugin r') = c + images) /\
  (num_active_fems (hdr frame) = 1 ->
   fault r' = None /\ image_counter_ (plugin r') = c + images).
Proof.
  intros Hr Hm Hfems Hfit. unfold process_frame, when_running. rewrite Hr. cbv zeta.
  set (r0 := add_log TRACE (FrameSize (data_size frame)) (add_log TRACE ReorderingFrame r)).
  destruct (process_lost_packets_effect frame r0)
    as (_ & E2 & E3 & E4 & E5 & E6 & E7 & _ & E9 & _ & _).
  set (r2 := process_lost_packets K frame r0) in *. clearbody r2.
  cbn in E2, E3, E4, E5, E6, E7, E9.
  unfold try_block. cbn. rewrite E4, Hm.
  destruct (upto_cons _ Hfems) as [fems Efems]. rewrite Efems. cbn [fold_left].
  set (r3 := set_reordered_image (Some buf) _).
  assert (Hlen : length buf = Z.to_nat (image_pixels_ (plugin r))).
  { rewrite (malloc_length _ _ _ Hm). now rewrite Z.div_mul by lia. }
  assert (Hpos : 0 <= image_pixels_ (plugin r)).
  { unfold malloc in Hm.
    destruct (malloc_fails heap); [discriminate|]. cbn in Hm.
    destruct (Z.ltb_spec (image_pixels_ (plugin r) * 2) 0); [discriminate | lia]. }
  assert (H3 : live (Z.to_nat (image_pixels_ (plugin r))) r3).
  { split; [cbn; now rewrite E9 | now exists buf]. }
  assert (Hroom : geometry_pixels K <= Z.of_nat (Z.to_nat (image_pixels_ (plugin r))))
    by lia.
  destruct (reorder_fem_live _ frame
              (wrap32 (image_width_ (plugin r2) * image_height_ (plugin r2) * 2)) r3 0
              Hroom H3) as (F1 & F2 & F3 & F4 & plane & F5).
  set (r4 := reorder_fem K frame _ r3 0) in *. clearbody r4.
  cbn in F3, F4, F5. rewrite E5, E6 in F4. rewrite E5, E6, E7 in F5.
  assert (Htrip : forall i pl, triplet (plugin r2) frame (image_counter_ (plugin r) + i) i pl
                               = triplet (plugin r) frame (image_counter_ (plugin r) + i) i pl).
  { intros i pl. unfold triplet. now rewrite E2, E3. }
  destruct (dead_fems frame
              (wrap32 (image_width_ (plugin r2) * image_height_ (plugin r2) * 2))
              fems r4 F2) as (D1 & D2 & D3).
  split; [|split].
  - exists plane. rewrite D2, F5. f_equal. unfold triplets.
    apply flat_map_ext_in. intros i _. apply Htrip.
  - intros G Hrun. destruct (D3 G Hrun) as [_ Hc]. rewrite Hc. exact F4.
  - intros Hone. rewrite Hone in Efems. change (upto 1) with [0] in Efems.
    injection Efems as <-. cbn. split; assumption.
Qed.

Lemma triplets_stamps p frame c n plane :
  map (fun o => (out_name o, out_frame_number o)) (triplets p frame c n plane)
  = flat_map (fun i => [("data"%string, c + i); ("img_num"%string, c + i);
                        ("frame_num"%string, c + i)]) (upto n).
Proof.
  unfold triplets. induction (upto n) as [|i l IH]; [reflexivity|].
  cbn [flat_map]. rewrite map_app, IH. reflexivity.
Qed.

Lemma triplets_length p frame c n plane :
  0 <= n -> Z.of_nat (length (triplets p frame c n plane)) = 3 * n.
Proof.
  intros Hn. unfold triplets.
  assert (H : forall l : list Z,
             length (flat_map (fun i => triplet p frame (c + i) i (plane i)) l)
             = (3 * length l)%nat).
  { induction l as [|i l IH]; [reflexivity|]. cbn [flat_map].
    rewrite length_app, IH. cbn. lia. }
  rewrite H, upto_length. lia.
Qed.

(** C6, as the code has it: a frame with one active FEM, with the buffer
    allocated and the configured image holding the image the pixel loops
    cover, makes [process_frame] return after pushing exactly [num_images]
    triplets of a "data", an "img_num" and a "frame_num" frame; the triplets
    are stamped with the image counter, which goes up by one from each
    triplet to the next, and when [process_frame] returns the counter has
    advanced by the number of triplets pushed, so that the next frame goes on
    where this one stopped. *)
Theorem one_triplet_per_image heap frame r buf :
  fault r = None ->
  malloc heap (image_pixels_ (plugin r) * 2) = Some buf ->
  num_active_fems (hdr frame) = 1 ->
  0 <= num_images_ (plugin r) < 2 ^ 32 ->
  geometry_pixels K <= image_pixels_ (plugin r) ->
  let r' := process_frame K heap frame r in
  let c := image_counter_ (plugin r) in
  let n := num_images_ (plugin r) in
  fault r' = None /\
  image_counter_ (plugin r') = c + n /\
  exists out,
    pushed r' = pushed r ++ out /\
    Z.of_nat (length out) = 3 * n /\
    map (fun o => (out_name o, out_frame_number o)) out
    = flat_map (fun i => [("data"%string, c + i); ("img_num"%string, c + i);
                          ("frame_num"%string, c + i)]) (upto n).
Proof.
  intros Hr Hm Hfems Hn Hfit r' c n.
  destruct (process_frame_pushed heap frame r buf Hr Hm ltac:(lia) Hfit)
    as ((plane & Hp) & _ & Hone).
  fold r' c in Hp, Hone.
  rewrite (wrap32_small (num_images_ (plugin r)) Hn) in Hp, Hone. fold n in Hp, Hone.
  destruct (Hone Hfems) as [Hrun Hc].
  split; [exact Hrun|]. split; [exact Hc|].
  exists (triplets (plugin r) frame c n plane).
  split; [exact Hp|]. split; [apply triplets_length; lia|].
  apply triplets_stamps.
Qed.

(** C10: in every triplet pushed for a frame the payload of the "img_num"
    frame is the index of the image within the frame, from 0 to
    [num_images - 1], and not the image counter; the image counter is the
    number given to [set_frame_number] of all three frames; and the frame
    number of the detector is the payload of the "frame_num" frame. *)
Theorem triplet_payloads heap frame r buf :
  fault r = None ->
  malloc heap (image_pixels_ (plugin r) * 2) = Some buf ->
  0 < num_active_fems (hdr frame) ->
  0 <= num_images_ (plugin r) < 2 ^ 32 ->
  geometry_pixels K <= image_pixels_ (plugin r) ->
  let r' := process_frame K heap frame r in
  let c := image_counter_ (plugin r) in
  exists plane,
    pushed r' = pushed r ++
      flat_map (fun i =>
        [ {| out_name := "data"; out_frame_number := c + i;
             out_dimensions := [image_height_ (plugin r); image_width_ (plugin r)];
             out_data := Samples (plane i) |};
          {| out_name := "img_num"; out_frame_number := c + i;
             out_dimensions := [1]; out_data := Word32 i |};
          {| out_name := "frame_num"; out_frame_number := c + i;
             out_dimensions := [1];
             out_data := Word32 (frame_number (hdr frame)) |} ])
        (upto (num_images_ (plugin r))).
Proof.
  intros Hr Hm Hfems Hn Hfit r' c.
  destruct (process_frame_pushed heap frame r buf Hr Hm Hfems Hfit)
    as ((plane & Hp) & _).
  rewrite (wrap32_small (num_images_ (plugin r)) Hn) in Hp.
  exists plane. exact Hp.
Qed.

(** *** Stores and the size of the buffer *)

Lemma reorder_pixel_offsets frame idx image pixel_row pixel_col asic_row asic_col r :
  0 <= pixel_row < num_pixel_rows_per_asic K ->
  0 <= pixel_col < num_pixel_cols_per_asic K ->
  0 <= asic_row < num_asic_rows K ->
  0 <= asic_col < num_asic_cols K ->
  Forall (fun s => 0 <= st_offset s < geometry_pixels K) (stores r) ->
  Forall (fun s => 0 <= st_offset s < geometry_pixels K)
    (stores (reorder_pixel K frame idx image
               (wrap32 (num_asic_cols K * num_pixel_cols_per_asic K))
               (wrap32 (asic_row * num_pixel_rows_per_asic K + pixel_row))
               pixel_col r asic_col)).
Proof.
  intros Hpr Hpc Har Hac Hs.
  pose proof (output_offset_bound pixel_row pixel_col asic_row asic_col Hpr Hpc Har Hac)
    as Hoff.
  unfold reorder_pixel, when_running, next_packet, store. cbn.
  run_cases; try congruence; unfold_prims; try assumption.
  all: apply Forall_app; split; [assumption|]; constructor; [exact Hoff | constructor].
Qed.

Lemma process_frame_no_fems heap frame r :
  fault r = None -> num_active_fems (hdr frame) <= 0 ->
  fault (process_frame K heap frame r) = None.
Proof.
  intros Hr Hn. unfold process_frame, when_running. rewrite Hr. cbv zeta.
  set (r0 := add_log TRACE (FrameSize (data_size frame)) (add_log TRACE ReorderingFrame r)).
  destruct (process_lost_packets_effect frame r0)
    as (_ & _ & _ & _ & _ & _ & _ & _ & E9 & _).
  set (r2 := process_lost_packets K frame r0) in *. clearbody r2.
  unfold try_block. rewrite (upto_nonpos _ Hn).
  destruct (malloc heap _); cbn; rewrite E9; exact Hr.
Qed.

(** C5, as the code has it: when the configured image ([image_pixels_], the
    product of width and height) holds the image the pixel loops cover, every
    store of [process_frame] is at an offset below [image_width_ *
    image_height_], whichever packets are missing, and for a frame of at most
    one active FEM every store lands in the allocated buffer: the run does
    not fault. *)
Theorem stores_inside_configured_image heap frame p :
  geometry_pixels K <= image_pixels_ p ->
  image_pixels_ p = image_width_ p * image_height_ p ->
  let r' := process_frame K heap frame (start p) in
  (forall s, In s (stores r') -> 0 <= st_offset s < image_width_ p * image_height_ p) /\
  (num_active_fems (hdr frame) <= 1 -> fault r' = None).
Proof.
  intros Hfit Hpix r'. split.
  - assert (H : Forall (fun s => 0 <= st_offset s < geometry_pixels K) (stores r')).
    { apply (process_frame_stores frame
               (fun l _ => Forall (fun s => 0 <= st_offset s < geometry_pixels K) l)
               (Forall (fun s => 0 <= st_offset s < geometry_pixels K))).
      - intros l Hl. exact Hl.
      - intros l _ Hl. exact Hl.
      - intros idx image nppr pixel_row pixel_col asic_row asic_col r
               Hpr Hpc Har Hac -> Hs.
        now apply reorder_pixel_offsets.
      - constructor. }
    rewrite Stdlib.Lists.List.Forall_forall in H.
    intros s Hs. specialize (H s Hs). cbn in H. lia.
  - intros Hfems.
    destruct (Z.le_gt_cases (num_active_fems (hdr frame)) 0) as [H0|H0].
    + now apply process_frame_no_fems.
    + destruct (malloc heap (image_pixels_ p * 2)) as [buf|] eqn:Hm.
      * assert (H1 : num_active_fems (hdr frame) = 1) by lia.
        now apply (process_frame_pushed heap frame (start p) buf eq_refl Hm
                     ltac:(lia) Hfit).
      * now apply (process_frame_alloc_failure heap frame (start p) eq_refl Hm).
Qed.

End PluginFacts.

(** ** Instances *)

Section Witnesses.
Import Lpd FrameProcessor Sample.


Lemma loss_accounting_once_witness :
  packets_lost_ (plugin (process_frame small_detector good_heap empty_frame
                           (start (configured 4 4 1)))) = 1.
Proof.
  apply (loss_accounting_once small_detector good_heap empty_frame
           (start (configured 4 4 1))).
  - reflexivity.
  - unfold int_range. vm_compute. split; [discriminate | reflexivity].
Defined.

(** C3 as stated fails where the [int] counter ends: seeded with 2147483647
    through [configure], the counter is at -2147483648 after a frame that
    lost one packet, not at the sum. *)
Lemma loss_accounting_overflows :
  let p := fst (configure {[ "packets_lost"%string := 2147483647 ]} ∅ (configured 4 4 1)) in
  let r' := process_frame small_detector good_heap empty_frame (start p) in
  let expected := num_packets small_detector * num_active_fems (hdr empty_frame) in
  let received := total_packets_received (hdr empty_frame) in
  packets_lost_ p = 2147483647 /\
  Z.max 0 (expected - received) = 1 /\
  packets_lost_ (plugin r') = -2147483648 /\
  packets_lost_ (plugin r') <> packets_lost_ p + Z.max 0 (expected - received).
Proof.
  intros p r' expected received.
  split; [vm_compute; reflexivity|]. split; [reflexivity|].
  split; [vm_compute; reflexivity | vm_compute; discriminate].
Qed.

Lemma allocation_failure_aborts_frame_witness :
  pushed (process_frame small_detector full_heap full_frame
            (start (configured 4 4 1))) = [].
Proof.
  apply (allocation_failure_aborts_frame small_detector full_heap full_frame
           (start (configured 4 4 1))); reflexivity.
Defined.

Lemma configured_4_4_2 :
  configured 4 4 2
  = {| image_width_ := 4; image_height_ := 4; image_pixels_ := 16;
       num_images_ := 2; packets_lost_ := 0; image_counter_ := 0 |}.
Proof. vm_compute. reflexivity. Qed.

Lemma small_detector_positive : positive_geometry small_detector.
Proof. unfold positive_geometry. cbn. lia. Qed.

Lemma one_triplet_per_image_witness :
  let r' := process_frame small_detector good_heap full_frame (start (configured 4 4 2)) in
  length (pushed r') = 6%nat /\ image_counter_ (plugin r') = 2 /\ fault r' = None.
Proof.
  rewrite configured_4_4_2. intros r'.
  destruct (one_triplet_per_image small_detector good_heap full_frame
              (start {| image_width_ := 4; image_height_ := 4; image_pixels_ := 16;
                        num_images_ := 2; packets_lost_ := 0; image_counter_ := 0 |})
              (map (garbage good_heap) (upto 16)))
    as (Hrun & Hc & out & Hp & Hl & _);
    [ reflexivity | reflexivity | reflexivity | cbn; lia
    | unfold geometry_pixels, image_rows, row_pixels; cbn; lia | ].
  fold r' in Hp, Hc, Hrun.
  split; [|split].
  - rewrite Hp, length_app.
    change (Z.of_nat (length out) = 6) in Hl.
    change (length (pushed (start {| image_width_ := 4; image_height_ := 4;
                                     image_pixels_ := 16; num_images_ := 2;
                                     packets_lost_ := 0; image_counter_ := 0 |})))
      with 0%nat.
    lia.
  - exact Hc.
  - exact Hrun.
Defined.

(** C6 as stated fails.  With two active FEMs [process_frame] pushes the
    triplet of the first FEM and then stores through the pointer it set to
    null after that FEM: it does not complete.  With one active FEM, nothing
    is pushed when the buffer cannot be allocated, and with an image
    configured smaller than the one the pixel loops cover the first store
    leaves the buffer before anything is pushed. *)
Lemma triplets_not_for_every_frame :
  let two := process_frame small_detector good_heap two_fem_frame (start (configured 4 4 1)) in
  let unallocated := process_frame small_detector full_heap full_frame
                       (start (configured 4 4 2)) in
  let small := process_frame small_detector good_heap full_frame (start (configured 2 2 1)) in
  (num_active_fems (hdr two_fem_frame) = 2 /\
   fault two = Some (NullWrite 12) /\ length (pushed two) = 3%nat) /\
  (num_active_fems (hdr full_frame) = 1 /\ num_images_ (configured 4 4 2) = 2 /\
   fault unallocated = None /\ pushed unallocated = []) /\
  (num_images_ (configured 2 2 1) = 1 /\
   fault small = Some (WriteOutOfBounds 12) /\ pushed small = []).
Proof. vm_compute. repeat split; reflexivity. Qed.

Lemma triplet_payloads_witness :
  exists plane0 plane1,
    pushed (process_frame small_detector good_heap full_frame (start (configured 4 4 2)))
    = [ {| out_name := "data"; out_frame_number := 0; out_dimensions := [4; 4];
           out_data := Samples plane0 |};
        {| out_name := "img_num"; out_frame_number := 0; out_dimensions := [1];
           out_data := Word32 0 |};
        {| out_name := "frame_num"; out_frame_number := 0; out_dimensions := [1];
           out_data := Word32 7 |};
        {| out_name := "data"; out_frame_number := 1; out_dimensions := [4; 4];
           out_data := Samples plane1 |};
        {| out_name := "img_num"; out_frame_number := 1; out_dimensions := [1];
           out_data := Word32 1 |};
        {| out_name := "frame_num"; out_frame_number := 1; out_dimensions := [1];
           out_data := Word32 7 |} ].
Proof.
  rewrite configured_4_4_2.
  destruct (triplet_payloads small_detector good_heap full_frame
              (start {| image_width_ := 4; image_height_ := 4; image_pixels_ := 16;
                        num_images_ := 2; packets_lost_ := 0; image_counter_ := 0 |})
              (map (garbage good_heap) (upto 16)))
    as (plane & Hp);
    [ reflexivity | reflexivity | reflexivity | cbn; lia
    | unfold geometry_pixels, image_rows, row_pixels; cbn; lia | ].
  exists (plane 0), (plane 1). exact Hp.
Defined.

Lemma stores_inside_configured_image_witness :
  fault (process_frame small_detector good_heap empty_frame (start (configured 4 4 2)))
  = None.
Proof.
  rewrite configured_4_4_2.
  apply (stores_inside_configured_image small_detector good_heap empty_frame
           {| image_width_ := 4; image_height_ := 4; image_pixels_ := 16;
              num_images_ := 2; packets_lost_ := 0; image_counter_ := 0 |});
    [ unfold geometry_pixels, image_rows, row_pixels; cbn; lia | reflexivity | cbn; lia ].
Defined.

(** C5 as stated fails: with a 2 x 2 image configured for a detector whose
    pixel loops cover 4 x 4 pixels, the first store of the frame is at offset
    12, beyond the 4 samples of the buffer. *)
Lemma stores_beyond_configured_image :
  let p := configured 2 2 1 in
  let r := process_frame small_detector good_heap full_frame (start p) in
  image_pixels_ p = image_width_ p * image_height_ p /\
  malloc good_heap (image_pixels_ p * 2) = Some [43690; 43690; 43690; 43690] /\
  (exists s, In s (stores r) /\ image_width_ p * image_height_ p <= st_offset s) /\
  fault r = Some (WriteOutOfBounds 12).
Proof.
  intros p r. split; [vm_compute; reflexivity|]. split; [vm_compute; reflexivity|].
  split; [|vm_compute; reflexivity].
  exists {| st_fem := 0; st_image := 0; st_pkt_num := 0; st_pkt_slot := 0;
            st_pixel_offset := 0; st_offset := 12; st_value := 1008 |}.
  split; [vm_compute; left; reflexivity | vm_compute; discriminate].
Qed.

(** C2 on a frame of two active FEMs whose second FEM misses its packet:
    the store made for the second FEM has the slot of the first one, read
    from the same byte, and copies an input sample; it goes to offset 12,
    where the first store of the first FEM went; and it goes through the
    pointer that was set to null when the buffer was freed after the first
    FEM. *)
Lemma second_fem_uses_first_fem_state :
  let r := process_frame small_detector good_heap two_fem_frame (start (configured 4 4 1)) in
  packets_received (fem_rx_state (hdr two_fem_frame) 1) = 0 /\
  active_fem_idx (hdr two_fem_frame) 1 = 1 /\
  List.filter (fun s => st_fem s =? 1) (stores r)
  = [ {| st_fem := 1; st_image := 0; st_pkt_num := 0; st_pkt_slot := 0;
         st_pixel_offset := 0; st_offset := 12; st_value := 2000 |} ] /\
  nth_error (stores r) 0
  = Some {| st_fem := 0; st_image := 0; st_pkt_num := 0; st_pkt_slot := 0;
            st_pixel_offset := 0; st_offset := 12; st_value := 1008 |} /\
  fault r = Some (NullWrite 12) /\
  length (pushed r) = 3%nat.
Proof. vm_compute. repeat split; reflexivity. Qed.

(** The scenarios of the design document: 320 primary packets and the tail
    packet complete a frame; without the tail packet the frame times out and
    is dropped with one packet lost. *)
Example frame_of_321_packets_completes :
  let b := FrameAssembler.run bitDepth12 (packets_in_order 321) in
  frame_state (FrameAssembler.header b) = FrameAssembler.state_code FrameAssembler.Complete /\
  total_packets_received (FrameAssembler.header b) = 321.
Proof. vm_compute. split; reflexivity. Qed.

Example frame_without_tail_is_dropped :
  let b := FrameAssembler.run bitDepth12 (packets_in_order 320 ++ [FrameAssembler.Timeout]) in
  frame_state (FrameAssembler.header b) = FrameAssembler.state_code FrameAssembler.Dropped /\
  FrameAssembler.lost b = 1.
Proof. vm_compute. split; reflexivity. Qed.

Lemma complete_iff_all_fems_complete_witness :
  FrameAssembler.lost
    (FrameAssembler.run bitDepth12 (packets_in_order 320 ++ [FrameAssembler.Timeout]))
  = (320 + num_tail_packets) * 1 - 320.
Proof.
  apply (complete_iff_all_fems_complete bitDepth12 320
           (packets_in_order 320 ++ [FrameAssembler.Timeout])).
  - reflexivity.
  - vm_compute. reflexivity.
Defined.

End Witnesses.

(** ** Further properties of the code *)

(** *** The definitions of the header *)

Section HeaderFacts.
Import Lpd.

(** X1: the three masks of LpdDefinitions.h split a 32-bit trailer word: the
    start-of-frame bit, the end-of-frame bit and the packet number taken with
    [start_of_frame_mask], [end_of_frame_mask] and [packet_number_mask] put
    together give the word back, and no two masks share a bit. *)
Theorem masks_cover_word w :
  0 <= w < 2 ^ 32 ->
  Z.lor (Z.lor (Z.land w start_of_frame_mask) (Z.land w end_of_frame_mask))
        (Z.land w packet_number_mask) = w /\
  Z.land start_of_frame_mask end_of_frame_mask = 0 /\
  Z.land start_of_frame_mask packet_number_mask = 0 /\
  Z.land end_of_frame_mask packet_number_mask = 0.
Proof.
  intros Hw. split; [|repeat split].
  rewrite <- !Z.land_lor_distr_r.
  change (Z.lor (Z.lor start_of_frame_mask end_of_frame_mask) packet_number_mask)
    with (Z.ones 32).
  rewrite Z.land_ones by lia. now apply Z.mod_small.
Qed.

(** X2: [num_fem_frame_packets] is defined for the four bit depths and for no
    other, and the packet count it gives is positive and at most
    [max_primary_packets + num_tail_packets], the length of a row of
    [FemReceiveState::packet_state]. *)
Theorem packet_count_fits_packet_state bit_depth :
  match num_fem_frame_packets bit_depth with
  | Some n => bit_depth <> bitDepthUnknown /\
              0 < n <= max_primary_packets + num_tail_packets
  | None => bit_depth = bitDepthUnknown
  end.
Proof. destruct bit_depth; cbn; repeat split; (discriminate || lia || reflexivity). Qed.

End HeaderFacts.

(** *** Configuration messages in sequence *)

Section ConfigureMore.
Import Lpd FrameProcessor.

(** X3: two configuration messages applied one after the other leave the
    plugin as the single message that holds the parameters of both, those of
    the later message taking precedence, would. *)
Theorem configure_twice (c1 c2 reply1 reply2 reply : gmap string Z) p :
  fst (configure c2 reply2 (fst (configure c1 reply1 p)))
  = fst (configure (c2 ∪ c1) reply p).
Proof.
  unfold configure, configure_param. cbn [fst].
  rewrite !lookup_union.
  destruct (c2 !! CONFIG_DROPPED_PACKETS), (c1 !! CONFIG_DROPPED_PACKETS),
    (c2 !! CONFIG_IMAGE_WIDTH), (c1 !! CONFIG_IMAGE_WIDTH),
    (c2 !! CONFIG_IMAGE_HEIGHT), (c1 !! CONFIG_IMAGE_HEIGHT),
    (c2 !! CONFIG_NUM_IMAGES), (c1 !! CONFIG_NUM_IMAGES); reflexivity.
Qed.

End ConfigureMore.

(** *** What a frame never undoes *)

Section GrowthFacts.
Import Lpd FrameProcessor Growth Lifetime.

Variable K : PluginConstants.

Lemma extends_refl r : extends r r.
Proof.
  unfold extends. repeat split; try lia; exists []; symmetry; apply app_nil_r.
Qed.

Lemma extends_trans r1 r2 r3 : extends r1 r2 -> extends r2 r3 -> extends r1 r3.
Proof.
  intros (A1 & A2 & A3 & A4 & A6 & (o1 & A7) & (l1 & A8) & (s1 & A9))
         (B1 & B2 & B3 & B4 & B6 & (o2 & B7) & (l2 & B8) & (s2 & B9)).
  unfold extends. repeat split; try congruence; try lia.
  - exists (o1 ++ o2). now rewrite B7, A7, app_assoc.
  - exists (l1 ++ l2). now rewrite B8, A8, app_assoc.
  - exists (s1 ++ s2). now rewrite B9, A9, app_assoc.
Qed.

Ltac innermost_case :=
  match goal with
  | |- context [match ?x with _ => _ end] =>
      lazymatch x with
      | context [match _ with _ => _ end] => fail
      | _ => destruct x eqn:?
      end
  end.

Ltac all_cases := repeat (innermost_case; cbn in * ).

Ltac unfold_setters :=
  unfold set_reordered_image, add_store, set_cursor, set_fault, add_log, push,
    set_plugin in *;
  cbn in *.

Ltac solve_extends :=
  try congruence;
  first
    [ apply extends_refl
    | unfold_setters; unfold extends; cbn;
      repeat split; try lia;
      eexists;
      first [ reflexivity | rewrite <- !app_assoc; reflexivity
            | symmetry; apply app_nil_r ] ].

Lemma reorder_pixel_extends frame idx image nppr image_row pixel_col r asic_col :
  extends r (reorder_pixel K frame idx image nppr image_row pixel_col r asic_col).
Proof.
  unfold reorder_pixel, when_running, next_packet, store.
  cbn. all_cases; solve_extends.
Qed.

Lemma fold_extends {B} (f : Run -> B -> Run) (l : list B) r :
  (forall a b, extends a (f a b)) -> extends r (fold_left f l r).
Proof.
  intros Hf. apply (fold_left_inv (extends r)); [|apply extends_refl].
  intros a b _ Ha. eapply extends_trans; [exact Ha | apply Hf].
Qed.

Lemma reorder_pixels_extends frame idx image nppr r :
  extends r (reorder_pixels K frame idx image nppr r).
Proof.
  unfold reorder_pixels.
  repeat (apply fold_extends; intros ? ?).
  apply reorder_pixel_extends.
Qed.

Lemma push_image_extends frame image_size image buf r :
  extends r (push_image frame image_size image buf r).
Proof. unfold push_image. solve_extends. Qed.

Lemma reorder_image_extends frame image_size idx nppr r image :
  extends r (reorder_image K frame image_size idx nppr r image).
Proof.
  unfold reorder_image, when_running.
  destruct (fault r); [apply extends_refl|].
  set (r1 := add_log TRACE (ReadingImage image) r).
  assert (H1 : extends r r1) by (subst r1; solve_extends).
  set (r2 := reorder_pixels K frame idx image nppr r1).
  assert (H2 : extends r r2)
    by (eapply extends_trans; [exact H1 | apply reorder_pixels_extends]).
  clearbody r2. destruct (fault r2); [assumption|].
  eapply extends_trans; [exact H2|].
  destruct (reordered_image r2) as [buf|].
  - apply extends_trans with (push_image frame image_size image buf r2);
      [apply push_image_extends | solve_extends].
  - solve_extends.
Qed.

Lemma reorder_fem_extends frame image_size r idx :
  extends r (reorder_fem K frame image_size r idx).
Proof.
  unfold reorder_fem, when_running.
  destruct (fault r); [apply extends_refl|].
  match goal with
  | |- context [fold_left ?f ?l ?a] =>
      assert (H1 : extends r a) by solve_extends;
      assert (H2 : extends r (fold_left f l a))
        by (eapply extends_trans;
            [exact H1 | apply fold_extends; intros; apply reorder_image_extends]);
      generalize dependent (fold_left f l a)
  end.
  intros r2 H2. destruct (fault r2); [assumption|].
  destruct (reordered_image r2); [|assumption].
  eapply extends_trans; [exact H2 | solve_extends].
Qed.

Lemma process_lost_packets_extends frame r :
  extends r (process_lost_packets K frame r).
Proof.
  unfold process_lost_packets.
  destruct (Z.ltb_spec (total_packets_received (hdr frame))
              (num_packets K * num_active_fems (hdr frame))); solve_extends.
Qed.

Lemma try_block_extends heap frame image_size r :
  match try_block K heap frame image_size r with
  | Returned r' => extends r r'
  | Thrown _ r' => r' = r
  end.
Proof.
  unfold try_block. destruct (malloc heap _); [|reflexivity].
  eapply extends_trans; [|apply fold_extends; intros; apply reorder_fem_extends].
  solve_extends.
Qed.

Lemma process_frame_unfold heap frame r :
  fault r = None ->
  process_frame K heap frame r
  = let r2 := process_lost_packets K frame
                (add_log TRACE (FrameSize (data_size frame))
                   (add_log TRACE ReorderingFrame r)) in
    let h := hdr frame in
    let r3 := add_log TRACE (ActiveFems (num_active_fems h)
                               (map (active_fem_idx h) (upto (num_active_fems h))))
                (add_log TRACE (PacketsAndMarkers (total_packets_received h)
                                  (total_sof_marker_count h) (total_eof_marker_count h))
                   (add_log TRACE (FrameState (frame_state h))
                      (add_log TRACE (RawFrameNumber (frame_number h)) r2))) in
    let image_size := wrap32 (image_width_ (plugin r3) * image_height_ (plugin r3) * 2) in
    let r4 := set_reordered_image None (add_log TRACE (OutputImageSize image_size) r3) in
    match try_block K heap frame image_size r4 with
    | Returned r' => r'
    | Thrown what r' =>
        add_log ERROR (DecodeFailed (String.append "LPD frame decode failed: " what))
          match reordered_image r' with
          | Some _ => set_reordered_image None r'
          | None => r'
          end
    end.
Proof. intros Hr. unfold process_frame, when_running. rewrite Hr. reflexivity. Qed.

Lemma process_frame_extends heap frame r :
  extends r (process_frame K heap frame r).
Proof.
  destruct (fault r) eqn:Hr.
  - unfold process_frame. rewrite (when_running_faulted _ _ _ Hr). apply extends_refl.
  - rewrite (process_frame_unfold heap frame r Hr). cbv zeta.
    set (r0 := add_log TRACE (FrameSize (data_size frame)) _).
    assert (H0 : extends r r0) by (subst r0; solve_extends).
    pose proof (process_lost_packets_extends frame r0) as H2.
    set (r2 := process_lost_packets K frame r0) in *. clearbody r2.
    set (r3 := add_log TRACE (ActiveFems _ _) _).
    assert (H3 : extends r2 r3) by (subst r3; solve_extends).
    clearbody r3.
    set (r4 := set_reordered_image None _).
    assert (H4 : extends r3 r4) by (subst r4; solve_extends).
    assert (H : extends r r4)
      by (eapply extends_trans; [exact H0|]; eapply extends_trans; [exact H2|];
          eapply extends_trans; [exact H3 | exact H4]).
    clearbody r4.
    pose proof (try_block_extends heap frame
                  (wrap32 (image_width_ (plugin r3) * image_height_ (plugin r3) * 2)) r4) as H5.
    destruct (try_block K heap frame _ r4) as [r5|what r5].
    + eapply extends_trans; eassumption.
    + subst r5. eapply extends_trans; [exact H|].
      destruct (reordered_image r4); solve_extends.
Qed.

(** X4: over any sequence of frames, nothing already pushed, logged or stored
    is taken back or altered, the image counter never goes down, and width,
    height, pixel count and number of images stay as they are. *)
Theorem process_frames_extends frames r :
  extends r (process_frames K frames r).
Proof.
  unfold process_frames. apply fold_extends. intros a [heap frame].
  apply process_frame_extends.
Qed.

(** X5: whatever sequence of [configure] and [process_frame] calls a freshly
    constructed plugin has gone through, [image_pixels_] is the [int] product
    of [image_width_] and [image_height_], and so their product whenever
    that is a value of an [int]. *)
Theorem pixels_are_width_times_height ops :
  let p := plugin (lifetime K ops) in
  image_pixels_ p = int32 (image_width_ p * image_height_ p) /\
  (int_range (image_width_ p * image_height_ p) ->
   image_pixels_ p = image_width_ p * image_height_ p).
Proof.
  cbv zeta.
  assert (H : image_pixels_ (plugin (lifetime K ops))
              = int32 (image_width_ (plugin (lifetime K ops))
                       * image_height_ (plugin (lifetime K ops)))).
  { unfold lifetime.
    apply (fold_left_inv
             (fun r => image_pixels_ (plugin r)
                       = int32 (image_width_ (plugin r) * image_height_ (plugin r)))).
    - intros r [config reply|heap frame] _ Hr; cbn [operate].
      + unfold configure. reflexivity.
      + destruct (process_frame_extends heap frame r) as (E1 & E2 & E3 & _).
        now rewrite E1, E2, E3.
    - reflexivity. }
  split; [exact H|]. intros Hfit. rewrite H. now apply int32_small.
Qed.

End GrowthFacts.

(** *** Frames without FEMs, plugins without images, and the counters *)

Section EdgeFacts.
Import Lpd FrameProcessor Growth Lifetime.

Variable K : PluginConstants.

Ltac innermost_case :=
  match goal with
  | |- context [match ?x with _ => _ end] =>
      lazymatch x with
      | context [match _ with _ => _ end] => fail
      | _ => destruct x eqn:?
      end
  end.

Ltac all_cases := repeat (innermost_case; cbn in * ).

Ltac unfold_setters :=
  unfold set_reordered_image, add_store, set_cursor, set_fault, add_log, push,
    set_plugin in *;
  cbn in *.

(** X6: a frame without active FEMs.  Nothing is reordered, pushed or counted,
    and the buffer allocated for the reordered image is still allocated when
    [process_frame] returns: the only [free] on the normal path is inside the
    loop over the FEMs. *)
Theorem no_active_fems heap frame r :
  fault r = None ->
  num_active_fems (hdr frame) = 0 ->
  0 <= total_packets_received (hdr frame) ->
  let r' := process_frame K heap frame r in
  fault r' = None /\
  pushed r' = pushed r /\
  stores r' = stores r /\
  plugin r' = plugin r /\
  reordered_image r' = malloc heap (image_pixels_ (plugin r) * 2).
Proof.
  intros Hr Hn Ht. cbv zeta. rewrite (process_frame_unfold K heap frame r Hr). cbv zeta.
  set (r0 := add_log TRACE (FrameSize (data_size frame)) _).
  assert (E : process_lost_packets K frame r0 = 
              add_log DEBUG (PacketsReceivedOutOf (total_packets_received (hdr frame))
                               (num_packets K * num_active_fems (hdr frame)))
                (add_log DEBUG (ProcessingLostPackets (frame_number (hdr frame))) r0)).
  { unfold process_lost_packets. rewrite Hn, Z.mul_0_r.
    destruct (Z.ltb_spec (total_packets_received (hdr frame)) 0); [lia | reflexivity]. }
  rewrite E. unfold try_block. rewrite Hn. change (upto 0) with (@nil Z). cbn.
  destruct (malloc heap (image_pixels_ (plugin r) * 2)); cbn; repeat split; assumption.
Qed.

(** With [num_images_] zero nothing is reordered either, however many FEMs
    are active, and the buffer is freed by the first FEM. *)
Lemma reorder_fem_no_images frame image_size r idx :
  wrap32 (num_images_ (plugin r)) = 0 ->
  let r' := reorder_fem K frame image_size r idx in
  fault r' = fault r /\ pushed r' = pushed r /\ stores r' = stores r /\
  plugin r' = plugin r /\
  (fault r = None -> reordered_image r' = None).
Proof.
  intros Hn. unfold reorder_fem, when_running.
  destruct (fault r) eqn:Hf; [repeat split; congruence|].
  cbv zeta. rewrite Hn. change (upto 0) with (@nil Z). cbn. rewrite Hf.
  destruct (reordered_image r) eqn:Hb; cbn; repeat split; try assumption;
    intros; first [reflexivity | assumption].
Qed.

(** X7: a plugin configured for no images.  A frame goes through without a
    store and without a push, the image counter stays, and with at least one
    active FEM the buffer is freed. *)
Theorem no_images heap frame r :
  fault r = None ->
  wrap32 (num_images_ (plugin r)) = 0 ->
  let r' := process_frame K heap frame r in
  fault r' = None /\
  pushed r' = pushed r /\
  stores r' = stores r /\
  image_counter_ (plugin r') = image_counter_ (plugin r) /\
  (0 < num_active_fems (hdr frame) -> reordered_image r' = None).
Proof.
  intros Hr Hn. cbv zeta. rewrite (process_frame_unfold K heap frame r Hr). cbv zeta.
  set (r0 := add_log TRACE (FrameSize (data_size frame)) _).
  destruct (process_lost_packets_effect K frame r0)
    as (_ & _ & _ & E4 & E5 & E6 & E7 & E8 & E9 & _ & _).
  set (r2 := process_lost_packets K frame r0) in *. clearbody r2.
  cbn in E4, E5, E6, E7, E8, E9.
  unfold try_block. cbn [plugin set_reordered_image add_log].
  destruct (malloc heap (image_pixels_ (plugin r2) * 2)) as [buf|].
  - set (r3 := set_reordered_image (Some buf) _).
    assert (H : forall l a,
               fault a = None -> wrap32 (num_images_ (plugin a)) = 0 ->
               let a' := fold_left (reorder_fem K frame
                           (wrap32 (image_width_ (plugin r2) * image_height_ (plugin r2) * 2)))
                           l a in
               fault a' = None /\ pushed a' = pushed a /\ stores a' = stores a /\
               plugin a' = plugin a /\
               (l <> [] -> reordered_image a' = None)).
    { induction l as [|idx l IH]; intros a Ha Hna; cbn [fold_left].
      - repeat split; try assumption. congruence.
      - destruct (reorder_fem_no_images frame
                    (wrap32 (image_width_ (plugin r2) * image_height_ (plugin r2) * 2))
                    a idx Hna) as (F1 & F2 & F3 & F4 & F5).
        set (a1 := reorder_fem K frame _ a idx) in *. clearbody a1.
        destruct (IH a1) as (G1 & G2 & G3 & G4 & G5); [congruence | congruence |].
        repeat split; try congruence.
        intros _. destruct l as [|idx' l'].
        + cbn. now apply F5.
        + apply G5. discriminate. }
    destruct (H (upto (num_active_fems (hdr frame))) r3) as (G1 & G2 & G3 & G4 & G5).
    + cbn. congruence.
    + cbn. now rewrite E5.
    + repeat split; try assumption.
      * rewrite G2. exact E7.
      * rewrite G3. exact E8.
      * rewrite G4. exact E6.
      * intros Hpos. apply G5. now apply upto_nonempty.
  - cbn. repeat split; try assumption. congruence.
Qed.

(** A store reads within the packet it is made for: the pixel offset is
    below the [primary_packet_size / 2] samples of a packet. *)
Lemma reorder_pixel_within_packet frame idx image nppr image_row pixel_col r asic_col :
  (0 <= pixel_offset (cursor r) <= primary_packet_size / 2) /\
  Forall (fun s => 0 <= st_pixel_offset s < primary_packet_size / 2) (stores r) ->
  let r' := reorder_pixel K frame idx image nppr image_row pixel_col r asic_col in
  (0 <= pixel_offset (cursor r') <= primary_packet_size / 2) /\
  Forall (fun s => 0 <= st_pixel_offset s < primary_packet_size / 2) (stores r').
Proof.
  intros [Hc Hs]. change (primary_packet_size / 2) with 4092 in *.
  unfold reorder_pixel, when_running, next_packet, store. cbn.
  change (primary_packet_size / 2) with 4092.
  all_cases; try congruence; unfold_setters.
  all: repeat match goal with
         | H : (_ >=? _) = true |- _ => apply Z.geb_le in H
         | H : (_ >=? _) = false |- _ => rewrite Z.geb_leb in H; apply Z.leb_gt in H
         end.
  all: try (split; [lia | assumption]).
  all: split;
    [ first [ lia
            | split; [apply wrap32_range | etransitivity; [apply wrap32_le; lia | lia]] ]
    | apply Forall_app; split; [assumption|]; constructor; [cbn; lia | constructor] ].
Qed.

(** X8: every store of a frame takes its pixel from inside a packet: the pixel
    offset within the packet is below [primary_packet_size / 2] at each
    store, whatever the frame and the settings. *)
Theorem stores_within_packet heap frame p :
  Forall (fun s => 0 <= st_pixel_offset s < primary_packet_size / 2)
    (stores (process_frame K heap frame (start p))).
Proof.
  apply (process_frame_stores K frame
           (fun l c => (0 <= pixel_offset c <= primary_packet_size / 2) /\
                       Forall (fun s => 0 <= st_pixel_offset s < primary_packet_size / 2) l)
           (Forall (fun s => 0 <= st_pixel_offset s < primary_packet_size / 2))).
  - intros l Hl. split; [|exact Hl].
    unfold first_packet. cbn [pixel_offset].
    change (primary_packet_size / 2) with 4092. lia.
  - intros l c [_ Hl]. exact Hl.
  - intros. now apply reorder_pixel_within_packet.
  - constructor.
Qed.

(** The lost-packet counter over a sequence of frames. *)
Lemma process_frame_running heap frame r :
  fault (process_frame K heap frame r) = None -> fault r = None.
Proof.
  destruct (fault r) eqn:Hr; [|reflexivity].
  unfold process_frame. rewrite (when_running_faulted _ _ _ Hr). congruence.
Qed.

Lemma process_frames_running frames r :
  fault (process_frames K frames r) = None -> fault r = None.
Proof.
  revert r. induction frames as [|[heap frame] l IH]; intros r H; [exact H|].
  apply (process_frame_running heap frame), IH, H.
Qed.

Lemma process_frame_packets_lost heap frame r :
  fault r = None ->
  int_range (packets_lost_ (plugin r) + lost_in K frame) ->
  packets_lost_ (plugin (process_frame K heap frame r))
  = packets_lost_ (plugin r) + lost_in K frame.
Proof.
  intros Hr Hfit.
  destruct (process_frame_after_accounting K heap frame r Hr) as [(_ & _ & _ & _ & HL) _].
  rewrite HL.
  apply (process_lost_packets_adds K frame
           (add_log TRACE (FrameSize (data_size frame)) (add_log TRACE ReorderingFrame r))).
  exact Hfit.
Qed.

Lemma lost_in_nonneg frame : 0 <= lost_in K frame.
Proof. unfold lost_in. lia. Qed.

Lemma total_lost_nonneg frames : 0 <= total_lost K frames.
Proof.
  induction frames as [|[heap frame] l IH]; [cbn; lia|].
  change (total_lost K ((heap, frame) :: l)) with (lost_in K frame + total_lost K l).
  pose proof (lost_in_nonneg frame). lia.
Qed.

(** As long as the sum stays a value of the [int] counter, the counter is
    the sum of what the frames lost. *)
Lemma packets_lost_accumulate_sum frames r :
  fault (process_frames K frames r) = None ->
  int_range (packets_lost_ (plugin r)) ->
  int_range (packets_lost_ (plugin r) + total_lost K frames) ->
  packets_lost_ (plugin (process_frames K frames r))
  = packets_lost_ (plugin r) + total_lost K frames.
Proof.
  revert r. induction frames as [|[heap frame] l IH]; intros r H H0 H1.
  - cbn. lia.
  - change (process_frames K ((heap, frame) :: l) r)
      with (process_frames K l (process_frame K heap frame r)) in *.
    change (total_lost K ((heap, frame) :: l)) with (lost_in K frame + total_lost K l) in *.
    pose proof (lost_in_nonneg frame) as Hl.
    pose proof (total_lost_nonneg l) as Ht.
    pose proof (process_frame_running heap frame r (process_frames_running l _ H)) as Hr.
    assert (Hfit : int_range (packets_lost_ (plugin r) + lost_in K frame))
      by (unfold int_range in *; lia).
    pose proof (process_frame_packets_lost heap frame r Hr Hfit) as E.
    rewrite (IH _ H); rewrite E; [lia | exact Hfit | unfold int_range in *; lia].
Qed.

(** [max_active_fem_idx]: no active FEM has a larger index, and the value is
    the index of an active FEM unless it is 0. *)
Lemma max_fold_bound (f : Z -> Z) (l : list Z) (m : Z) :
  let m' := fold_left (fun m idx => if f idx >? m then f idx else m) l m in
  m <= m' /\ (forall idx, In idx l -> f idx <= m') /\
  (m' = m \/ exists idx, In idx l /\ f idx = m').
Proof.
  revert m. induction l as [|i l IH]; intros m; cbn [fold_left].
  - split; [lia|]. split; [intros idx []|now left].
  - destruct (IH (if f i >? m then f i else m)) as (H1 & H2 & H3).
    set (m' := fold_left _ l _) in *. clearbody m'.
    destruct (Z.gtb_spec (f i) m).
    + split; [lia|]. split.
      * intros idx [<-|Hin]; [lia | now apply H2].
      * right. destruct H3 as [->|(idx & Hin & E)]; [exists i | exists idx]; cbn; auto.
    + split; [lia|]. split.
      * intros idx [<-|Hin]; [lia | now apply H2].
      * destruct H3 as [->|(idx & Hin & E)]; [now left | right; exists idx; cbn; auto].
Qed.

(** X9: the loop over the active FEM list computes their largest index: no
    active FEM has a larger one, and the value is 0 or the index of an active
    FEM. *)
Theorem max_active_fem_idx_is_max h :
  let m := max_active_fem_idx h in
  (forall idx, 0 <= idx < num_active_fems h -> active_fem_idx h idx <= m) /\
  (m = 0 \/ exists idx, 0 <= idx < num_active_fems h /\ active_fem_idx h idx = m).
Proof.
  unfold max_active_fem_idx.
  destruct (max_fold_bound (active_fem_idx h) (upto (num_active_fems h)) 0)
    as (_ & H2 & H3).
  split.
  - intros idx Hidx. apply H2, in_upto, Hidx.
  - destruct H3 as [->|(idx & Hin%in_upto & E)]; [now left | right; now exists idx].
Qed.

End EdgeFacts.

(** *** The status message *)

Section StatusFacts.
Import Lpd FrameProcessor Lifetime.

Variable K : PluginConstants.

(** X10: the status after a run of frames.  [status] sets the parameter
    [<name>/packets_lost] of the message and no other: it reports the
    lost-packet counter, which after a sequence of frames processed without
    a fault is the count the plugin started with plus the packets lost by
    the frames as long as that sum is a value of the [int] counter, and
    every other parameter of the message is as it was. *)
Theorem status_after_frames name msg frames r :
  fault (process_frames K frames r) = None ->
  int_range (packets_lost_ (plugin r)) ->
  int_range (packets_lost_ (plugin r) + total_lost K frames) ->
  let reported := status name msg (plugin (process_frames K frames r)) in
  reported !! String.append name "/packets_lost"
  = Some (packets_lost_ (plugin (process_frames K frames r))) /\
  reported !! String.append name "/packets_lost"
  = Some (packets_lost_ (plugin r) + total_lost K frames) /\
  forall key, key <> String.append name "/packets_lost" -> reported !! key = msg !! key.
Proof.
  intros H H0 H1. cbv zeta. unfold status. split; [|split].
  - now rewrite lookup_insert_eq.
  - rewrite lookup_insert_eq. f_equal. now apply packets_lost_accumulate_sum.
  - intros key Hk. now apply lookup_insert_ne.
Qed.

End StatusFacts.

(** *** The pixel loops, store by store *)

Section ReorderFacts.
Import Lpd FrameProcessor Reorder.

Variable K : PluginConstants.

Ltac innermost_case :=
  match goal with
  | |- context [match ?x with _ => _ end] =>
      lazymatch x with
      | context [match _ with _ => _ end] => fail
      | _ => destruct x eqn:?
      end
  end.

Ltac all_cases := repeat (innermost_case; cbn in * ).

Ltac unfold_setters :=
  unfold set_reordered_image, add_store, set_cursor, set_fault, add_log, push,
    set_plugin in *;
  cbn in *.

Lemma fold_left_flat_map {A B C} (f : A -> B -> A) (g : C -> list B) (l : list C) (a : A) :
  fold_left f (flat_map g l) a = fold_left (fun a c => fold_left f (g c) a) l a.
Proof.
  revert a. induction l as [|c l IH]; intros a; cbn [flat_map fold_left]; [reflexivity|].
  now rewrite fold_left_app, IH.
Qed.

Lemma fold_left_map {A B C} (f : A -> B -> A) (g : C -> B) (l : list C) (a : A) :
  fold_left f (map g l) a = fold_left (fun a c => f a (g c)) l a.
Proof.
  revert a. induction l as [|c l IH]; intros a; cbn [map fold_left]; [reflexivity|].
  apply IH.
Qed.

(** The four loops are one loop over [scan]. *)
Lemma reorder_pixels_scan frame idx image nppr r :
  reorder_pixels K frame idx image nppr r
  = fold_left (fun r c => reorder_pixel K frame idx image nppr
                            (fst (fst c)) (snd (fst c)) r (snd c))
              (scan K) r.
Proof.
  unfold reorder_pixels, scan.
  rewrite fold_left_flat_map. apply fold_left_ext_eq. intros r1 pixel_row.
  rewrite fold_left_flat_map. apply fold_left_ext_eq. intros r2 pixel_col.
  rewrite fold_left_flat_map. apply fold_left_ext_eq. intros r3 asic_row.
  rewrite fold_left_map. reflexivity.
Qed.

Lemma scan_in_range c :
  In c (scan K) -> 0 <= output_offset_at K c < geometry_pixels K.
Proof.
  unfold scan. intros H.
  apply in_flat_map in H as (pixel_row & Hpr%in_downto & H).
  apply in_flat_map in H as (pixel_col & Hpc%in_upto & H).
  apply in_flat_map in H as (asic_row & Har%in_downto & H).
  apply in_map_iff in H as (asic_col & <- & Hac%in_upto).
  cbn [output_offset_at]. now apply output_offset_bound.
Qed.

Lemma cursor_locate pkt off g :
  0 <= pkt -> 0 <= off <= 4092 -> pkt * 4092 + off = g ->
  (4092 <= off -> g / 4092 = pkt + 1 /\ g mod 4092 = 0) /\
  (off < 4092 -> g / 4092 = pkt /\ g mod 4092 = off).
Proof.
  intros Hp Ho Hg. split; intros H.
  - split; symmetry;
      [apply (Z.div_unique g 4092 _ 0) | apply (Z.mod_unique g 4092 (pkt + 1) 0)]; lia.
  - split; symmetry;
      [apply (Z.div_unique g 4092 _ off) | apply (Z.mod_unique g 4092 pkt off)]; lia.
Qed.

(** One pixel step of a live run at pixel [g]. *)
Lemma reorder_pixel_exact n frame idx image c g r buf :
  fault r = None ->
  reordered_image r = Some buf ->
  length buf = n ->
  0 <= output_offset_at K c < Z.of_nat n ->
  cursor_at frame (cursor r) g ->
  g + 1 < 2 ^ 32 ->
  let r' := reorder_pixel K frame idx image
              (wrap32 (num_asic_cols K * num_pixel_cols_per_asic K))
              (fst (fst c)) (snd (fst c)) r (snd c) in
  fault r' = None /\
  reordered_image r'
  = Some (replay buf (expected_stores K frame idx image g [output_offset_at K c])) /\
  stores r' = stores r ++ expected_stores K frame idx image g [output_offset_at K c] /\
  cursor_at frame (cursor r') (g + 1) /\
  plugin r' = plugin r /\ pushed r' = pushed r.
Proof.
  destruct c as [[image_row pixel_col] asic_col].
  intros Hf Hb Hl Hoff ((Hc1 & Hc2) & Hp & Ho & Hg) Hbound.
  pose proof (wrap8_range (packet_state frame (pkt_num (cursor r)))) as Hu1.
  pose proof (wrap8_range (packet_state frame (pkt_num (cursor r) + 1))) as Hu2.
  rewrite <- Hc1 in Hu1.
  cbn [fst snd]. unfold output_offset_at in *.
  unfold cursor_at, cursor_ok, expected_stores, expected_pixel, replay, resolved_offset.
  change (primary_packet_size / 2) with 4092 in *.
  destruct (cursor_locate _ _ _ Hp Ho Hg) as [Hhigh Hlow].
  unfold reorder_pixel, when_running, next_packet, store. cbn.
  change (primary_packet_size / 2) with 4092.
  rewrite Hf.
  destruct (Z.geb_spec (pixel_offset (cursor r)) 4092) as [Hge|Hlt].
  - destruct (Hhigh Hge) as [Hq Hm].
    assert (Hw : wrap32 (pkt_num (cursor r) + 1) = pkt_num (cursor r) + 1)
      by (apply wrap32_small; lia).
    rewrite Hq, Hm, Hw. cbn. rewrite Hb, Hl.
    all_cases; try congruence; unfold_setters.
    all: repeat match goal with
           | H : (_ <? _) = true |- _ => apply Z.ltb_lt in H
           | H : (_ <? _) = false |- _ => apply Z.ltb_ge in H
           end.
    all: try lia.
    all: repeat split; try reflexivity; try assumption; try lia.
    all: try (rewrite wrap32_small; lia).
  - destruct (Hlow Hlt) as [Hq Hm].
    rewrite Hq, Hm, <- Hc1, <- Hc2. cbn.
    all_cases; try congruence; unfold_setters.
    all: repeat match goal with
           | H : Some _ = Some _ |- _ => injection H as ->
           | H : (_ <? _) = true |- _ => apply Z.ltb_lt in H
           | H : (_ <? _) = false |- _ => apply Z.ltb_ge in H
           end.
    all: try lia.
    all: repeat split; try reflexivity; try assumption; try lia.
    all: try (rewrite wrap32_small; lia).
Qed.

Lemma replay_length buf l : length (replay buf l) = length buf.
Proof.
  unfold replay. revert buf. induction l as [|s l IH]; intros buf; cbn [fold_left];
    [reflexivity|]. now rewrite IH, length_insert.
Qed.

Lemma replay_app buf l1 l2 : replay buf (l1 ++ l2) = replay (replay buf l1) l2.
Proof. unfold replay. apply fold_left_app. Qed.

Lemma expected_stores_app frame idx image g l1 l2 :
  expected_stores K frame idx image g (l1 ++ l2)
  = expected_stores K frame idx image g l1
    ++ expected_stores K frame idx image (g + Z.of_nat (length l1)) l2.
Proof.
  revert g. induction l1 as [|o l1 IH]; intros g.
  - cbn. now rewrite Z.add_0_r.
  - cbn [app expected_stores length]. rewrite IH. cbn [app].
    do 3 f_equal. lia.
Qed.

Lemma expected_stores_offsets frame idx image g l :
  map st_offset (expected_stores K frame idx image g l) = l.
Proof.
  revert g. induction l as [|o l IH]; intros g; cbn; [reflexivity|]. now rewrite IH.
Qed.

Lemma expected_stores_length frame idx image g l :
  length (expected_stores K frame idx image g l) = length l.
Proof.
  rewrite <- (expected_stores_offsets frame idx image g l) at 2. now rewrite length_map.
Qed.

(** The pixel loop over a list of coordinates, for a live run at pixel [g]. *)
Lemma scan_exact n frame idx image (l : list (Z * Z * Z)) :
  forall g r buf,
    (forall c, In c l -> 0 <= output_offset_at K c < Z.of_nat n) ->
    fault r = None ->
    reordered_image r = Some buf ->
    length buf = n ->
    cursor_at frame (cursor r) g ->
    g + Z.of_nat (length l) < 2 ^ 32 ->
    let r' := fold_left (fun r c => reorder_pixel K frame idx image
                                      (wrap32 (num_asic_cols K * num_pixel_cols_per_asic K))
                                      (fst (fst c)) (snd (fst c)) r (snd c)) l r in
    let written := expected_stores K frame idx image g (map (output_offset_at K) l) in
    fault r' = None /\
    reordered_image r' = Some (replay buf written) /\
    stores r' = stores r ++ written /\
    cursor_at frame (cursor r') (g + Z.of_nat (length l)) /\
    plugin r' = plugin r /\ pushed r' = pushed r.
Proof.
  induction l as [|c l IH]; intros g r buf Hin Hf Hb Hl Hc Hg.
  - cbn. rewrite Z.add_0_r, app_nil_r.
    repeat match goal with |- _ /\ _ => split end; first [assumption | reflexivity].
  - cbn [fold_left map length]. cbn [length] in Hg. rewrite Nat2Z.inj_succ in Hg.
    destruct (reorder_pixel_exact n frame idx image c g r buf Hf Hb Hl
                (Hin c (or_introl eq_refl)) Hc ltac:(lia))
      as (F1 & F2 & F3 & F4 & F5 & F6).
    set (r1 := reorder_pixel K frame idx image _ _ _ r _) in *. clearbody r1.
    destruct (IH (g + 1) r1 _ (fun c' H => Hin c' (or_intror H)) F1 F2
                ltac:(now rewrite replay_length) F4 ltac:(lia))
      as (G1 & G2 & G3 & G4 & G5 & G6).
    cbv zeta.
    change (expected_stores K frame idx image g
              (output_offset_at K c :: map (output_offset_at K) l))
      with (expected_stores K frame idx image g [output_offset_at K c]
            ++ expected_stores K frame idx image (g + 1) (map (output_offset_at K) l)).
    rewrite replay_app, app_assoc, <- F3.
    replace (g + Z.of_nat (S (length l))) with (g + 1 + Z.of_nat (length l)) by lia.
    repeat match goal with |- _ /\ _ => split end; try assumption; congruence.
Qed.

Lemma length_flat_map_const {A B} (f : A -> list B) (l : list A) (k : nat) :
  (forall a, In a l -> length (f a) = k) -> length (flat_map f l) = (length l * k)%nat.
Proof.
  induction l as [|a l IH]; intros H; cbn [flat_map length]; [reflexivity|].
  rewrite length_app, (H a) by now left.
  rewrite IH by (intros b Hb; apply H; now right). lia.
Qed.

Lemma downto_length n : length (downto n) = Z.to_nat n.
Proof. unfold downto. now rewrite length_rev, upto_length. Qed.

Lemma scan_length :
  positive_geometry K -> Z.of_nat (length (scan K)) = geometry_pixels K.
Proof.
  intros (Har & Hac & Hpr & Hpc). unfold scan.
  rewrite (length_flat_map_const _ _
             (Z.to_nat (num_pixel_cols_per_asic K)
              * (Z.to_nat (num_asic_rows K) * Z.to_nat (num_asic_cols K)))).
  - rewrite downto_length. unfold geometry_pixels, image_rows, row_pixels. nia.
  - intros pixel_row _.
    rewrite (length_flat_map_const _ _
               (Z.to_nat (num_asic_rows K) * Z.to_nat (num_asic_cols K))).
    + now rewrite upto_length.
    + intros pixel_col _.
      rewrite (length_flat_map_const _ _ (Z.to_nat (num_asic_cols K))).
      * now rewrite downto_length.
      * intros asic_row _. now rewrite length_map, upto_length.
Qed.

(** The four pixel loops of one image, for a live run at pixel [g]. *)
Lemma reorder_pixels_exact n frame idx image g r buf :
  positive_geometry K ->
  geometry_pixels K <= Z.of_nat n ->
  fault r = None ->
  reordered_image r = Some buf ->
  length buf = n ->
  cursor_at frame (cursor r) g ->
  g + geometry_pixels K < 2 ^ 32 ->
  let r' := reorder_pixels K frame idx image
              (wrap32 (num_asic_cols K * num_pixel_cols_per_asic K)) r in
  let written := expected_stores K frame idx image g (scan_offsets K) in
  fault r' = None /\
  reordered_image r' = Some (replay buf written) /\
  stores r' = stores r ++ written /\
  cursor_at frame (cursor r') (g + geometry_pixels K) /\
  plugin r' = plugin r /\ pushed r' = pushed r.
Proof.
  intros G Hn Hf Hb Hl Hc Hg. rewrite reorder_pixels_scan.
  rewrite <- (scan_length G) in Hg |- *.
  apply (scan_exact n); try assumption.
  intros c Hin. pose proof (scan_in_range c Hin). lia.
Qed.

End ReorderFacts.

(** *** The positions the pixel loops write *)

Section ScanFacts.
Import Lpd FrameProcessor Reorder.

Variable K : PluginConstants.

Lemma NoDup_flat_map_key {A B} (key : B -> A) (f : A -> list B) (l : list A) :
  List.NoDup l ->
  (forall a, In a l -> List.NoDup (f a)) ->
  (forall a x, In a l -> In x (f a) -> key x = a) ->
  List.NoDup (flat_map f l).
Proof.
  induction 1 as [|a l Ha Hl IH]; intros Hf Hkey; cbn [flat_map]; [constructor|].
  apply Stdlib.Lists.List.NoDup_app.
  - apply Hf. now left.
  - apply IH; intros; [apply Hf | apply Hkey]; try (now right); assumption.
  - intros x Hx Hin. apply in_flat_map in Hin as (b & Hb & Hxb).
    apply Ha. rewrite <- (Hkey a x) by (now left || assumption).
    rewrite (Hkey b x) by (now right || assumption). exact Hb.
Qed.

Lemma NoDup_map_key {A B} (key : B -> A) (g : A -> B) (l : list A) :
  List.NoDup l -> (forall a, In a l -> key (g a) = a) -> List.NoDup (map g l).
Proof.
  induction 1 as [|a l Ha Hl IH]; intros Hkey; cbn [map]; constructor.
  - intros Hin. apply in_map_iff in Hin as (b & E & Hb). apply Ha.
    rewrite <- (Hkey a) by now left. rewrite <- E, (Hkey b) by now right. exact Hb.
  - apply IH. intros b Hb. apply Hkey. now right.
Qed.

Lemma NoDup_upto n : List.NoDup (upto n).
Proof.
  unfold upto. apply (NoDup_map_key Z.to_nat); [apply seq_NoDup|].
  intros a _. apply Nat2Z.id.
Qed.

Lemma NoDup_downto n : List.NoDup (downto n).
Proof. unfold downto. apply NoDup_rev, NoDup_upto. Qed.

(** Without wrap-around the output offset is the row-major position of the
    pixel. *)
Lemma offset_row_major pixel_row pixel_col asic_row asic_col :
  0 <= pixel_row < num_pixel_rows_per_asic K ->
  0 <= pixel_col < num_pixel_cols_per_asic K ->
  0 <= asic_row < num_asic_rows K ->
  0 <= asic_col < num_asic_cols K ->
  geometry_pixels K < 2 ^ 32 ->
  output_offset_at K (wrap32 (asic_row * num_pixel_rows_per_asic K + pixel_row),
                      pixel_col, asic_col)
  = (asic_row * num_pixel_rows_per_asic K + pixel_row) * row_pixels K
    + (asic_col * num_pixel_cols_per_asic K + pixel_col).
Proof.
  intros Hpr Hpc Har Hac HG. unfold geometry_pixels, image_rows, row_pixels in *.
  cbn [output_offset_at].
  assert (Hrow : 0 <= asic_row * num_pixel_rows_per_asic K + pixel_row
                 <= num_asic_rows K * num_pixel_rows_per_asic K - 1) by nia.
  assert (Hcol : 0 <= asic_col * num_pixel_cols_per_asic K + pixel_col
                 <= num_asic_cols K * num_pixel_cols_per_asic K - 1) by nia.
  assert (Hw : 1 <= num_asic_cols K * num_pixel_cols_per_asic K) by nia.
  assert (Hr : 1 <= num_asic_rows K * num_pixel_rows_per_asic K) by nia.
  rewrite (wrap32_small (asic_row * _ + _)) by nia.
  rewrite (wrap32_small (num_asic_cols K * _)) by nia.
  rewrite (wrap32_small (asic_col * _ + _)) by nia.
  apply wrap32_small. nia.
Qed.

Lemma decode_row_major pixel_row pixel_col asic_row asic_col :
  0 <= pixel_row < num_pixel_rows_per_asic K ->
  0 <= pixel_col < num_pixel_cols_per_asic K ->
  0 <= asic_row < num_asic_rows K ->
  0 <= asic_col < num_asic_cols K ->
  let x := (asic_row * num_pixel_rows_per_asic K + pixel_row) * row_pixels K
           + (asic_col * num_pixel_cols_per_asic K + pixel_col) in
  (x / row_pixels K) mod num_pixel_rows_per_asic K = pixel_row /\
  (x / row_pixels K) / num_pixel_rows_per_asic K = asic_row /\
  (x mod row_pixels K) / num_pixel_cols_per_asic K = asic_col /\
  x mod num_pixel_cols_per_asic K = pixel_col.
Proof.
  intros Hpr Hpc Har Hac x. unfold row_pixels in *.
  assert (Hcol : 0 <= asic_col * num_pixel_cols_per_asic K + pixel_col
                 < num_asic_cols K * num_pixel_cols_per_asic K) by nia.
  assert (Hq : x / (num_asic_cols K * num_pixel_cols_per_asic K)
               = asic_row * num_pixel_rows_per_asic K + pixel_row).
  { symmetry.
    apply (Z.div_unique x _ _ (asic_col * num_pixel_cols_per_asic K + pixel_col));
      [lia | subst x; ring]. }
  assert (Hm : x mod (num_asic_cols K * num_pixel_cols_per_asic K)
               = asic_col * num_pixel_cols_per_asic K + pixel_col).
  { symmetry.
    apply (Z.mod_unique x _ (asic_row * num_pixel_rows_per_asic K + pixel_row));
      [lia | subst x; ring]. }
  rewrite Hq, Hm. repeat split; symmetry.
  - apply (Z.mod_unique _ _ asic_row); [lia | ring].
  - apply (Z.div_unique _ _ _ pixel_row); [lia | ring].
  - apply (Z.div_unique _ _ _ pixel_col); [lia | ring].
  - apply (Z.mod_unique x _
             ((asic_row * num_pixel_rows_per_asic K + pixel_row) * num_asic_cols K
              + asic_col)); [lia | subst x; ring].
Qed.

Lemma map_of_flat_map {A B C} (g : B -> C) (f : A -> list B) (l : list A) :
  map g (flat_map f l) = flat_map (fun a => map g (f a)) l.
Proof.
  induction l as [|a l IH]; cbn [flat_map map]; [reflexivity|].
  now rewrite map_app, IH.
Qed.

Lemma scan_offsets_nested :
  scan_offsets K
  = flat_map (fun pixel_row =>
      flat_map (fun pixel_col =>
        flat_map (fun asic_row =>
          map (fun asic_col =>
                 output_offset_at K
                   (wrap32 (asic_row * num_pixel_rows_per_asic K + pixel_row),
                    pixel_col, asic_col))
              (upto (num_asic_cols K)))
          (downto (num_asic_rows K)))
        (upto (num_pixel_cols_per_asic K)))
      (downto (num_pixel_rows_per_asic K)).
Proof.
  unfold scan_offsets, scan. rewrite map_of_flat_map.
  apply flat_map_ext. intros pixel_row. rewrite map_of_flat_map.
  apply flat_map_ext. intros pixel_col. rewrite map_of_flat_map.
  apply flat_map_ext. intros asic_row. now rewrite map_map.
Qed.

(** Every offset of the scan comes from coordinates in range. *)
Lemma in_scan_offsets x :
  geometry_pixels K < 2 ^ 32 ->
  In x (scan_offsets K) <->
  exists pixel_row pixel_col asic_row asic_col,
    0 <= pixel_row < num_pixel_rows_per_asic K /\
    0 <= pixel_col < num_pixel_cols_per_asic K /\
    0 <= asic_row < num_asic_rows K /\
    0 <= asic_col < num_asic_cols K /\
    x = (asic_row * num_pixel_rows_per_asic K + pixel_row) * row_pixels K
        + (asic_col * num_pixel_cols_per_asic K + pixel_col).
Proof.
  intros HG. rewrite scan_offsets_nested. split.
  - intros H.
    apply in_flat_map in H as (pixel_row & Hpr%in_downto & H).
    apply in_flat_map in H as (pixel_col & Hpc%in_upto & H).
    apply in_flat_map in H as (asic_row & Har%in_downto & H).
    apply in_map_iff in H as (asic_col & <- & Hac%in_upto).
    exists pixel_row, pixel_col, asic_row, asic_col.
    repeat split; try lia. now apply offset_row_major.
  - intros (pixel_row & pixel_col & asic_row & asic_col & Hpr & Hpc & Har & Hac & ->).
    apply in_flat_map. exists pixel_row. split; [now apply in_downto|].
    apply in_flat_map. exists pixel_col. split; [now apply in_upto|].
    apply in_flat_map. exists asic_row. split; [now apply in_downto|].
    apply in_map_iff. exists asic_col. split; [|now apply in_upto].
    now apply offset_row_major.
Qed.

Lemma NoDup_scan_offsets :
  geometry_pixels K < 2 ^ 32 -> List.NoDup (scan_offsets K).
Proof.
  intros HG. rewrite scan_offsets_nested.
  apply (NoDup_flat_map_key
           (fun x => (x / row_pixels K) mod num_pixel_rows_per_asic K));
    [apply NoDup_downto | |].
  - intros pixel_row Hpr%in_downto.
    apply (NoDup_flat_map_key (fun x => x mod num_pixel_cols_per_asic K));
      [apply NoDup_upto | |].
    + intros pixel_col Hpc%in_upto.
      apply (NoDup_flat_map_key
               (fun x => (x / row_pixels K) / num_pixel_rows_per_asic K));
        [apply NoDup_downto | |].
      * intros asic_row Har%in_downto.
        apply (NoDup_map_key
                 (fun x => (x mod row_pixels K) / num_pixel_cols_per_asic K));
          [apply NoDup_upto|].
        intros asic_col Hac%in_upto. rewrite offset_row_major by assumption.
        now apply decode_row_major.
      * intros asic_row x Har%in_downto Hx.
        apply in_map_iff in Hx as (asic_col & <- & Hac%in_upto).
        rewrite offset_row_major by assumption. now apply decode_row_major.
    + intros pixel_col x Hpc%in_upto Hx.
      apply in_flat_map in Hx as (asic_row & Har%in_downto & Hx).
      apply in_map_iff in Hx as (asic_col & <- & Hac%in_upto).
      rewrite offset_row_major by assumption. now apply decode_row_major.
  - intros pixel_row x Hpr%in_downto Hx.
    apply in_flat_map in Hx as (pixel_col & Hpc%in_upto & Hx).
    apply in_flat_map in Hx as (asic_row & Har%in_downto & Hx).
    apply in_map_iff in Hx as (asic_col & <- & Hac%in_upto).
    rewrite offset_row_major by assumption. now apply decode_row_major.
Qed.

Lemma scan_offsets_all :
  positive_geometry K ->
  geometry_pixels K < 2 ^ 32 ->
  Permutation (scan_offsets K) (upto (geometry_pixels K)).
Proof.
  intros G HG. apply NoDup_Permutation_bis.
  - now apply NoDup_scan_offsets.
  - rewrite upto_length. unfold scan_offsets. rewrite length_map.
    pose proof (scan_length K G). lia.
  - intros x Hx. unfold scan_offsets in Hx.
    apply in_map_iff in Hx as (c & <- & Hc).
    apply in_upto. now apply scan_in_range.
Qed.

(** X11: the four pixel loops of one image write every position
    [0 .. geometry_pixels - 1] of the output image exactly once. *)
Theorem scan_offsets_permutation :
  positive_geometry K ->
  geometry_pixels K < 2 ^ 32 ->
  Permutation (scan_offsets K) (upto (geometry_pixels K)).
Proof. exact scan_offsets_all. Qed.

End ScanFacts.

(** *** The buffer from image to image *)

Section PlaneFacts.
Import Lpd FrameProcessor Reorder Planes.

Variable K : PluginConstants.

Lemma replay_other buf (l : list Store) (i : nat) :
  (forall s, In s l -> Z.to_nat (st_offset s) <> i) ->
  replay buf l !! i = buf !! i.
Proof.
  unfold replay. revert buf. induction l as [|s l IH]; intros buf H; cbn [fold_left];
    [reflexivity|].
  rewrite IH by (intros s' Hs'; apply H; now right).
  apply list_lookup_insert_ne. apply H. now left.
Qed.

Lemma replay_lookup buf (l : list Store) :
  List.NoDup (map st_offset l) ->
  (forall s, In s l -> 0 <= st_offset s < Z.of_nat (length buf)) ->
  forall s, In s l -> replay buf l !! Z.to_nat (st_offset s) = Some (st_value s).
Proof.
  revert buf. induction l as [|a l IH]; intros buf Hnd Hin s Hs; [destruct Hs|].
  cbn [map] in Hnd. apply NoDup_cons_iff in Hnd as [Ha Hnd].
  change (replay buf (a :: l))
    with (replay (<[Z.to_nat (st_offset a) := st_value a]> buf) l).
  destruct Hs as [<-|Hs].
  - rewrite replay_other.
    + apply list_lookup_insert_eq.
      pose proof (Hin a (or_introl eq_refl)). lia.
    + intros s Hs E. apply Ha.
      pose proof (Hin a (or_introl eq_refl)). pose proof (Hin s (or_intror Hs)).
      replace (st_offset a) with (st_offset s) by lia. now apply in_map.
  - apply IH; [assumption | | assumption].
    intros s' Hs'. rewrite length_insert. apply Hin. now right.
Qed.

Lemma expected_stores_lookup frame idx image g (l : list Z) (j : nat) off :
  l !! j = Some off ->
  exists s, In s (expected_stores K frame idx image g l) /\
            st_offset s = off /\
            st_value s = expected_pixel K frame idx (g + Z.of_nat j).
Proof.
  revert g j. induction l as [|o l IH]; intros g j H; [discriminate|].
  destruct j as [|j]; cbn in H.
  - injection H as ->. eexists. split; [now left|]. cbn. now rewrite Z.add_0_r.
  - destruct (IH (g + 1) j H) as (s & Hs & E1 & E2).
    exists s. split; [now right|]. split; [exact E1|].
    rewrite E2. f_equal. lia.
Qed.

Lemma expected_stores_in_range frame idx image g s :
  In s (expected_stores K frame idx image g (scan_offsets K)) ->
  0 <= st_offset s < geometry_pixels K.
Proof.
  intros Hs. apply (in_map st_offset) in Hs. rewrite expected_stores_offsets in Hs.
  unfold scan_offsets in Hs. apply in_map_iff in Hs as (c & <- & Hc).
  now apply scan_in_range.
Qed.

Lemma buffer_after_length frame idx buf k :
  length (buffer_after K frame idx buf k) = length buf.
Proof. induction k as [|k IH]; cbn [buffer_after]; [reflexivity|]. now rewrite replay_length. Qed.

(** What the buffer holds after image [k]: the pixels of that image at the
    positions of the scan, and beyond the image what it held from the
    start. *)
Lemma buffer_after_image frame idx buf k (j : nat) off :
  geometry_pixels K < 2 ^ 32 ->
  geometry_pixels K <= Z.of_nat (length buf) ->
  scan_offsets K !! j = Some off ->
  buffer_after K frame idx buf (S k) !! Z.to_nat off
  = Some (expected_pixel K frame idx (Z.of_nat k * geometry_pixels K + Z.of_nat j)).
Proof.
  intros HG Hn Hj. cbn [buffer_after].
  destruct (expected_stores_lookup frame idx (Z.of_nat k)
              (Z.of_nat k * geometry_pixels K) _ j off Hj) as (s & Hs & <- & <-).
  apply replay_lookup; [| | exact Hs].
  - rewrite expected_stores_offsets. now apply NoDup_scan_offsets.
  - intros s' Hs'. rewrite buffer_after_length.
    pose proof (expected_stores_in_range _ _ _ _ _ Hs'). lia.
Qed.

Lemma buffer_after_beyond frame idx buf k (o : nat) :
  geometry_pixels K <= Z.of_nat o ->
  buffer_after K frame idx buf k !! o = buf !! o.
Proof.
  intros Ho. induction k as [|k IH]; cbn [buffer_after]; [reflexivity|].
  rewrite replay_other; [exact IH|].
  intros s Hs. pose proof (expected_stores_in_range _ _ _ _ _ Hs). lia.
Qed.

(** One image of a live run at pixel [g]. *)
Lemma reorder_image_exact n frame image_size idx g r image buf :
  positive_geometry K ->
  geometry_pixels K <= Z.of_nat n ->
  fault r = None ->
  reordered_image r = Some buf ->
  length buf = n ->
  cursor_at frame (cursor r) g ->
  g + geometry_pixels K < 2 ^ 32 ->
  let r' := reorder_image K frame image_size idx
              (wrap32 (num_asic_cols K * num_pixel_cols_per_asic K)) r image in
  let buf' := replay buf (expected_stores K frame idx image g (scan_offsets K)) in
  fault r' = None /\
  reordered_image r' = Some buf' /\
  cursor_at frame (cursor r') (g + geometry_pixels K) /\
  plugin r' = set_image_counter (image_counter_ (plugin r) + 1) (plugin r) /\
  pushed r' = pushed r ++ triplet (plugin r) frame (image_counter_ (plugin r)) image
                            (firstn (Z.to_nat (image_size / 2)) buf').
Proof.
  intros G Hn Hf Hb Hl Hc Hg. unfold reorder_image, when_running. rewrite Hf. cbv zeta.
  set (r1 := add_log TRACE (ReadingImage image) r).
  destruct (reorder_pixels_exact K n frame idx image g r1 buf G Hn Hf Hb Hl Hc Hg)
    as (F1 & F2 & _ & F4 & F5 & F6).
  set (r2 := reorder_pixels K frame idx image _ r1) in *. clearbody r2.
  rewrite F1, F2. unfold push_image. cbn. rewrite F5, F6. cbn.
  repeat match goal with |- _ /\ _ => split end;
    try assumption; try reflexivity.
  rewrite <- !app_assoc. reflexivity.
Qed.

Lemma first_packet_at frame : cursor_at frame (first_packet frame) 0.
Proof.
  unfold cursor_at, cursor_ok, first_packet. cbn.
  change (primary_packet_size / 2) with 4092.
  repeat match goal with |- _ /\ _ => split end; try reflexivity; lia.
Qed.

Lemma geometry_pixels_pos : positive_geometry K -> 0 < geometry_pixels K.
Proof.
  intros (H1 & H2 & H3 & H4). unfold geometry_pixels, image_rows, row_pixels.
  repeat apply Z.mul_pos_pos; assumption.
Qed.

(** The images of a FEM, from the first: the buffer, the cursor, the counter
    and the pushed frames after [k] of them. *)
Lemma images_exact n frame image_size idx buf :
  positive_geometry K ->
  geometry_pixels K <= Z.of_nat n ->
  length buf = n ->
  forall (k : nat) r,
    fault r = None ->
    reordered_image r = Some buf ->
    cursor_at frame (cursor r) 0 ->
    Z.of_nat k * geometry_pixels K < 2 ^ 32 ->
    let r' := fold_left (reorder_image K frame image_size idx
                           (wrap32 (num_asic_cols K * num_pixel_cols_per_asic K)))
                        (upto (Z.of_nat k)) r in
    fault r' = None /\
    reordered_image r' = Some (buffer_after K frame idx buf k) /\
    cursor_at frame (cursor r') (Z.of_nat k * geometry_pixels K) /\
    same_settings (plugin r') (plugin r) /\
    image_counter_ (plugin r') = image_counter_ (plugin r) + Z.of_nat k /\
    pushed r' = pushed r ++
                triplets (plugin r) frame (image_counter_ (plugin r)) (Z.of_nat k)
                  (fun i => firstn (Z.to_nat (image_size / 2))
                              (buffer_after K frame idx buf (S (Z.to_nat i)))).
Proof.
  intros G Hn Hl. pose proof (geometry_pixels_pos G) as Hpos.
  induction k as [|k IH]; intros r Hf Hb Hc Hk.
  - change (upto (Z.of_nat 0)) with (@nil Z). cbn [fold_left].
    repeat match goal with |- _ /\ _ => split end; try assumption; try reflexivity;
      try (cbn; lia); try solve [repeat split].
    unfold triplets. change (upto (Z.of_nat 0)) with (@nil Z). cbn [flat_map].
    now rewrite app_nil_r.
  - rewrite Nat2Z.inj_succ, <- Z.add_1_r in *.
    rewrite upto_succ by lia. rewrite fold_left_app. cbn [fold_left].
    assert (Hk' : Z.of_nat k * geometry_pixels K < 2 ^ 32) by nia.
    destruct (IH r Hf Hb Hc Hk') as (F1 & F2 & F3 & F4 & F5 & F6).
    set (rk := fold_left _ (upto (Z.of_nat k)) r) in *. clearbody rk.
    assert (Hg : Z.of_nat k * geometry_pixels K + geometry_pixels K < 2 ^ 32) by nia.
    destruct (reorder_image_exact n frame image_size idx (Z.of_nat k * geometry_pixels K)
                rk (Z.of_nat k) (buffer_after K frame idx buf k) G Hn F1 F2
                ltac:(rewrite buffer_after_length; exact Hl) F3 Hg)
      as (E1 & E2 & E3 & E4 & E5).
    set (rk' := reorder_image K frame image_size idx _ rk (Z.of_nat k)) in *. clearbody rk'.
    repeat match goal with |- _ /\ _ => split end.
    + exact E1.
    + exact E2.
    + replace ((Z.of_nat k + 1) * geometry_pixels K)
        with (Z.of_nat k * geometry_pixels K + geometry_pixels K) by ring. exact E3.
    + rewrite E4. eapply same_settings_trans; [apply same_settings_counter | exact F4].
    + rewrite E4. cbn. lia.
    + rewrite E5, F6, triplets_succ by lia. rewrite <- app_assoc. f_equal. f_equal.
      rewrite F5, Nat2Z.id. now apply triplet_settings.
Qed.

Lemma upto_lookup n o : 0 <= o < n -> upto n !! Z.to_nat o = Some o.
Proof.
  intros H. unfold upto. rewrite list_lookup_fmap.
  rewrite lookup_seq_lt by lia. cbn. f_equal. lia.
Qed.

Lemma malloc_lookup heap bytes buf o :
  malloc heap bytes = Some buf -> 0 <= o < bytes / 2 ->
  buf !! Z.to_nat o = Some (garbage heap o).
Proof.
  unfold malloc. destruct (_ || _); [discriminate|]. intros [= <-] Ho.
  rewrite list_lookup_fmap, upto_lookup by exact Ho. reflexivity.
Qed.

Lemma triplets_dimensions p q frame c n plane :
  image_width_ p = image_width_ q -> image_height_ p = image_height_ q ->
  triplets p frame c n plane = triplets q frame c n plane.
Proof.
  intros Hw Hh. unfold triplets, triplet. now rewrite Hw, Hh.
Qed.

(** A frame of one FEM whose buffer could be allocated: every image is
    pushed with the buffer as the pixel loops left it. *)
Lemma single_fem_frame heap frame r buf :
  fault r = None ->
  malloc heap (image_pixels_ (plugin r) * 2) = Some buf ->
  num_active_fems (hdr frame) = 1 ->
  positive_geometry K ->
  geometry_pixels K <= image_pixels_ (plugin r) ->
  0 <= num_images_ (plugin r) ->
  num_images_ (plugin r) * geometry_pixels K < 2 ^ 32 ->
  let r' := process_frame K heap frame r in
  let image_size := wrap32 (image_width_ (plugin r) * image_height_ (plugin r) * 2) in
  fault r' = None /\
  pushed r' = pushed r ++
              triplets (plugin r) frame (image_counter_ (plugin r)) (num_images_ (plugin r))
                (fun i => firstn (Z.to_nat (image_size / 2))
                            (buffer_after K frame 0 buf (S (Z.to_nat i)))).
Proof.
  intros Hf Hm Hone G Hpix Hn0 Hn.
  pose proof (geometry_pixels_pos G) as Hpos.
  cbv zeta. rewrite (process_frame_unfold K heap frame r Hf). cbv zeta.
  set (r0 := add_log TRACE (FrameSize (data_size frame)) _).
  destruct (process_lost_packets_effect K frame r0)
    as (_ & Pw & Ph & Pp & Pn & Pc & Ppushed & _ & Pf & _).
  set (r2 := process_lost_packets K frame r0) in *.
  change (plugin r0) with (plugin r) in *. change (pushed r0) with (pushed r) in *.
  change (fault r0) with (fault r) in *. clearbody r2. clear r0.
  set (r3 := add_log TRACE (ActiveFems _ _) _).
  change (plugin r3) with (plugin r2).
  set (image_size := wrap32 (image_width_ (plugin r2) * image_height_ (plugin r2) * 2)).
  set (r4 := set_reordered_image None _).
  assert (H4 : plugin r4 = plugin r2 /\ pushed r4 = pushed r2 /\ fault r4 = fault r2)
    by (repeat split).
  destruct H4 as (H4p & H4u & H4f). clearbody r4. clear r3.
  unfold try_block. rewrite H4p, Pp, Hm, Hone. change (upto 1) with [0]. cbn [fold_left].
  set (r5 := set_reordered_image (Some buf) r4).
  assert (H5 : plugin r5 = plugin r2 /\ pushed r5 = pushed r2 /\ fault r5 = None /\
               reordered_image r5 = Some buf)
    by (subst r5; cbn; repeat split; congruence).
  destruct H5 as (H5p & H5u & H5f & H5b). clearbody r5. clear r4 H4p H4u H4f.
  unfold reorder_fem, when_running. rewrite H5f. cbv zeta.
  set (r6 := set_cursor (first_packet frame) _).
  assert (H6 : plugin r6 = plugin r2 /\ pushed r6 = pushed r2 /\ fault r6 = None /\
               reordered_image r6 = Some buf /\ cursor r6 = first_packet frame)
    by (subst r6; cbn; repeat split; congruence).
  destruct H6 as (H6p & H6u & H6f & H6b & H6c). clearbody r6.
  rewrite H5p, Pn, (wrap32_small (num_images_ (plugin r))) by nia.
  pose proof (malloc_length _ _ _ Hm) as Hlen.
  set (k := Z.to_nat (num_images_ (plugin r))).
  assert (Ek : num_images_ (plugin r) = Z.of_nat k) by lia.
  clearbody k. rewrite Ek in *.
  destruct (images_exact (length buf) frame image_size 0 buf G
              ltac:(rewrite Hlen; rewrite Z.div_mul by lia; lia) eq_refl
              k r6 H6f H6b
              ltac:(rewrite H6c; apply first_packet_at) Hn)
    as (F1 & F2 & _ & _ & _ & F6).
  set (r7 := fold_left _ _ r6) in *. clearbody r7.
  rewrite F1, F2. cbn. split; [exact F1|].
  rewrite F6, H6u, Ppushed, H6p, Pc.
  f_equal. unfold image_size. rewrite Pw, Ph.
  now apply triplets_dimensions.
Qed.

End PlaneFacts.

(** *** Where a pixel of the input stream lands *)

Section LayoutFacts.
Import Lpd FrameProcessor Reorder Planes Layout.

Variable K : PluginConstants.

Lemma flat_map_lookup {A B} (f : A -> list B) (l : list A) (m a b : nat) x y :
  (forall x, In x l -> length (f x) = m) ->
  l !! a = Some x -> f x !! b = Some y ->
  flat_map f l !! (a * m + b)%nat = Some y.
Proof.
  revert a. induction l as [|x0 l IH]; intros a Hlen Ha Hb; [discriminate|].
  cbn [flat_map]. destruct a as [|a]; cbn in Ha.
  - injection Ha as ->. rewrite lookup_app_l; [exact Hb|].
    apply lookup_lt_Some in Hb. lia.
  - rewrite lookup_app_r by (rewrite (Hlen x0) by (now left); lia).
    rewrite (Hlen x0) by now left.
    replace (S a * m + b - m)%nat with (a * m + b)%nat by lia.
    apply IH; [intros; apply Hlen; now right | exact Ha | exact Hb].
Qed.

Lemma flat_map_lookup_Z {A B} (f : A -> list B) (l : list A) (m a b : Z) x y :
  0 <= m -> 0 <= a -> 0 <= b ->
  (forall x, In x l -> length (f x) = Z.to_nat m) ->
  l !! Z.to_nat a = Some x -> f x !! Z.to_nat b = Some y ->
  flat_map f l !! Z.to_nat (a * m + b) = Some y.
Proof.
  intros Hm Ha Hb Hlen Hx Hy.
  rewrite Z2Nat.inj_add, Z2Nat.inj_mul by nia.
  eapply flat_map_lookup; eassumption.
Qed.

Lemma downto_lookup n i : 0 <= i < n -> downto n !! Z.to_nat (n - 1 - i) = Some i.
Proof.
  intros H. unfold downto. rewrite rev_alt. change (rev_append (upto n) []) with (reverse (upto n)).
  rewrite reverse_lookup by (rewrite upto_length; lia).
  rewrite upto_length.
  replace (Z.to_nat n - S (Z.to_nat (n - 1 - i)))%nat with (Z.to_nat i) by lia.
  apply upto_lookup. lia.
Qed.

(** Where the scan writes the pixel of given loop variables, and when. *)
Lemma scan_offsets_at pixel_row pixel_col asic_row asic_col :
  0 <= pixel_row < num_pixel_rows_per_asic K ->
  0 <= pixel_col < num_pixel_cols_per_asic K ->
  0 <= asic_row < num_asic_rows K ->
  0 <= asic_col < num_asic_cols K ->
  geometry_pixels K < 2 ^ 32 ->
  scan_offsets K !! Z.to_nat (stream_index K pixel_row pixel_col asic_row asic_col)
  = Some (image_row K pixel_row asic_row * row_pixels K + image_col K pixel_col asic_col).
Proof.
  intros Hpr Hpc Har Hac HG.
  rewrite scan_offsets_nested. unfold stream_index, image_row, image_col.
  rewrite <- (offset_row_major K pixel_row pixel_col asic_row asic_col) by assumption.
  assert (L1 : forall pr pc ar,
             length (map (fun asic_col => output_offset_at K
                            (wrap32 (ar * num_pixel_rows_per_asic K + pr), pc, asic_col))
                       (upto (num_asic_cols K))) = Z.to_nat (num_asic_cols K))
    by (intros; now rewrite length_map, upto_length).
  assert (L2 : forall pr pc,
             length (flat_map (fun ar => map (fun asic_col => output_offset_at K
                            (wrap32 (ar * num_pixel_rows_per_asic K + pr), pc, asic_col))
                       (upto (num_asic_cols K))) (downto (num_asic_rows K)))
             = Z.to_nat (num_asic_rows K * num_asic_cols K)).
  { intros. rewrite (length_flat_map_const _ _ (Z.to_nat (num_asic_cols K)))
      by (intros; apply L1).
    rewrite downto_length. rewrite Z2Nat.inj_mul by lia. reflexivity. }
  assert (L3 : forall pr,
             length (flat_map (fun pc => flat_map (fun ar => map (fun asic_col =>
                            output_offset_at K
                            (wrap32 (ar * num_pixel_rows_per_asic K + pr), pc, asic_col))
                       (upto (num_asic_cols K))) (downto (num_asic_rows K)))
                      (upto (num_pixel_cols_per_asic K)))
             = Z.to_nat (num_pixel_cols_per_asic K * (num_asic_rows K * num_asic_cols K))).
  { intros. rewrite (length_flat_map_const _ _
                       (Z.to_nat (num_asic_rows K * num_asic_cols K)))
      by (intros; apply L2).
    rewrite upto_length. rewrite <- Z2Nat.inj_mul by nia. reflexivity. }
  replace ((((num_pixel_rows_per_asic K - 1 - pixel_row) * num_pixel_cols_per_asic K
             + pixel_col) * num_asic_rows K + (num_asic_rows K - 1 - asic_row))
           * num_asic_cols K + asic_col)
    with ((num_pixel_rows_per_asic K - 1 - pixel_row)
            * (num_pixel_cols_per_asic K * (num_asic_rows K * num_asic_cols K))
          + (pixel_col * (num_asic_rows K * num_asic_cols K)
             + ((num_asic_rows K - 1 - asic_row) * num_asic_cols K + asic_col))) by ring.
  assert (N1 : 0 <= num_asic_rows K * num_asic_cols K) by nia.
  assert (N2 : 0 <= num_pixel_cols_per_asic K * (num_asic_rows K * num_asic_cols K)) by nia.
  assert (N3 : 0 <= (num_asic_rows K - 1 - asic_row) * num_asic_cols K + asic_col) by nia.
  assert (N4 : 0 <= pixel_col * (num_asic_rows K * num_asic_cols K)) by nia.
  eapply flat_map_lookup_Z;
    [lia | lia | lia | intros; apply L3 | apply downto_lookup; lia |].
  eapply flat_map_lookup_Z;
    [lia | lia | lia | intros; apply L2 | apply upto_lookup; lia |].
  eapply flat_map_lookup_Z;
    [lia | lia | lia | intros; apply L1 | apply downto_lookup; lia |].
  rewrite list_lookup_fmap, upto_lookup by lia. reflexivity.
Qed.

Lemma stream_index_nonneg pixel_row pixel_col asic_row asic_col :
  0 <= pixel_row < num_pixel_rows_per_asic K ->
  0 <= pixel_col < num_pixel_cols_per_asic K ->
  0 <= asic_row < num_asic_rows K ->
  0 <= asic_col < num_asic_cols K ->
  0 <= stream_index K pixel_row pixel_col asic_row asic_col.
Proof.
  intros Hpr Hpc Har Hac. unfold stream_index.
  assert (0 <= (num_pixel_rows_per_asic K - 1 - pixel_row) * num_pixel_cols_per_asic K) by nia.
  assert (0 <= ((num_pixel_rows_per_asic K - 1 - pixel_row) * num_pixel_cols_per_asic K
                + pixel_col) * num_asic_rows K) by nia.
  assert (0 <= (((num_pixel_rows_per_asic K - 1 - pixel_row) * num_pixel_cols_per_asic K
                 + pixel_col) * num_asic_rows K + (num_asic_rows K - 1 - asic_row))
               * num_asic_cols K) by nia.
  lia.
Qed.

(** A frame of one FEM, with a plugin whose [image_pixels_] is the product
    of width and height: each pushed data frame holds the whole buffer as it
    is after the image. *)
Lemma single_fem_planes heap frame r buf :
  fault r = None ->
  malloc heap (image_pixels_ (plugin r) * 2) = Some buf ->
  num_active_fems (hdr frame) = 1 ->
  positive_geometry K ->
  geometry_pixels K <= image_pixels_ (plugin r) ->
  image_pixels_ (plugin r) = image_width_ (plugin r) * image_height_ (plugin r) ->
  image_pixels_ (plugin r) * 2 < 2 ^ 32 ->
  0 <= num_images_ (plugin r) ->
  num_images_ (plugin r) * geometry_pixels K < 2 ^ 32 ->
  let r' := process_frame K heap frame r in
  fault r' = None /\
  length buf = Z.to_nat (image_pixels_ (plugin r)) /\
  pushed r' = pushed r ++
              triplets (plugin r) frame (image_counter_ (plugin r)) (num_images_ (plugin r))
                (fun i => buffer_after K frame 0 buf (S (Z.to_nat i))).
Proof.
  intros Hf Hm Hone G Hpix Hwh H32 Hn0 Hn.
  destruct (single_fem_frame K heap frame r buf Hf Hm Hone G Hpix Hn0 Hn) as (F & P).
  pose proof (geometry_pixels_pos K G) as Hpos.
  pose proof (malloc_length _ _ _ Hm) as Hlen. rewrite Z.div_mul in Hlen by lia.
  split; [exact F|]. split; [exact Hlen|].
  cbv zeta in P. rewrite P. f_equal. apply triplets_ext. intros i _.
  rewrite <- Hwh. rewrite wrap32_small by lia. rewrite Z.div_mul by lia.
  apply firstn_all2. rewrite buffer_after_length. lia.
Qed.

End LayoutFacts.

(** *** The images of a single-FEM frame *)

Section ImageTheorems.
Import Lpd FrameProcessor Reorder Planes Layout.

Variable K : PluginConstants.

(** X12: what a frame of a single FEM pushes.  For a running plugin whose
    buffer can be allocated, whose [image_pixels_] is width times height,
    whose width is the row of the geometry and whose image holds the image
    of the geometry, every image of the frame is pushed with all width times
    height samples, and the sample at row
    [asic_row * num_pixel_rows_per_asic + pixel_row] and column
    [asic_col * num_pixel_cols_per_asic + pixel_col] of image [i] (a row and
    a column of the image pushed) is the pixel at position [stream_index] of
    that image in the input stream: the input sample at the offset of the
    slot its packet has. *)
Theorem single_fem_image_contents heap frame r buf :
  fault r = None ->
  malloc heap (image_pixels_ (plugin r) * 2) = Some buf ->
  num_active_fems (hdr frame) = 1 ->
  positive_geometry K ->
  geometry_pixels K <= image_pixels_ (plugin r) ->
  image_pixels_ (plugin r) = image_width_ (plugin r) * image_height_ (plugin r) ->
  image_width_ (plugin r) = row_pixels K ->
  image_pixels_ (plugin r) * 2 < 2 ^ 32 ->
  0 <= num_images_ (plugin r) ->
  num_images_ (plugin r) * geometry_pixels K < 2 ^ 32 ->
  let r' := process_frame K heap frame r in
  exists plane,
    fault r' = None /\
    pushed r' = pushed r ++
                triplets (plugin r) frame (image_counter_ (plugin r))
                  (num_images_ (plugin r)) plane /\
    forall i, 0 <= i < num_images_ (plugin r) ->
      length (plane i) = Z.to_nat (image_width_ (plugin r) * image_height_ (plugin r)) /\
      forall pixel_row pixel_col asic_row asic_col,
        0 <= pixel_row < num_pixel_rows_per_asic K ->
        0 <= pixel_col < num_pixel_cols_per_asic K ->
        0 <= asic_row < num_asic_rows K ->
        0 <= asic_col < num_asic_cols K ->
        image_row K pixel_row asic_row < image_height_ (plugin r) /\
        image_col K pixel_col asic_col < image_width_ (plugin r) /\
        plane i !! Z.to_nat (image_row K pixel_row asic_row * image_width_ (plugin r)
                             + image_col K pixel_col asic_col)
        = Some (expected_pixel K frame 0
                  (i * geometry_pixels K
                   + stream_index K pixel_row pixel_col asic_row asic_col)).
Proof.
  intros Hf Hm Hone G Hpix Hwh Hw H32 Hn0 Hn.
  destruct (single_fem_planes K heap frame r buf Hf Hm Hone G Hpix Hwh H32 Hn0 Hn)
    as (F & Hlen & P).
  pose proof (geometry_pixels_pos K G) as Hpos.
  exists (fun i => buffer_after K frame 0 buf (S (Z.to_nat i))).
  split; [exact F|]. split; [exact P|].
  intros i Hi. split; [rewrite buffer_after_length, <- Hwh; exact Hlen|].
  intros pixel_row pixel_col asic_row asic_col Hpr Hpc Har Hac.
  assert (HG : geometry_pixels K < 2 ^ 32) by nia.
  pose proof (stream_index_nonneg K _ _ _ _ Hpr Hpc Har Hac) as Hs.
  pose proof (scan_offsets_at K _ _ _ _ Hpr Hpc Har Hac HG) as Hat.
  destruct G as (G1 & G2 & G3 & G4).
  assert (Hrow : image_row K pixel_row asic_row < image_rows K)
    by (unfold image_row, image_rows; nia).
  assert (Hcol : image_col K pixel_col asic_col < row_pixels K)
    by (unfold image_col, row_pixels; nia).
  split; [|split].
  - unfold geometry_pixels in Hpix. rewrite Hwh, Hw in Hpix.
    assert (0 < row_pixels K) by (unfold row_pixels; nia).
    nia.
  - rewrite Hw. exact Hcol.
  - rewrite Hw.
    rewrite (buffer_after_image K frame 0 buf (Z.to_nat i) _ _ HG ltac:(lia) Hat).
    rewrite !Z2Nat.id by lia. reflexivity.
Qed.

(** X13: the samples beyond the geometry.  When the configured image has more
    samples than the pixel loops write, the data frames carry, from sample
    [geometry_pixels] on, what the allocator left in the buffer. *)
Theorem samples_beyond_geometry_uninitialised heap frame r buf :
  fault r = None ->
  malloc heap (image_pixels_ (plugin r) * 2) = Some buf ->
  num_active_fems (hdr frame) = 1 ->
  positive_geometry K ->
  geometry_pixels K <= image_pixels_ (plugin r) ->
  image_pixels_ (plugin r) = image_width_ (plugin r) * image_height_ (plugin r) ->
  image_pixels_ (plugin r) * 2 < 2 ^ 32 ->
  0 <= num_images_ (plugin r) ->
  num_images_ (plugin r) * geometry_pixels K < 2 ^ 32 ->
  let r' := process_frame K heap frame r in
  exists plane,
    pushed r' = pushed r ++
                triplets (plugin r) frame (image_counter_ (plugin r))
                  (num_images_ (plugin r)) plane /\
    forall i o, 0 <= i < num_images_ (plugin r) ->
      geometry_pixels K <= o < image_pixels_ (plugin r) ->
      plane i !! Z.to_nat o = Some (garbage heap o).
Proof.
  intros Hf Hm Hone G Hpix Hwh H32 Hn0 Hn.
  destruct (single_fem_planes K heap frame r buf Hf Hm Hone G Hpix Hwh H32 Hn0 Hn)
    as (F & Hlen & P).
  pose proof (geometry_pixels_pos K G) as Hpos.
  exists (fun i => buffer_after K frame 0 buf (S (Z.to_nat i))).
  split; [exact P|].
  intros i o Hi Ho. rewrite buffer_after_beyond by lia.
  apply (malloc_lookup heap _ buf o Hm). rewrite Z.div_mul by lia. lia.
Qed.

End ImageTheorems.

(** *** Every store copies *)

Section CopyFacts.
Import Lpd FrameProcessor Copying.

Variable K : PluginConstants.

Lemma quietly_refl r : quietly r r.
Proof. exists []. split; [symmetry; apply app_nil_r | reflexivity]. Qed.

Lemma quietly_trans r1 r2 r3 : quietly r1 r2 -> quietly r2 r3 -> quietly r1 r3.
Proof.
  intros (l1 & L1 & N1) (l2 & L2 & N2). exists (l1 ++ l2). split.
  - now rewrite L2, L1, app_assoc.
  - now rewrite List.filter_app, N1, N2.
Qed.

Lemma quietly_by r r' rest :
  log r' = log r ++ rest -> List.filter is_pkt_missing_entry rest = [] -> quietly r r'.
Proof. intros H1 H2. now exists rest. Qed.

Ltac innermost_case :=
  match goal with
  | |- context [match ?x with _ => _ end] =>
      lazymatch x with
      | context [match _ with _ => _ end] => fail
      | _ => destruct x eqn:?
      end
  end.

Ltac all_cases := repeat (innermost_case; cbn in * ).

Ltac unfold_setters :=
  unfold set_reordered_image, add_store, set_cursor, set_fault, add_log, push,
    set_plugin in *;
  cbn in *.

Ltac solve_quietly :=
  try congruence;
  first
    [ apply quietly_refl
    | unfold_setters; eapply quietly_by;
      [ cbn; first [ reflexivity | rewrite <- !app_assoc; reflexivity
                   | symmetry; apply app_nil_r ]
      | reflexivity ] ].

(** A pixel step whose cursor holds a slot read from a byte does not enter
    the zero-filling branch. *)
Lemma reorder_pixel_quietly frame idx image nppr image_row pixel_col r0 r asic_col :
  quietly r0 r /\ cursor_ok frame (cursor r) ->
  let r' := reorder_pixel K frame idx image nppr image_row pixel_col r asic_col in
  quietly r0 r' /\ cursor_ok frame (cursor r').
Proof.
  intros [Hq [Hc1 Hc2]].
  pose proof (wrap8_range (packet_state frame (pkt_num (cursor r)))) as Hu1.
  pose proof (wrap8_range (packet_state frame (wrap32 (pkt_num (cursor r) + 1)))) as Hu2.
  rewrite <- Hc1 in Hu1.
  assert (H : let r' := reorder_pixel K frame idx image nppr image_row pixel_col r asic_col in
              quietly r r' /\ cursor_ok frame (cursor r')).
  { unfold reorder_pixel, when_running, next_packet, store. cbn.
    all_cases; try congruence; unfold_setters.
    all: repeat match goal with
           | H : (_ <? _) = true |- _ => apply Z.ltb_lt in H
           | H : (_ <? _) = false |- _ => apply Z.ltb_ge in H
           end.
    all: try (exfalso; lia).
    all: split; [|split; first [reflexivity | assumption]].
    all: apply quietly_refl || (eapply quietly_by; [cbn; symmetry; apply app_nil_r | reflexivity]). }
  destruct H as [H1 H2]. split; [eapply quietly_trans; eassumption | exact H2].
Qed.

Lemma reorder_pixels_quietly frame idx image nppr r :
  cursor_ok frame (cursor r) ->
  let r' := reorder_pixels K frame idx image nppr r in
  quietly r r' /\ cursor_ok frame (cursor r').
Proof.
  intros Hc.
  apply (reorder_pixels_inv K (fun r' => quietly r r' /\ cursor_ok frame (cursor r'))).
  - intros. now apply reorder_pixel_quietly.
  - split; [apply quietly_refl | exact Hc].
Qed.

Lemma push_image_quietly frame image_size image buf r :
  quietly r (push_image frame image_size image buf r).
Proof. unfold push_image. solve_quietly. Qed.

Lemma reorder_image_quietly frame image_size idx nppr r0 r image :
  quietly r0 r /\ cursor_ok frame (cursor r) ->
  let r' := reorder_image K frame image_size idx nppr r image in
  quietly r0 r' /\ cursor_ok frame (cursor r').
Proof.
  intros [Hq Hc]. unfold reorder_image, when_running. cbv zeta.
  destruct (fault r); [split; assumption|].
  set (r1 := add_log TRACE (ReadingImage image) r).
  assert (H1 : quietly r0 r1)
    by (eapply quietly_trans; [exact Hq | subst r1; solve_quietly]).
  assert (C1 : cursor_ok frame (cursor r1)) by exact Hc.
  destruct (reorder_pixels_quietly frame idx image nppr r1 C1) as [H2 C2].
  set (r2 := reorder_pixels K frame idx image nppr r1) in *. clearbody r2.
  assert (H3 : quietly r0 r2) by (eapply quietly_trans; eassumption).
  destruct (fault r2); [split; assumption|].
  destruct (reordered_image r2) as [buf|].
  - split; [|exact C2].
    eapply quietly_trans; [exact H3|].
    apply quietly_trans with (push_image frame image_size image buf r2);
      [apply push_image_quietly | solve_quietly].
  - split; [|exact C2]. eapply quietly_trans; [exact H3 | solve_quietly].
Qed.

Lemma reorder_fem_quietly frame image_size r idx :
  quietly r (reorder_fem K frame image_size r idx).
Proof.
  unfold reorder_fem, when_running.
  destruct (fault r); [apply quietly_refl|]. cbv zeta.
  match goal with
  | |- context [fold_left ?f ?l ?a] =>
      assert (H1 : quietly r a /\ cursor_ok frame (cursor a))
        by (split; [solve_quietly | split; reflexivity]);
      assert (H2 : quietly r (fold_left f l a) /\ cursor_ok frame (cursor (fold_left f l a)))
        by (apply (fold_left_inv (fun r' => quietly r r' /\ cursor_ok frame (cursor r')));
            [intros; now apply reorder_image_quietly | exact H1]);
      generalize dependent (fold_left f l a)
  end.
  intros r2 [H2 _]. destruct (fault r2); [assumption|].
  destruct (reordered_image r2); [|assumption].
  eapply quietly_trans; [exact H2 | solve_quietly].
Qed.

Lemma process_lost_packets_quietly frame r :
  quietly r (process_lost_packets K frame r).
Proof.
  unfold process_lost_packets.
  destruct (total_packets_received (hdr frame) <? num_packets K * num_active_fems (hdr frame));
    solve_quietly.
Qed.

Lemma process_frame_quietly heap frame r :
  quietly r (process_frame K heap frame r).
Proof.
  unfold process_frame, when_running.
  destruct (fault r); [apply quietly_refl|]. cbv zeta.
  set (r0 := add_log TRACE (FrameSize (data_size frame)) _).
  assert (H0 : quietly r r0) by (subst r0; solve_quietly).
  pose proof (process_lost_packets_quietly frame r0) as H2.
  set (r2 := process_lost_packets K frame r0) in *. clearbody r2.
  match goal with
  | |- quietly _ (match try_block _ _ _ ?i ?a with _ => _ end) =>
      assert (H4 : quietly r2 a) by solve_quietly;
      set (r4 := a) in *; set (image_size := i)
  end.
  assert (H : quietly r r4)
    by (eapply quietly_trans; [exact H0|]; eapply quietly_trans; [exact H2 | exact H4]).
  clearbody r4. unfold try_block.
  destruct (malloc heap _) as [buf|].
  - eapply quietly_trans; [exact H|].
    eapply quietly_trans;
      [| apply (fold_left_inv (quietly (set_reordered_image (Some buf) r4)));
         [ intros a b _ Ha; eapply quietly_trans; [exact Ha | apply reorder_fem_quietly]
         | apply quietly_refl ] ].
    solve_quietly.
  - eapply quietly_trans; [exact H|].
    destruct (reordered_image r4); solve_quietly.
Qed.

(** X14: no pixel is filled with zero.  The slot of a packet is read from a
    [uint8_t], so it is below 256 and the test [pkt_slot < 65535] never
    fails: whatever the frame and the configuration, every store of
    [process_frame] has the slot the byte of its packet gives and writes the
    input sample found at the resolved offset of that slot in the part of
    the FEM at the loop position of the store, and the log gets no entry of
    a missing packet. *)
Theorem every_store_copies heap frame p :
  let r' := process_frame K heap frame (start p) in
  Forall (fun s =>
            0 <= st_pkt_slot s < 256 /\
            st_pkt_slot s = wrap8 (packet_state frame (st_pkt_num s)) /\
            st_value s = load16 frame (max_frame_size K * st_fem s
                                       + 2 * resolved_offset K (st_pkt_slot s)
                                               (st_pixel_offset s)))
         (stores r') /\
  List.filter is_pkt_missing_entry (log r') = [].
Proof.
  cbv zeta. split.
  - pose proof (process_frame_store_ok K heap frame (start p) (Forall_nil_2 _)) as H.
    eapply Forall_impl; [exact H|].
    intros s [Hs Hv]. cbv zeta in Hs, Hv. rewrite <- Hs in Hv.
    split; [rewrite Hs; apply wrap8_range|]. split; [exact Hs | exact Hv].
  - destruct (process_frame_quietly heap frame (start p)) as (rest & L & N).
    rewrite L. exact N.
Qed.

End CopyFacts.

(** *** Frames of several FEMs *)

Section FreedFacts.
Import Lpd FrameProcessor Freed.

Variable K : PluginConstants.

Ltac innermost_case :=
  match goal with
  | |- context [match ?x with _ => _ end] =>
      lazymatch x with
      | context [match _ with _ => _ end] => fail
      | _ => destruct x eqn:?
      end
  end.

Ltac all_cases := repeat (innermost_case; cbn in * ).

Ltac unfold_setters :=
  unfold set_reordered_image, add_store, set_cursor, set_fault, add_log, push,
    set_plugin in *;
  cbn in *.

Lemma reorder_pixel_null_only frame idx image nppr image_row pixel_col r asic_col :
  null_only r ->
  null_only (reorder_pixel K frame idx image nppr image_row pixel_col r asic_col).
Proof.
  intros [Hb Hf]. unfold null_only, reorder_pixel, when_running.
  destruct Hf as [Hf | [o Hf]]; rewrite Hf; [|split; [exact Hb | right; now exists o]].
  unfold next_packet, store. cbn.
  all_cases; try congruence; unfold_setters.
  all: split; [congruence|].
  all: right; eexists; reflexivity.
Qed.

Lemma reorder_pixels_null_only frame idx image nppr r :
  null_only r -> null_only (reorder_pixels K frame idx image nppr r).
Proof.
  apply (reorder_pixels_inv K null_only). intros. now apply reorder_pixel_null_only.
Qed.

Lemma reorder_image_null_only frame image_size idx nppr r image :
  null_only r -> null_only (reorder_image K frame image_size idx nppr r image).
Proof.
  intros H. unfold reorder_image, when_running.
  destruct (fault r) eqn:Hf; [exact H|]. cbv zeta.
  set (r1 := add_log TRACE (ReadingImage image) r).
  assert (H1 : null_only r1) by exact H.
  pose proof (reorder_pixels_null_only frame idx image nppr r1 H1) as H2.
  set (r2 := reorder_pixels K frame idx image nppr r1) in *. clearbody r2.
  destruct (fault r2) eqn:Hf2; [exact H2|].
  destruct H2 as [H2 _]. rewrite H2. split; [exact H2 | left; exact Hf2].
Qed.

Lemma reorder_fem_null_only frame image_size r idx :
  null_only r -> null_only (reorder_fem K frame image_size r idx).
Proof.
  intros H. unfold reorder_fem, when_running.
  destruct (fault r) eqn:Hf; [exact H|]. cbv zeta.
  set (r1 := set_cursor (first_packet frame) _).
  assert (H1 : null_only r1) by (destruct H as [Hb _]; split; [exact Hb | left; exact Hf]).
  clearbody r1.
  set (r2 := fold_left _ _ r1).
  assert (H2 : null_only r2)
    by (apply fold_left_inv; [intros; now apply reorder_image_null_only | exact H1]).
  clearbody r2.
  destruct (fault r2) eqn:Hf2; [exact H2|].
  destruct H2 as [H2 _]. rewrite H2. split; [exact H2 | left; exact Hf2].
Qed.

(** A FEM that starts without a buffer, with an image to reorder, faults. *)
Lemma reorder_fem_dead_faults frame image_size r idx :
  positive_geometry K ->
  0 < wrap32 (num_images_ (plugin r)) ->
  reordered_image r = None ->
  fault (reorder_fem K frame image_size r idx) <> None.
Proof.
  intros G Hn Hb. unfold reorder_fem, when_running.
  destruct (fault r) eqn:Hf; [congruence|]. cbv zeta.
  set (r1 := set_cursor (first_packet frame) _).
  assert (H1 : reordered_image r1 = None) by exact Hb. clearbody r1.
  set (r2 := fold_left _ _ r1).
  assert (H2 : reordered_image r2 = None /\ fault r2 <> None).
  { apply (fold_left_reaches (fun a => reordered_image a = None)
             (fun a => reordered_image a = None /\ fault a <> None));
      [now apply upto_nonempty | | | exact H1].
    - intros a b Ha.
      destruct (reorder_image_dead K frame image_size idx
                  (wrap32 (num_asic_cols K * num_pixel_cols_per_asic K)) a b Ha)
        as (E1 & _ & E3).
      split; [exact E1 | now apply E3].
    - intros a b [Ha _].
      destruct (reorder_image_dead K frame image_size idx
                  (wrap32 (num_asic_cols K * num_pixel_cols_per_asic K)) a b Ha)
        as (E1 & _ & E3).
      split; [exact E1 | now apply E3]. }
  clearbody r2. destruct (fault r2) eqn:Hf2; [congruence|]. now destruct H2.
Qed.

(** The FEMs after the first: when there is one, and an image to reorder,
    the frame ends in a store through the null pointer. *)
Lemma later_fems_fault frame image_size (l : list Z) r :
  positive_geometry K ->
  0 < wrap32 (num_images_ (plugin r)) ->
  l <> [] ->
  fault r = None ->
  reordered_image r = None ->
  let r' := fold_left (reorder_fem K frame image_size) l r in
  exists offset, fault r' = Some (NullWrite offset).
Proof.
  intros G Hn Hl Hf Hb.
  assert (H : null_only (fold_left (reorder_fem K frame image_size) l r)
              /\ fault (fold_left (reorder_fem K frame image_size) l r) <> None).
  { destruct l as [|idx l]; [congruence|]. cbn [fold_left].
    apply (fold_left_inv (fun a => null_only a /\ fault a <> None)).
    - intros a b _ [Ha Hfa]. destruct (fault a) eqn:E; [|congruence].
      rewrite (reorder_fem_faulted K frame image_size a b _ E). split; [exact Ha | congruence].
    - split; [apply reorder_fem_null_only; split; [exact Hb | now left]|].
      now apply reorder_fem_dead_faults. }
  cbv zeta. destruct H as [[_ [H | H]] Hne]; [congruence | exact H].
Qed.


(** X15: frames of more than one FEM.  The buffer is freed at the end of the
    first FEM's iteration and not allocated again, so with an image to
    reorder and a geometry that has pixels the first store of the second FEM
    goes through the null pointer: no frame of two or more FEMs is processed
    to its end. *)
Theorem later_fem_stores_through_null heap frame r buf :
  fault r = None ->
  malloc heap (image_pixels_ (plugin r) * 2) = Some buf ->
  2 <= num_active_fems (hdr frame) ->
  positive_geometry K ->
  geometry_pixels K <= image_pixels_ (plugin r) ->
  0 < wrap32 (num_images_ (plugin r)) ->
  exists offset, fault (process_frame K heap frame r) = Some (NullWrite offset).
Proof.
  intros Hf Hm Hfems G Hpix Hn.
  rewrite (process_frame_unfold K heap frame r Hf). cbv zeta.
  set (r0 := add_log TRACE (FrameSize (data_size frame)) _).
  destruct (process_lost_packets_effect K frame r0)
    as (_ & _ & _ & Pp & Pn & _ & _ & _ & Pf & _).
  set (r2 := process_lost_packets K frame r0) in *.
  change (plugin r0) with (plugin r) in *. change (fault r0) with (fault r) in *.
  clearbody r2. clear r0.
  set (r3 := add_log TRACE (ActiveFems _ _) _).
  change (plugin r3) with (plugin r2).
  set (image_size := wrap32 (image_width_ (plugin r2) * image_height_ (plugin r2) * 2)).
  clearbody image_size.
  set (r4 := set_reordered_image None _).
  assert (H4 : plugin r4 = plugin r2 /\ fault r4 = fault r2) by (repeat split).
  destruct H4 as (H4p & H4f). clearbody r4. clear r3.
  unfold try_block. rewrite H4p, Pp, Hm.
  destruct (upto_cons (num_active_fems (hdr frame)) ltac:(lia)) as [fems Efems].
  assert (Hne : fems <> []).
  { intros ->. apply (f_equal (@length Z)) in Efems. rewrite upto_length in Efems.
    cbn in Efems. lia. }
  rewrite Efems. cbn [fold_left].
  set (r5 := set_reordered_image (Some buf) r4).
  pose proof (malloc_length _ _ _ Hm) as Hlen. rewrite Z.div_mul in Hlen by lia.
  assert (Hpos : 0 <= image_pixels_ (plugin r)).
  { unfold malloc in Hm. destruct (malloc_fails heap); [discriminate|]. cbn in Hm.
    destruct (Z.ltb_spec (image_pixels_ (plugin r) * 2) 0); [discriminate | lia]. }
  assert (H5 : live (Z.to_nat (image_pixels_ (plugin r))) r5).
  { split; [cbn; congruence | now exists buf]. }
  assert (H5p : plugin r5 = plugin r2) by exact H4p.
  clearbody r5.
  assert (Hroom : geometry_pixels K <= Z.of_nat (Z.to_nat (image_pixels_ (plugin r))))
    by lia.
  destruct (reorder_fem_live K _ frame image_size r5 0 Hroom H5)
    as (F1 & F2 & (_ & _ & _ & F3 & _) & _).
  set (r6 := reorder_fem K frame image_size r5 0) in *. clearbody r6.
  apply later_fems_fault; try assumption.
  rewrite F3, H5p, Pn. exact Hn.
Qed.

End FreedFacts.

(** *** Frame numbers over a sequence of frames *)

Section StampFacts.
Import Lpd FrameProcessor Growth Stamps.

Variable K : PluginConstants.

Lemma stamps_split c a (k : nat) :
  0 <= a ->
  stamps c (a + Z.of_nat k) = stamps c a ++ stamps (c + a) (Z.of_nat k).
Proof.
  intros Ha. induction k as [|k IH].
  - rewrite Z.add_0_r. unfold stamps at 3. change (upto (Z.of_nat 0)) with (@nil Z).
    cbn [flat_map]. now rewrite app_nil_r.
  - rewrite Nat2Z.inj_succ, <- Z.add_1_r, Z.add_assoc.
    unfold stamps in *. rewrite !upto_succ by lia. rewrite !flat_map_app, IH.
    cbn [flat_map]. rewrite !app_nil_r, <- app_assoc. do 2 f_equal.
    now rewrite Z.add_assoc.
Qed.

(** X16: the frame numbers over a run of single-FEM frames.  The frames pushed
    are stamped with consecutive numbers, three frames to a number, from the
    counter the plugin started with, and the counter ends that much higher. *)
Theorem frame_numbers_run_on frames r :
  fault r = None ->
  single_fem_frames (image_pixels_ (plugin r)) frames ->
  geometry_pixels K <= image_pixels_ (plugin r) ->
  let r' := process_frames K frames r in
  let c := image_counter_ (plugin r) in
  let images := wrap32 (num_images_ (plugin r)) * Z.of_nat (length frames) in
  fault r' = None /\
  image_counter_ (plugin r') = c + images /\
  map stamp_of (pushed r') = map stamp_of (pushed r) ++ stamps c images.
Proof.
  revert r. induction frames as [|[heap frame] frames IH]; intros r Hf Hall Hfit.
  - cbn. rewrite Z.mul_0_r, Z.add_0_r. unfold stamps. cbn. now rewrite app_nil_r.
  - apply Forall_cons_iff in Hall as [[Hm Hone] Hall]. cbn [fst snd] in Hm, Hone.
    destruct (malloc heap (image_pixels_ (plugin r) * 2)) as [buf|] eqn:Em; [|congruence].
    destruct (process_frame_pushed K heap frame r buf Hf Em ltac:(lia) Hfit)
      as ((plane & P) & _ & Q).
    destruct (Q Hone) as [F C].
    destruct (process_frame_extends K heap frame r) as (_ & _ & Ep & En & _).
    unfold process_frames in *. cbn [fold_left fst snd length].
    set (r1 := process_frame K heap frame r) in *. clearbody r1.
    specialize (IH r1 F). rewrite Ep, En in IH. specialize (IH Hall Hfit).
    cbv zeta in IH. destruct IH as (I1 & I2 & I3).
    pose proof (wrap32_range (num_images_ (plugin r))) as Hw.
    split; [exact I1|]. split; [rewrite I2, C; lia|].
    rewrite I3, P, map_app, <- app_assoc. f_equal.
    pose proof (triplets_stamps (plugin r) frame (image_counter_ (plugin r))
                  (wrap32 (num_images_ (plugin r))) plane) as T.
    change (map stamp_of
              (triplets (plugin r) frame (image_counter_ (plugin r))
                 (wrap32 (num_images_ (plugin r))) plane)
            = stamps (image_counter_ (plugin r)) (wrap32 (num_images_ (plugin r)))) in T.
    rewrite T.
    rewrite C.
    replace (wrap32 (num_images_ (plugin r)) * Z.of_nat (S (length frames)))
      with (wrap32 (num_images_ (plugin r))
            + Z.of_nat (Z.to_nat (wrap32 (num_images_ (plugin r)) * Z.of_nat (length frames))))
      by (unfold u32 in Hw; nia).
    rewrite stamps_split by (unfold u32 in Hw; lia).
    rewrite Z2Nat.id by (unfold u32 in Hw; nia). reflexivity.
Qed.

End StampFacts.

(** *** A buffer smaller than the geometry *)

Section OverflowFacts.
Import Lpd FrameProcessor Reorder.

Variable K : PluginConstants.

Ltac innermost_case :=
  match goal with
  | |- context [match ?x with _ => _ end] =>
      lazymatch x with
      | context [match _ with _ => _ end] => fail
      | _ => destruct x eqn:?
      end
  end.

Ltac all_cases := repeat (innermost_case; cbn in * ).

Ltac unfold_setters :=
  unfold set_reordered_image, add_store, set_cursor, set_fault, add_log, push,
    set_plugin in *;
  cbn in *.

(** One pixel on a run with a buffer of [n] samples: the store lands in the
    buffer and the run goes on, or the store is beyond the buffer and the
    run stops there. *)
Lemma reorder_pixel_room n frame idx image c r :
  live n r ->
  let r' := reorder_pixel K frame idx image
              (wrap32 (num_asic_cols K * num_pixel_cols_per_asic K))
              (fst (fst c)) (snd (fst c)) r (snd c) in
  pushed r' = pushed r /\
  ((output_offset_at K c < Z.of_nat n /\ live n r') \/
   (Z.of_nat n <= output_offset_at K c /\
    fault r' = Some (WriteOutOfBounds (output_offset_at K c)))).
Proof.
  intros (Hf & buf & Hb & Hl). destruct c as [[image_row pixel_col] asic_col].
  unfold live, output_offset_at. cbn [fst snd].
  unfold reorder_pixel, when_running, next_packet, store. rewrite Hf. cbn.
  all_cases; unfold_setters; try congruence.
  all: split; [reflexivity|].
  all: repeat match goal with
         | H : (_ <? _) = true |- _ => apply Z.ltb_lt in H
         | H : (_ <? _) = false |- _ => apply Z.ltb_ge in H
         | H : Some _ = Some _ |- _ => injection H as <-
         end.
  all: subst n.
  all: first [ right; split; [lia | reflexivity]
             | left; split; [assumption|]; split; [assumption|]; eexists;
               split; [reflexivity|]; apply length_insert ].
Qed.

Lemma scan_room n frame idx image (l : list (Z * Z * Z)) :
  forall r,
    live n r ->
    let r' := fold_left (fun r c => reorder_pixel K frame idx image
                                      (wrap32 (num_asic_cols K * num_pixel_cols_per_asic K))
                                      (fst (fst c)) (snd (fst c)) r (snd c)) l r in
    pushed r' = pushed r /\
    ((live n r' /\ forall c, In c l -> output_offset_at K c < Z.of_nat n) \/
     (exists c, In c l /\ Z.of_nat n <= output_offset_at K c /\
                fault r' = Some (WriteOutOfBounds (output_offset_at K c)))).
Proof.
  induction l as [|c l IH]; intros r Hr.
  - cbn. split; [reflexivity|]. left. split; [exact Hr|]. intros c [].
  - cbn [fold_left].
    destruct (reorder_pixel_room n frame idx image c r Hr)
      as (Hp & [(Ho & Hlive) | (Ho & Hf)]).
    + destruct (IH _ Hlive) as (Hp' & [(Hl' & Hall) | (c' & Hin & Ho' & Hf')]).
      * split; [congruence|]. left. split; [exact Hl'|].
        intros c0 [<-|Hin]; [exact Ho | now apply Hall].
      * split; [congruence|]. right. exists c'. split; [now right | now split].
    + rewrite fold_left_fixed
        by (intros b;
            now apply reorder_pixel_faulted with (WriteOutOfBounds (output_offset_at K c))).
      split; [exact Hp|]. right. exists c. split; [now left | now split].
Qed.

(** The pixel loops of one image on a buffer that is smaller than the
    image of the geometry. *)
Lemma reorder_pixels_overflow n frame idx image r :
  positive_geometry K ->
  geometry_pixels K < 2 ^ 32 ->
  Z.of_nat n < geometry_pixels K ->
  live n r ->
  let r' := reorder_pixels K frame idx image
              (wrap32 (num_asic_cols K * num_pixel_cols_per_asic K)) r in
  pushed r' = pushed r /\
  exists offset, Z.of_nat n <= offset /\ fault r' = Some (WriteOutOfBounds offset).
Proof.
  intros G HG Hn Hr. cbv zeta. rewrite reorder_pixels_scan.
  destruct (scan_room n frame idx image (scan K) r Hr)
    as (Hp & [(_ & Hall) | (c & _ & Ho & Hf)]).
  - exfalso.
    assert (Hin : In (geometry_pixels K - 1) (scan_offsets K)).
    { apply (Permutation_in _ (Permutation_sym (scan_offsets_all K G HG))).
      apply in_upto. lia. }
    unfold scan_offsets in Hin. apply in_map_iff in Hin as (c & Ec & Hc).
    specialize (Hall c Hc). lia.
  - split; [exact Hp|]. now exists (output_offset_at K c).
Qed.

(** X17: a configured image smaller than the geometry.  When [image_pixels_] is
    less than the number of pixels the loops write for an image, a frame with
    an active FEM and an image to reorder does not get through its first
    image: a store goes beyond the end of the buffer that was allocated, and
    nothing is pushed. *)
Theorem small_image_overflows_buffer heap frame r buf :
  fault r = None ->
  malloc heap (image_pixels_ (plugin r) * 2) = Some buf ->
  0 < num_active_fems (hdr frame) ->
  positive_geometry K ->
  geometry_pixels K < 2 ^ 32 ->
  image_pixels_ (plugin r) < geometry_pixels K ->
  0 < wrap32 (num_images_ (plugin r)) ->
  let r' := process_frame K heap frame r in
  pushed r' = pushed r /\
  exists offset,
    image_pixels_ (plugin r) <= offset /\ fault r' = Some (WriteOutOfBounds offset).
Proof.
  intros Hf Hm Hfems G HG Hsmall Hn. cbv zeta.
  rewrite (process_frame_unfold K heap frame r Hf). cbv zeta.
  set (r0 := add_log TRACE (FrameSize (data_size frame)) _).
  destruct (process_lost_packets_effect K frame r0)
    as (_ & _ & _ & Pp & Pn & _ & Ppushed & _ & Pf & _).
  set (r2 := process_lost_packets K frame r0) in *.
  change (plugin r0) with (plugin r) in *. change (fault r0) with (fault r) in *.
  change (pushed r0) with (pushed r) in *.
  clearbody r2. clear r0.
  set (r3 := add_log TRACE (ActiveFems _ _) _).
  change (plugin r3) with (plugin r2).
  set (image_size := wrap32 (image_width_ (plugin r2) * image_height_ (plugin r2) * 2)).
  clearbody image_size.
  set (r4 := set_reordered_image None _).
  assert (H4 : plugin r4 = plugin r2 /\ fault r4 = fault r2 /\ pushed r4 = pushed r2)
    by (repeat split).
  destruct H4 as (H4p & H4f & H4u). clearbody r4. clear r3.
  unfold try_block. rewrite H4p, Pp, Hm.
  destruct (upto_cons (num_active_fems (hdr frame)) Hfems) as [fems ->].
  cbn [fold_left].
  set (r5 := set_reordered_image (Some buf) r4).
  pose proof (malloc_length _ _ _ Hm) as Hlen. rewrite Z.div_mul in Hlen by lia.
  assert (Hpos : 0 <= image_pixels_ (plugin r)).
  { unfold malloc in Hm. destruct (malloc_fails heap); [discriminate|]. cbn in Hm.
    destruct (Z.ltb_spec (image_pixels_ (plugin r) * 2) 0); [discriminate | lia]. }
  assert (H5 : live (length buf) r5 /\ plugin r5 = plugin r2 /\ pushed r5 = pushed r)
    by (repeat split; [cbn; congruence | now exists buf | exact H4p | cbn; congruence]).
  destruct H5 as (H5 & H5p & H5u). clearbody r5.
  assert (E : exists r8,
             fold_left (reorder_fem K frame image_size) fems
               (reorder_fem K frame image_size r5 0) = r8 /\
             pushed r8 = pushed r /\
             exists offset,
               image_pixels_ (plugin r) <= offset /\
               fault r8 = Some (WriteOutOfBounds offset)).
  { unfold reorder_fem at 2. unfold when_running at 1. rewrite (proj1 H5). cbv zeta.
    set (r6 := set_cursor (first_packet frame) _).
    assert (H6 : live (length buf) r6 /\ pushed r6 = pushed r)
      by (split; [exact H5 | exact H5u]).
    destruct H6 as (H6 & H6u). clearbody r6.
    rewrite H5p, Pn.
    destruct (upto_cons (wrap32 (num_images_ (plugin r))) Hn) as [images ->].
    cbn [fold_left].
    unfold reorder_image at 2. unfold when_running at 2. rewrite (proj1 H6). cbv zeta.
    set (r7 := add_log TRACE (ReadingImage 0) r6).
    assert (H7 : live (length buf) r7 /\ pushed r7 = pushed r)
      by (split; [exact H6 | exact H6u]).
    destruct H7 as (H7 & H7u). clearbody r7.
    destruct (reorder_pixels_overflow (length buf) frame 0 0 r7 G HG ltac:(lia) H7)
      as (Hp & offset & Ho & Hfault).
    set (r8 := reorder_pixels K frame 0 0 _ r7) in *. clearbody r8.
    unfold when_running at 2. rewrite Hfault.
    rewrite (fold_left_fixed (reorder_image K frame image_size 0 _) images r8)
      by (intros b; now apply reorder_image_faulted with (WriteOutOfBounds offset)).
    unfold when_running at 1. rewrite Hfault.
    rewrite (fold_left_fixed (reorder_fem K frame image_size) fems r8)
      by (intros b; now apply reorder_fem_faulted with (WriteOutOfBounds offset)).
    exists r8. split; [reflexivity|]. split; [congruence|].
    exists offset. split; [lia | exact Hfault]. }
  destruct E as (r8 & -> & Hp & offset & Ho & Hfault).
  split; [exact Hp|]. now exists offset.
Qed.

End OverflowFacts.

(** *** Instances of the further properties *)

Section MoreWitnesses.
Import Lpd FrameProcessor Sample MoreSamples Lifetime Growth Reorder Planes Layout Freed Stamps.

Lemma small_detector_pixels : geometry_pixels small_detector = 16.
Proof. reflexivity. Qed.

Lemma masks_cover_word_witness :
  Z.lor (Z.lor (Z.land marked_word start_of_frame_mask)
               (Z.land marked_word end_of_frame_mask))
        (Z.land marked_word packet_number_mask) = marked_word /\
  Z.land start_of_frame_mask end_of_frame_mask = 0 /\
  Z.land start_of_frame_mask packet_number_mask = 0 /\
  Z.land end_of_frame_mask packet_number_mask = 0.
Proof. apply (masks_cover_word marked_word). unfold marked_word. lia. Defined.

Lemma status_after_frames_witness :
  let frames := [(good_heap, empty_frame); (good_heap, full_frame)] in
  let r := start (small_plugin 2) in
  let msg : IpcMessage := ∅ in
  let reported := status "lpd" msg (plugin (process_frames small_detector frames r)) in
  reported !! String.append "lpd" "/packets_lost"
  = Some (packets_lost_ (plugin (process_frames small_detector frames r))) /\
  reported !! String.append "lpd" "/packets_lost"
  = Some (packets_lost_ (plugin r) + total_lost small_detector frames) /\
  forall key, key <> String.append "lpd" "/packets_lost" -> reported !! key = msg !! key.
Proof.
  apply (status_after_frames small_detector "lpd" ∅
           [(good_heap, empty_frame); (good_heap, full_frame)] (start (small_plugin 2))).
  - vm_compute. reflexivity.
  - unfold int_range. vm_compute. split; [discriminate | reflexivity].
  - unfold int_range. vm_compute. split; [discriminate | reflexivity].
Defined.

Lemma no_active_fems_witness :
  let r' := process_frame small_detector good_heap no_fem_frame (start (small_plugin 2)) in
  fault r' = None /\
  pushed r' = pushed (start (small_plugin 2)) /\
  stores r' = stores (start (small_plugin 2)) /\
  plugin r' = plugin (start (small_plugin 2)) /\
  reordered_image r'
  = malloc good_heap (image_pixels_ (plugin (start (small_plugin 2))) * 2).
Proof.
  apply (no_active_fems small_detector good_heap no_fem_frame (start (small_plugin 2)));
    [reflexivity | reflexivity | cbn; lia].
Defined.

Lemma no_images_witness :
  let r' := process_frame small_detector good_heap full_frame (start (small_plugin 0)) in
  fault r' = None /\
  pushed r' = pushed (start (small_plugin 0)) /\
  stores r' = stores (start (small_plugin 0)) /\
  image_counter_ (plugin r') = image_counter_ (plugin (start (small_plugin 0))) /\
  (0 < num_active_fems (hdr full_frame) -> reordered_image r' = None).
Proof.
  apply (no_images small_detector good_heap full_frame (start (small_plugin 0)));
    reflexivity.
Defined.

Lemma scan_offsets_permutation_witness :
  Permutation (scan_offsets small_detector) (upto (geometry_pixels small_detector)).
Proof.
  apply (scan_offsets_permutation small_detector);
    [exact small_detector_positive | rewrite small_detector_pixels; lia].
Defined.

Lemma single_fem_image_contents_witness :
  let r := start (small_plugin 2) in
  let r' := process_frame small_detector good_heap full_frame r in
  exists plane,
    fault r' = None /\
    pushed r' = pushed r ++
                triplets (plugin r) full_frame (image_counter_ (plugin r))
                  (num_images_ (plugin r)) plane /\
    forall i, 0 <= i < num_images_ (plugin r) ->
      length (plane i) = Z.to_nat (image_width_ (plugin r) * image_height_ (plugin r)) /\
      forall pixel_row pixel_col asic_row asic_col,
        0 <= pixel_row < num_pixel_rows_per_asic small_detector ->
        0 <= pixel_col < num_pixel_cols_per_asic small_detector ->
        0 <= asic_row < num_asic_rows small_detector ->
        0 <= asic_col < num_asic_cols small_detector ->
        image_row small_detector pixel_row asic_row < image_height_ (plugin r) /\
        image_col small_detector pixel_col asic_col < image_width_ (plugin r) /\
        plane i !! Z.to_nat (image_row small_detector pixel_row asic_row
                             * image_width_ (plugin r)
                             + image_col small_detector pixel_col asic_col)
        = Some (expected_pixel small_detector full_frame 0
                  (i * geometry_pixels small_detector
                   + stream_index small_detector pixel_row pixel_col asic_row asic_col)).
Proof.
  apply (single_fem_image_contents small_detector good_heap full_frame
           (start (small_plugin 2)) small_buffer);
    [ reflexivity | reflexivity | reflexivity | exact small_detector_positive
    | rewrite small_detector_pixels; cbn; lia | reflexivity | reflexivity | cbn; lia
    | cbn; lia | rewrite small_detector_pixels; cbn; lia ].
Defined.

Lemma samples_beyond_geometry_uninitialised_witness :
  let r := start wide_plugin in
  let r' := process_frame small_detector good_heap full_frame r in
  exists plane,
    pushed r' = pushed r ++
                triplets (plugin r) full_frame (image_counter_ (plugin r))
                  (num_images_ (plugin r)) plane /\
    forall i o, 0 <= i < num_images_ (plugin r) ->
      geometry_pixels small_detector <= o < image_pixels_ (plugin r) ->
      plane i !! Z.to_nat o = Some (garbage good_heap o).
Proof.
  apply (samples_beyond_geometry_uninitialised small_detector good_heap full_frame
           (start wide_plugin) wide_buffer);
    [ reflexivity | reflexivity | reflexivity | exact small_detector_positive
    | rewrite small_detector_pixels; cbn; lia | reflexivity | cbn; lia | cbn; lia
    | rewrite small_detector_pixels; cbn; lia ].
Defined.

Lemma later_fem_stores_through_null_witness :
  exists offset,
    fault (process_frame small_detector good_heap two_fem_frame (start (small_plugin 1)))
    = Some (NullWrite offset).
Proof.
  apply (later_fem_stores_through_null small_detector good_heap two_fem_frame
           (start (small_plugin 1)) small_buffer);
    [ reflexivity | reflexivity | cbn; lia | exact small_detector_positive
    | rewrite small_detector_pixels; cbn; lia | reflexivity ].
Defined.

Lemma small_image_overflows_buffer_witness :
  let r := start narrow_plugin in
  let r' := process_frame small_detector good_heap full_frame r in
  pushed r' = pushed r /\
  exists offset,
    image_pixels_ (plugin r) <= offset /\ fault r' = Some (WriteOutOfBounds offset).
Proof.
  apply (small_image_overflows_buffer small_detector good_heap full_frame
           (start narrow_plugin) (map (garbage good_heap) (upto 4)));
    [ reflexivity | reflexivity | cbn; lia | exact small_detector_positive
    | rewrite small_detector_pixels; lia | rewrite small_detector_pixels; cbn; lia
    | reflexivity ].
Defined.

Lemma frame_numbers_run_on_witness :
  let frames := [(good_heap, full_frame); (good_heap, empty_frame)] in
  let r := start (small_plugin 2) in
  let r' := process_frames small_detector frames r in
  let c := image_counter_ (plugin r) in
  let images := wrap32 (num_images_ (plugin r)) * Z.of_nat (length frames) in
  fault r' = None /\
  image_counter_ (plugin r') = c + images /\
  map stamp_of (pushed r') = map stamp_of (pushed r) ++ stamps c images.
Proof.
  apply (frame_numbers_run_on small_detector
           [(good_heap, full_frame); (good_heap, empty_frame)] (start (small_plugin 2)));
    [ reflexivity
    | repeat constructor; discriminate
    | rewrite small_detector_pixels; cbn; lia ].
Defined.

End MoreWitnesses.

(** ** The Python extension over the FEM API *)

Section FemFacts.
Import FemApi.

Variable pf : Platform.

Lemma validate_cases func_name _handle s k :
  (exists format,
      _validate_ptr_and_handle func_name _handle s k = (Raises format [ArgStr func_name], s)) \/
  (handle (self s) <> NULL /\
   _validate_ptr_and_handle func_name _handle s k = k (handle (self s))).
Proof.
  unfold _validate_ptr_and_handle.
  destruct (PyCapsule_GetPointer _handle); cbn [negb]; [|left; eexists; reflexivity].
  destruct (Z.eqb_spec (handle (self s)) NULL) as [E|E]; [left; eexists; reflexivity|].
  right. now split.
Qed.

Lemma validate_closed func_name _handle s k :
  handle (self s) = NULL ->
  exists format,
    _validate_ptr_and_handle func_name _handle s k = (Raises format [ArgStr func_name], s).
Proof.
  intros H. destruct (validate_cases func_name _handle s k) as [E | [E _]];
    [exact E | contradiction].
Qed.

Lemma validate_open func_name s k :
  handle (self s) <> NULL ->
  _validate_ptr_and_handle func_name PyFemCapsule s k = k (handle (self s)).
Proof.
  intros H. unfold _validate_ptr_and_handle. cbn.
  destruct (Z.eqb_spec (handle (self s)) NULL); [contradiction | reflexivity].
Qed.

Lemma advances_same s : advances s s.
Proof. now left. Qed.

Lemma advances_call s c :
  handle (self s) <> NULL -> uses (handle (self s)) c -> advances s (call c s).
Proof. intros H Hc. right. left. split; [exact H|]. now exists c. Qed.

(** A validated function body that advances the session makes the function
    advance it. *)
Lemma validate_advances func_name _handle s k :
  (handle (self s) <> NULL -> advances s (snd (k (handle (self s))))) ->
  advances s (snd (_validate_ptr_and_handle func_name _handle s k)).
Proof.
  intros Hk. destruct (validate_cases func_name _handle s k) as [[f E] | [H E]];
    rewrite E; [apply advances_same | now apply Hk].
Qed.

Ltac advance :=
  repeat match goal with
         | |- advances ?s (snd (if ?b then _ else _)) => destruct b
         | |- advances ?s (snd (match ?x with _ => _ end)) => destruct x
         | |- advances ?s (snd (let '(_, _) := ?x in _)) => destruct x
         end;
  cbn [snd];
  first [ apply advances_same | apply advances_call; [assumption | now split] ].

Lemma invoke_advances m args alloc s :
  advances s (snd (invoke pf m args alloc s)).
Proof.
  destruct m; cbn [invoke].
  - unfold _get_id. destruct (parse_O args); [|apply advances_same].
    apply validate_advances. intros H. advance.
  - unfold _get_int. destruct (parse_Oiii args) as [[[[o a] b] c]|]; [|apply advances_same].
    apply validate_advances. intros H. advance.
  - unfold _set_int. destruct (parse_OiiO args) as [[[[o a] b] c]|]; [|apply advances_same].
    apply validate_advances. intros H.
    destruct (sized_values c) as [[[size single] items]|]; advance.
  - unfold _get_short. destruct (parse_Oiii args) as [[[[o a] b] c]|]; [|apply advances_same].
    apply validate_advances. intros H. advance.
  - unfold _set_short. destruct (parse_OiiO args) as [[[[o a] b] c]|]; [|apply advances_same].
    apply validate_advances. intros H.
    destruct (sized_values c) as [[[size single] items]|]; advance.
  - unfold _get_float. destruct (parse_Oiii args) as [[[[o a] b] c]|]; [|apply advances_same].
    apply validate_advances. intros H. advance.
  - unfold _set_float. destruct (parse_OiiO args) as [[[[o a] b] c]|]; [|apply advances_same].
    apply validate_advances. intros H.
    destruct (sized_values c) as [[[size single] items]|]; advance.
  - unfold _get_error_msg. destruct (parse_O args); [|apply advances_same].
    apply validate_advances. intros H. advance.
  - unfold _cmd. destruct (parse_Oii args) as [[[o a] b]|]; [|apply advances_same].
    apply validate_advances. intros H. advance.
  - unfold _close. destruct (parse_O args); [|apply advances_same].
    apply validate_advances. intros H. cbn [snd]. right. right. now split.
Qed.

Lemma invoke_closed m args alloc s :
  handle (self s) = NULL ->
  snd (invoke pf m args alloc s) = s /\
  (fst (invoke pf m args alloc s) = Fails \/
   exists format func_name,
     fst (invoke pf m args alloc s) = Raises format [ArgStr func_name]).
Proof.
  intros H.
  assert (V : forall func_name o k,
             snd (_validate_ptr_and_handle func_name o s k) = s /\
             (fst (_validate_ptr_and_handle func_name o s k) = Fails \/
              exists format name,
                fst (_validate_ptr_and_handle func_name o s k) = Raises format [ArgStr name])).
  { intros func_name o k. destruct (validate_closed func_name o s k H) as [f E].
    rewrite E. split; [reflexivity|]. right. now exists f, func_name. }
  destruct m; cbn [invoke].
  - unfold _get_id. destruct (parse_O args); [apply V | now split; [|left]].
  - unfold _get_int. destruct (parse_Oiii args) as [[[[o a] b] c]|];
      [apply V | now split; [|left]].
  - unfold _set_int. destruct (parse_OiiO args) as [[[[o a] b] c]|];
      [apply V | now split; [|left]].
  - unfold _get_short. destruct (parse_Oiii args) as [[[[o a] b] c]|];
      [apply V | now split; [|left]].
  - unfold _set_short. destruct (parse_OiiO args) as [[[[o a] b] c]|];
      [apply V | now split; [|left]].
  - unfold _get_float. destruct (parse_Oiii args) as [[[[o a] b] c]|];
      [apply V | now split; [|left]].
  - unfold _set_float. destruct (parse_OiiO args) as [[[[o a] b] c]|];
      [apply V | now split; [|left]].
  - unfold _get_error_msg. destruct (parse_O args); [apply V | now split; [|left]].
  - unfold _cmd. destruct (parse_Oii args) as [[[o a] b]|]; [apply V | now split; [|left]].
  - unfold _close. destruct (parse_O args); [apply V | now split; [|left]].
Qed.

(** X18: a closed FEM.  Once the handle is [NULL] (after [close]), every method
    of the wrapper fails, whatever its arguments: it returns [NULL] with an
    exception set and leaves the session as it is, without a call into the
    library. *)
Theorem closed_fem_rejects_calls m args alloc s :
  handle (self s) = NULL ->
  snd (invoke pf m args alloc s) = s /\
  (fst (invoke pf m args alloc s) = Fails \/
   exists format func_name,
     fst (invoke pf m args alloc s) = Raises format [ArgStr func_name]).
Proof. apply invoke_closed. Qed.

Lemma run_script_closed calls s :
  handle (self s) = NULL -> run_script pf calls s = s.
Proof.
  intros H. unfold run_script. induction calls as [|[[m args] alloc] calls IH]; [reflexivity|].
  cbn [fold_left fst snd].
  destruct (invoke_closed m args alloc s H) as [E _]. now rewrite E.
Qed.

(** The calls a program's methods add to the trace of an open FEM: calls on
    the handle, and then, if the program closed it, [femClose]. *)
Lemma run_script_trace calls s :
  (handle (self (run_script pf calls s)) = handle (self s) /\
   exists others, trace (run_script pf calls s) = trace s ++ others /\
                  Forall (uses (handle (self s))) others) \/
  (handle (self (run_script pf calls s)) = NULL /\
   exists others,
     trace (run_script pf calls s) = trace s ++ others ++ [FemClose (handle (self s))] /\
     Forall (uses (handle (self s))) others).
Proof.
  unfold run_script.
  apply (fold_left_inv
           (fun a => (handle (self a) = handle (self s) /\
                      exists others, trace a = trace s ++ others /\
                                     Forall (uses (handle (self s))) others) \/
                     (handle (self a) = NULL /\
                      exists others,
                        trace a = trace s ++ others ++ [FemClose (handle (self s))] /\
                        Forall (uses (handle (self s))) others))).
  - intros a [[m args] alloc] _ Ha. cbn [fst snd].
    destruct Ha as [(Eh & others & Et & Hn) | (Eh & Hrest)].
    + destruct (invoke_advances m args alloc a) as [-> | [(Ho & c & Hc & ->) | (Ho & ->)]].
      * left. split; [exact Eh|]. now exists others.
      * left. split; [exact Eh|]. exists (others ++ [c]). split.
        -- cbn. rewrite Et. now rewrite <- app_assoc.
        -- apply Forall_app. split; [exact Hn|]. constructor; [|constructor].
           now rewrite <- Eh.
      * right. split; [reflexivity|]. exists others. split; [|exact Hn].
        cbn. rewrite Et, Eh. now rewrite <- app_assoc.
    + destruct (invoke_closed m args alloc a Eh) as [-> _].
      right. now split.
  - left. split; [reflexivity|]. exists []. split; [now rewrite app_nil_r | constructor].
Qed.

(** X19: the handle is closed once.  Whatever methods a program calls on a FEM
    object whose handle is not [NULL], with whatever arguments, by the time
    the capsule is collected [femClose] was called on the handle exactly once,
    it is the last call the wrapper made into the library, and every call
    before it was made on that handle. *)
Theorem handle_closed_once calls s :
  handle (self s) <> NULL ->
  exists others,
    trace (object_life pf calls s) = trace s ++ others ++ [FemClose (handle (self s))] /\
    Forall (uses (handle (self s))) others.
Proof.
  intros H. unfold object_life, _del. cbn [PyCapsule_GetPointer negb].
  destruct (run_script_trace calls s) as [(Eh & others & Et & Hn) | (Eh & others & Et & Hn)].
  - (* the program did not close the FEM: the destructor does *)
    destruct (Z.eqb_spec (handle (self (run_script pf calls s))) NULL) as [E|E];
      [congruence|]. cbn [negb].
    exists others. split; [|exact Hn]. cbn. rewrite Et, Eh. now rewrite <- app_assoc.
  - (* the program closed it: the destructor finds the handle null *)
    rewrite Eh. cbn. exists others. now split.
Qed.

(** X20: a FEM from [initialise] to the collection of its capsule.  When
    [_initialise] returns the capsule and the handle is not [NULL], the calls
    into the library over the life of the object are [femInitialise] with the
    configuration built from the arguments, then calls on the handle, then
    one [femClose] on it; and [femInitialise] had returned [FEM_RTN_OK]. *)
Theorem fem_lifetime fem_id fem_address fem_port data_address alloc history logged calls
    result s :
  _initialise pf [PyInt fem_id; PyStr fem_address; PyInt fem_port; PyStr data_address]
    alloc history logged = (result, Some s) ->
  result = Returns PyFemCapsule ->
  handle (self s) <> NULL ->
  let c := FemInitialise {| femNumber := fem_id; femAddress := fem_address;
                            femPort := fem_port; dataAddress := data_address |} in
  rc_of pf history c = FEM_RTN_OK pf /\
  exists others,
    trace (object_life pf calls s)
    = history ++ c :: others ++ [FemClose (handle (self s))] /\
    Forall (uses (handle (self s))) others.
Proof.
  intros Hi Hr Ho. cbv zeta. subst result. unfold _initialise, parse_isis in Hi.
  cbn [as_str] in Hi.
  destruct (as_int (PyInt fem_id)) as [a|] eqn:Ea; [|discriminate].
  destruct (as_int (PyInt fem_port)) as [b|] eqn:Eb; [|discriminate].
  assert (a = fem_id) as -> by (unfold as_int in Ea; destruct (fits 32 fem_id); congruence).
  assert (b = fem_port) as -> by (unfold as_int in Eb; destruct (fits 32 fem_port); congruence).
  destruct (malloc_ok alloc 1 (sizeof_Fem pf)); cbn [negb] in Hi; [|discriminate].
  match type of Hi with
  | context [rc_of pf history ?c =? FEM_RTN_OK pf] =>
      destruct (Z.eqb_spec (rc_of pf history c) (FEM_RTN_OK pf)) as [E|E]
  end; cbn [negb] in Hi; [|discriminate].
  injection Hi as <-. split; [exact E|].
  match goal with
  | |- context [object_life pf calls ?s0] => set (s := s0) in *
  end.
  unfold object_life, _del. cbn [PyCapsule_GetPointer negb].
  destruct (run_script_trace calls s) as [(Eh & others & Et & Hn) | (Eh & others & Et & Hn)].
  - destruct (Z.eqb_spec (handle (self (run_script pf calls s))) NULL) as [E'|E'];
      [congruence|]. cbn [negb].
    exists others. split; [|exact Hn]. cbn [call trace]. rewrite Et, Eh.
    subst s. cbn [trace self handle]. now rewrite <- !app_assoc.
  - rewrite Eh. cbn [Z.eqb negb NULL]. exists others. split; [|exact Hn].
    rewrite Et. subst s. cbn [trace self handle]. now rewrite <- !app_assoc.
Qed.

Lemma fits_32_64 z : fits 32 z = true -> fits 64 z = true.
Proof. unfold fits. intros H. apply andb_true_iff in H as [H1 H2]. apply andb_true_iff. lia. Qed.

Lemma int_of_long_fits z : fits 32 z = true -> int_of_long z = z.
Proof.
  unfold fits, int_of_long, signed. intros H. apply andb_true_iff in H as [H1 H2].
  rewrite Z.mod_small by lia. lia.
Qed.

Lemma int_of_long_length (n : nat) :
  Z.of_nat n < 2 ^ 31 -> int_of_long (Z.of_nat n) = Z.of_nat n.
Proof. intros H. apply int_of_long_fits. unfold fits. apply andb_true_iff. lia. Qed.

Lemma as_int_fits z : fits 32 z = true -> as_int (PyInt z) = Some z.
Proof. intros H. unfold as_int. now rewrite H. Qed.

Lemma convert_items_map {A B} check (convert : PyObject -> A) (wrap : B -> PyObject)
    (g : B -> A) (l : list B) :
  (forall x, In x l -> check (wrap x) = true /\ convert (wrap x) = g x) ->
  convert_items check convert (map wrap l) = Some (map g l).
Proof.
  induction l as [|x l IH]; intros H; [reflexivity|].
  cbn [map convert_items]. destruct (H x (or_introl eq_refl)) as [-> ->].
  rewrite IH by (intros y Hy; apply H; now right). reflexivity.
Qed.

Lemma convert_items_bad {A} check (convert : PyObject -> A) (l : list PyObject) item :
  In item l -> check item = false -> convert_items check convert l = None.
Proof.
  induction l as [|x l IH]; intros Hin Hc; [destruct Hin|].
  cbn [convert_items]. destruct (check x) eqn:E; [|reflexivity].
  destruct Hin as [->|Hin]; [congruence|]. now rewrite IH.
Qed.

(** X21: what [set_int] sends.  On an open FEM, a single integer is sent as one
    value and a list of integers as its items, in order and unchanged (all
    within the range of [int]); the result is the return code of the one call
    of [femSetInt].  A list with an item that is no integer is refused
    without a call into the library. *)
Theorem set_int_sends_the_values chip_id param_id alloc s :
  handle (self s) <> NULL ->
  fits 32 chip_id = true -> fits 32 param_id = true ->
  (forall value,
      fits 32 value = true -> malloc_ok alloc 1 4 = true ->
      let c := FemSetInt (handle (self s)) chip_id param_id 1 [value] in
      _set_int pf [PyFemCapsule; PyInt chip_id; PyInt param_id; PyInt value] alloc s
      = (Returns (PyInt (rc_of pf (trace s) c)), call c s)) /\
  (forall values,
      Forall (fun v => fits 32 v = true) values ->
      Z.of_nat (length values) < 2 ^ 31 ->
      malloc_ok alloc (Z.of_nat (length values)) 4 = true ->
      let c := FemSetInt (handle (self s)) chip_id param_id
                 (Z.of_nat (length values)) values in
      _set_int pf [PyFemCapsule; PyInt chip_id; PyInt param_id; PyList (map PyInt values)]
        alloc s
      = (Returns (PyInt (rc_of pf (trace s) c)), call c s)) /\
  (forall items item,
      In item items -> PyInt_Check item = false ->
      Z.of_nat (length items) < 2 ^ 31 ->
      malloc_ok alloc (Z.of_nat (length items)) 4 = true ->
      _set_int pf [PyFemCapsule; PyInt chip_id; PyInt param_id; PyList items] alloc s
      = (Raises "set_int: non-integer value specified" [], s)).
Proof.
  intros H Hc Hp.
  assert (P : forall v, parse_OiiO [PyFemCapsule; PyInt chip_id; PyInt param_id; v]
                        = Some (PyFemCapsule, chip_id, param_id, v)).
  { intros v. unfold parse_OiiO. now rewrite (as_int_fits _ Hc), (as_int_fits _ Hp). }
  split; [|split].
  - intros value Hv Hm. cbv zeta. unfold _set_int. rewrite P, (validate_open _ _ _ H).
    cbn [sized_values]. rewrite Hm. cbn [negb PyInt_AsLong].
    rewrite (fits_32_64 _ Hv), (int_of_long_fits _ Hv). reflexivity.
  - intros values Hv Hlen Hm. cbv zeta. unfold _set_int. rewrite P, (validate_open _ _ _ H).
    cbn [sized_values]. rewrite length_map, (int_of_long_length _ Hlen), Hm. cbn [negb].
    rewrite Nat2Z.id, <- (length_map PyInt values), firstn_all.
    rewrite (convert_items_map PyInt_Check _ PyInt (fun v => v)).
    + rewrite map_id, length_map. reflexivity.
    + intros v Hin. split; [reflexivity|]. cbn [PyInt_AsLong].
      rewrite Stdlib.Lists.List.Forall_forall in Hv.
      now rewrite (fits_32_64 _ (Hv v Hin)), (int_of_long_fits _ (Hv v Hin)).
  - intros items item Hin Hbad Hlen Hm. unfold _set_int.
    rewrite P, (validate_open _ _ _ H).
    cbn [sized_values]. rewrite (int_of_long_length _ Hlen), Hm. cbn [negb].
    rewrite Nat2Z.id, firstn_all.
    now rewrite (convert_items_bad _ _ items item Hin Hbad).
Qed.

(** X22: a list of one item given to [set_short] or [set_float].  Both take the
    single-value branch on [size == 1] and convert the list object itself, so
    the item is never read: the library is sent -1 whatever the item is. *)
Theorem one_item_list_is_not_read item chip_id param_id alloc s :
  handle (self s) <> NULL ->
  fits 32 chip_id = true -> fits 32 param_id = true ->
  malloc_ok alloc 1 2 = true -> malloc_ok alloc 1 8 = true ->
  let args := [PyFemCapsule; PyInt chip_id; PyInt param_id; PyList [item]] in
  snd (_set_short pf args alloc s)
  = call (FemSetShort (handle (self s)) chip_id param_id 1 [-1]) s /\
  snd (_set_float pf args alloc s)
  = call (FemSetFloat (handle (self s)) chip_id param_id 1 [double_of_long pf (-1)]) s.
Proof.
  intros H Hc Hp Hm2 Hm8. cbv zeta.
  assert (P : forall v, parse_OiiO [PyFemCapsule; PyInt chip_id; PyInt param_id; v]
                        = Some (PyFemCapsule, chip_id, param_id, v)).
  { intros v. unfold parse_OiiO. now rewrite (as_int_fits _ Hc), (as_int_fits _ Hp). }
  split.
  - unfold _set_short. rewrite P, (validate_open _ _ _ H).
    cbn [sized_values length]. change (int_of_long (Z.of_nat 1)) with 1.
    rewrite Hm2. reflexivity.
  - unfold _set_float. rewrite P, (validate_open _ _ _ H).
    cbn [sized_values length]. change (int_of_long (Z.of_nat 1)) with 1.
    rewrite Hm8. reflexivity.
Qed.

(** X23: floats given to [set_float].  A single Python float is refused (the
    single value is recognised with [PyInt_Check]), and the floats of a list
    of another length than one reach the library converted to [short] and
    back. *)
Theorem set_float_truncates_or_refuses chip_id param_id alloc s :
  handle (self s) <> NULL ->
  fits 32 chip_id = true -> fits 32 param_id = true ->
  (forall d,
      _set_float pf [PyFemCapsule; PyInt chip_id; PyInt param_id; PyFloat d] alloc s
      = (Raises "set_float: specified value(s) not float or list" [], s)) /\
  (forall values,
      length values <> 1%nat ->
      Z.of_nat (length values) < 2 ^ 31 ->
      malloc_ok alloc (Z.of_nat (length values)) 8 = true ->
      let c := FemSetFloat (handle (self s)) chip_id param_id (Z.of_nat (length values))
                 (map (fun d => double_of_long pf (short_of_double pf d)) values) in
      _set_float pf [PyFemCapsule; PyInt chip_id; PyInt param_id; PyList (map PyFloat values)]
        alloc s
      = (Returns (PyInt (rc_of pf (trace s) c)), call c s)).
Proof.
  intros H Hc Hp.
  assert (P : forall v, parse_OiiO [PyFemCapsule; PyInt chip_id; PyInt param_id; v]
                        = Some (PyFemCapsule, chip_id, param_id, v)).
  { intros v. unfold parse_OiiO. now rewrite (as_int_fits _ Hc), (as_int_fits _ Hp). }
  split.
  - intros d. unfold _set_float. rewrite P, (validate_open _ _ _ H). reflexivity.
  - intros values Hne Hlen Hm. cbv zeta. unfold _set_float.
    rewrite P, (validate_open _ _ _ H).
    cbn [sized_values]. rewrite length_map, (int_of_long_length _ Hlen), Hm. cbn [negb].
    destruct (Z.eqb_spec (Z.of_nat (length values)) 1) as [E|_]; [lia|].
    rewrite Nat2Z.id, <- (length_map PyFloat values), firstn_all.
    rewrite (convert_items_map PyFloat_Check _ PyFloat
               (fun d => double_of_long pf (short_of_double pf d)));
      [now rewrite length_map | intros d _; now split].
Qed.

(** X24: what [get_int] returns.  On an open FEM with room for the buffer the
    result is the pair of the return code and a list of [size] items.  When
    the library returned [FEM_RTN_OK] every item is an integer between 0 and
    [2^32 - 1], the buffer being read as [unsigned int]; otherwise no item of
    the list was set. *)
Theorem get_int_values chip_id param_id size alloc s :
  handle (self s) <> NULL ->
  fits 32 chip_id = true -> fits 32 param_id = true -> fits 32 size = true ->
  malloc_ok alloc size 4 = true ->
  let c := FemGetInt (handle (self s)) chip_id param_id size in
  let rc := rc_of pf (trace s) c in
  exists values,
    _get_int pf [PyFemCapsule; PyInt chip_id; PyInt param_id; PyInt size] alloc s
    = (Returns (PyTuple [PyInt rc; PyList values]), call c s) /\
    length values = Z.to_nat size /\
    (rc = FEM_RTN_OK pf ->
     Forall (fun v => exists z, v = PyInt z /\ 0 <= z < 2 ^ 32) values) /\
    (rc <> FEM_RTN_OK pf -> Forall (fun v => v = PyNull) values).
Proof.
  intros H Hc Hp Hs Hm. cbv zeta. unfold _get_int, parse_Oiii.
  rewrite (as_int_fits _ Hc), (as_int_fits _ Hp), (as_int_fits _ Hs).
  rewrite (validate_open _ _ _ H), Hm. cbn [negb].
  eexists. split; [reflexivity|].
  destruct (Z.eqb_spec (rc_of pf (trace s)
                          (FemGetInt (handle (self s)) chip_id param_id size))
                       (FEM_RTN_OK pf)) as [E|E].
  - split; [now rewrite length_map, upto_length|]. split; [|congruence].
    intros _. apply Forall_map, Stdlib.Lists.List.Forall_forall. intros i _.
    eexists. split; [reflexivity|]. unfold unsigned_of_int. apply Z.mod_pos_bound. lia.
  - split; [now rewrite length_map, upto_length|]. split; [congruence|].
    intros _. apply Forall_map, Stdlib.Lists.List.Forall_forall. now intros i _.
Qed.

End FemFacts.

(** *** Instances for the extension *)

Section FemWitnesses.
Import FemApi FemSamples.

Lemma closed_fem_rejects_calls_witness :
  snd (invoke stub cmd [PyFemCapsule; PyInt 0; PyInt 3] roomy closed_session)
  = closed_session /\
  (fst (invoke stub cmd [PyFemCapsule; PyInt 0; PyInt 3] roomy closed_session) = Fails \/
   exists format func_name,
     fst (invoke stub cmd [PyFemCapsule; PyInt 0; PyInt 3] roomy closed_session)
     = Raises format [ArgStr func_name]).
Proof.
  apply (closed_fem_rejects_calls stub cmd [PyFemCapsule; PyInt 0; PyInt 3] roomy
           closed_session).
  reflexivity.
Defined.

Lemma handle_closed_once_witness :
  exists others,
    trace (object_life stub sample_script open_session)
    = trace open_session ++ others ++ [FemClose (handle (self open_session))] /\
    Forall (uses (handle (self open_session))) others.
Proof.
  apply (handle_closed_once stub sample_script open_session). discriminate.
Defined.

Lemma fem_lifetime_witness :
  let c := FemInitialise {| femNumber := 1; femAddress := "192.168.2.2";
                            femPort := 6969; dataAddress := "10.0.2.1" |} in
  rc_of stub [] c = FEM_RTN_OK stub /\
  exists others,
    trace (object_life stub sample_script open_session)
    = [] ++ c :: others ++ [FemClose (handle (self open_session))] /\
    Forall (uses (handle (self open_session))) others.
Proof.
  apply (fem_lifetime stub 1 "192.168.2.2" 6969 "10.0.2.1" roomy [] [] sample_script
           (Returns PyFemCapsule) open_session);
    [reflexivity | reflexivity | discriminate].
Defined.

Lemma set_int_sends_the_values_witness :
  _set_int stub [PyFemCapsule; PyInt 0; PyInt 3; PyList (map PyInt [1; -2])] roomy open_session
  = (Returns (PyInt 0), call (FemSetInt 4096 0 3 2 [1; -2]) open_session).
Proof.
  destruct (set_int_sends_the_values stub 0 3 roomy open_session) as (_ & H & _);
    [discriminate | reflexivity | reflexivity |].
  exact (H [1; -2] ltac:(repeat constructor) eq_refl eq_refl).
Defined.

Lemma one_item_list_is_not_read_witness :
  let args := [PyFemCapsule; PyInt 0; PyInt 3; PyList [PyInt 5]] in
  snd (_set_short stub args roomy open_session)
  = call (FemSetShort (handle (self open_session)) 0 3 1 [-1]) open_session /\
  snd (_set_float stub args roomy open_session)
  = call (FemSetFloat (handle (self open_session)) 0 3 1 [double_of_long stub (-1)])
      open_session.
Proof.
  apply (one_item_list_is_not_read stub (PyInt 5) 0 3 roomy open_session);
    [discriminate | reflexivity | reflexivity | reflexivity | reflexivity].
Defined.

Lemma set_float_truncates_or_refuses_witness :
  _set_float stub [PyFemCapsule; PyInt 0; PyInt 3; PyFloat 7] roomy open_session
  = (Raises "set_float: specified value(s) not float or list" [], open_session) /\
  _set_float stub [PyFemCapsule; PyInt 0; PyInt 3; PyList (map PyFloat [7; 9])]
    roomy open_session
  = (Returns (PyInt 0),
     call (FemSetFloat 4096 0 3 2
             (map (fun d => double_of_long stub (short_of_double stub d)) [7; 9]))
       open_session).
Proof.
  destruct (set_float_truncates_or_refuses stub 0 3 roomy open_session) as (H1 & H2);
    [discriminate | reflexivity | reflexivity |].
  split; [exact (H1 7) | exact (H2 [7; 9] ltac:(discriminate) eq_refl eq_refl)].
Defined.

Lemma get_int_values_witness :
  let c := FemGetInt (handle (self open_session)) 0 3 2 in
  let rc := rc_of stub (trace open_session) c in
  exists values,
    _get_int stub [PyFemCapsule; PyInt 0; PyInt 3; PyInt 2] roomy open_session
    = (Returns (PyTuple [PyInt rc; PyList values]), call c open_session) /\
    length values = Z.to_nat 2 /\
    (rc = FEM_RTN_OK stub ->
     Forall (fun v => exists z, v = PyInt z /\ 0 <= z < 2 ^ 32) values) /\
    (rc <> FEM_RTN_OK stub -> Forall (fun v => v = PyNull) values).
Proof.
  apply (get_int_values stub 0 3 2 roomy open_session);
    [discriminate | reflexivity | reflexivity | reflexivity | reflexivity].
Defined.

End FemWitnesses.
